(** * Ledgerly blockchain middleware: a shallow embedding of [scripts/app.js]
    and of the contracts [EmailRegistry] and [PaymentManager]

    The development follows the layout of the sources:

    - [Js]: the JavaScript values that travel through the handlers (JSON
      bodies, truthiness, [===], [ToString], [parseFloat]);
    - [Web3Utils]: [isAddress], [toWei], [fromWei] of web3 1.x;
    - [Vault]: [encrypt] / [decrypt] (AES-256-GCM over hex and UTF-8);
    - [App]: the world (backend, chain, files, clock), the helpers and the
      HTTP handlers, written in a small state-and-exception monad;
    - [Race]: two submissions of the same sender interleaved at their
      [await] points;
    - [Solidity], [EmailRegistry], [PaymentManager]: the two contracts, a
      call being a function of the storage that completes or reverts, and
      the callees of [PaymentManager] being code that may call back. *)

From Stdlib Require Import ZArith NArith List String Ascii Bool Lia.
From Stdlib Require Import Floats Uint63.
From stdpp Require Import base option list gmap strings.

Set Warnings "-register-all".

#[local] Open Scope string_scope.
#[local] Open Scope Z_scope.

(* ===================================================================== *)
(** ** Characters and strings

    A JavaScript string is modelled by its code units below 256 (one
    [ascii] per unit); the plaintext handed to the vault, where the full
    UTF-16 range matters, has its own type in [Vault]. *)
(* ===================================================================== *)

Module Chars.

Definition code (c : ascii) : Z := Z.of_N (N_of_ascii c).

Definition is_digit (c : ascii) : bool := (48 <=? code c) && (code c <=? 57).
Definition digit_val (c : ascii) : Z := code c - 48.

Definition is_lower_hex (c : ascii) : bool :=
  is_digit c || ((97 <=? code c) && (code c <=? 102)).
Definition is_upper_hex (c : ascii) : bool :=
  is_digit c || ((65 <=? code c) && (code c <=? 70)).
Definition is_hex (c : ascii) : bool := is_lower_hex c || is_upper_hex c.

(** [String.prototype.toLowerCase] on one code unit below 256: A-Z, and the
    Latin-1 capitals U+00C0..U+00DE except the multiplication sign. *)
Definition lower_char (c : ascii) : ascii :=
  let n := code c in
  if ((65 <=? n) && (n <=? 90))
     || ((192 <=? n) && (n <=? 222) && negb (n =? 215))
  then ascii_of_N (Z.to_N (n + 32)) else c.

Fixpoint toLowerCase (s : string) : string :=
  match s with
  | EmptyString => EmptyString
  | String c r => String (lower_char c) (toLowerCase r)
  end.

Fixpoint all_chars (p : ascii -> bool) (s : string) : bool :=
  match s with
  | EmptyString => true
  | String c r => p c && all_chars p r
  end.

Fixpoint str_len (s : string) : nat :=
  match s with
  | EmptyString => O
  | String _ r => S (str_len r)
  end.

(** White space of [StrWhiteSpaceChar] that fits in one code unit below 256. *)
Definition is_space (c : ascii) : bool :=
  let n := code c in
  ((9 <=? n) && (n <=? 13)) || (n =? 32) || (n =? 160).

Fixpoint skip_spaces (s : string) : string :=
  match s with
  | String c r => if is_space c then skip_spaces r else s
  | EmptyString => EmptyString
  end.

Fixpoint join (sep : string) (l : list string) : string :=
  match l with
  | [] => ""
  | [x] => x
  | x :: r => x ++ sep ++ join sep r
  end.

(** Decimal rendering of a non-negative integer ([BN.toString(10)], and
    [Number.prototype.toString] on a safe integer). *)
Fixpoint dec_digits (fuel : nat) (n : Z) (acc : string) : string :=
  match fuel with
  | O => acc
  | S f =>
      let acc' := String (ascii_of_N (Z.to_N (48 + n mod 10))) acc in
      if n <? 10 then acc' else dec_digits f (n / 10) acc'
  end.

Definition dec_of_Z (n : Z) : string :=
  if n <? 0 then "-" ++ dec_digits (S (Z.to_nat (Z.log2 (- n)))) (- n) ""
  else dec_digits (S (Z.to_nat (Z.log2 n))) n "".

(** Value of a string of decimal digits ([new BN(s)] on digits only). *)
Fixpoint digits_val (acc : Z) (s : string) : Z :=
  match s with
  | EmptyString => acc
  | String c r => digits_val (10 * acc + digit_val c) r
  end.

End Chars.

(* ===================================================================== *)
(** ** Decimal text to binary64, as [parseFloat] rounds it *)
(* ===================================================================== *)

Module Num.
Import Chars.

(** The binary64 nearest to [n / d] (ties to even), for [0 <= n], [0 < d]:
    the quotient is scaled to a 53-bit integer (fewer bits in the subnormal
    range), rounded on the remainder and rescaled; [Z.ldexp] overflows to
    infinity. *)
Definition scale (n d e : Z) : Z * Z :=
  if e <? 0 then (n * 2 ^ (- e), d) else (n, d * 2 ^ e).

Definition round_ratio (n d : Z) : float :=
  if n =? 0 then 0%float
  else
    let e1 := Z.log2 n - Z.log2 d - 52 in
    let '(n1, d1) := scale n d e1 in
    let e := if n1 / d1 <? 2 ^ 52 then e1 - 1 else e1 in
    let e' := Z.max e (-1074) in
    let '(n2, d2) := scale n d e' in
    let q := n2 / d2 in
    let r := n2 mod d2 in
    let q' := if (d2 <? 2 * r) || ((2 * r =? d2) && Z.odd q) then q + 1 else q in
    Z.ldexp (PrimFloat.of_uint63 (Uint63.of_Z q')) e'.

(** [m * 10 ^ e10] rounded to binary64. *)
Definition of_decimal (neg : bool) (m e10 : Z) : float :=
  let x := if e10 <? 0 then round_ratio m (10 ^ (- e10)) else round_ratio (m * 10 ^ e10) 1 in
  if neg then PrimFloat.opp x else x.

(** A parsed [StrDecimalLiteral]. *)
Inductive decimal :=
| DNaN
| DInf (neg : bool)
| DFin (neg : bool) (mantissa : Z) (exp10 : Z).

Definition to_float (d : decimal) : float :=
  match d with
  | DNaN => nan
  | DInf neg => if neg then neg_infinity else infinity
  | DFin neg m e => of_decimal neg m e
  end.

(** Longest run of digits at the head of [s]: its value appended to [acc],
    how many digits were read, and the rest. *)
Fixpoint take_digits (acc : Z) (cnt : Z) (s : string) : Z * Z * string :=
  match s with
  | String c r => if is_digit c then take_digits (10 * acc + digit_val c) (cnt + 1) r
                  else (acc, cnt, s)
  | EmptyString => (acc, cnt, s)
  end.

(** The optional [ExponentPart]: [e] or [E], an optional sign and at least
    one digit; anything else is not part of the literal. *)
Definition take_exponent (s : string) : Z :=
  match s with
  | String c r =>
      if (code c =? 101) || (code c =? 69) then
        let '(neg, r') :=
          match r with
          | String c' r'' =>
              if code c' =? 45 then (true, r'')
              else if code c' =? 43 then (false, r'') else (false, r)
          | EmptyString => (false, r)
          end in
        let '(v, cnt, _) := take_digits 0 0 r' in
        if cnt =? 0 then 0 else if neg then - v else v
      else 0
  | EmptyString => 0
  end.

Definition starts_with (p s : string) : bool :=
  String.eqb p (substring 0 (String.length p) s).

(** [parseFloat] on a string: leading white space, an optional sign, then
    the longest prefix that is [Infinity] or a decimal literal. *)
Definition parse_decimal (s : string) : decimal :=
  let s0 := skip_spaces s in
  let '(neg, s1) :=
    match s0 with
    | String c r =>
        if code c =? 45 then (true, r)
        else if code c =? 43 then (false, r) else (false, s0)
    | EmptyString => (false, s0)
    end in
  if starts_with "Infinity" s1 then DInf neg
  else
    let '(ip, icnt, s2) := take_digits 0 0 s1 in
    let '(m, fcnt, s3) :=
      match s2 with
      | String c r =>
          if code c =? 46 then
            let '(m, fcnt, s3) := take_digits ip 0 r in
            (* a lone dot after no digit and before no digit is no literal *)
            if (icnt =? 0) && (fcnt =? 0) then (ip, 0, s2) else (m, fcnt, s3)
          else (ip, 0, s2)
      | EmptyString => (ip, 0, s2)
      end in
    if (icnt =? 0) && (fcnt =? 0) then DNaN
    else DFin neg m (take_exponent s3 - fcnt).

Definition parseFloat_string (s : string) : float := to_float (parse_decimal s).

End Num.

Module NumTests.
Import Num.
#[local] Open Scope float_scope.

Example parse_one : parseFloat_string "1.0" = 1.
Proof. vm_compute. reflexivity. Qed.

Example parse_tenth : parseFloat_string "0.1" = 0x1.999999999999ap-4.
Proof. vm_compute. reflexivity. Qed.

Example parse_neg : parseFloat_string "  -2.5e1xyz" = -25.
Proof. vm_compute. reflexivity. Qed.

Example parse_word : PrimFloat.is_nan (parseFloat_string "abc") = true.
Proof. vm_compute. reflexivity. Qed.

Example parse_dot : PrimFloat.is_nan (parseFloat_string ".") = true.
Proof. vm_compute. reflexivity. Qed.

Example parse_dot5 : parseFloat_string ".5" = 0.5.
Proof. vm_compute. reflexivity. Qed.

Example parse_1e : parseFloat_string "1e" = 1.
Proof. vm_compute. reflexivity. Qed.

Example parse_underflow : parseFloat_string "1e-400" = 0.
Proof. vm_compute. reflexivity. Qed.

Example parse_overflow : parseFloat_string "1e400" = infinity.
Proof. vm_compute. reflexivity. Qed.

Example parse_min_subnormal : parseFloat_string "5e-324" = 0x1p-1074.
Proof. vm_compute. reflexivity. Qed.

Example parse_max : parseFloat_string "1.7976931348623157e308" = 0x1.fffffffffffffp+1023.
Proof. vm_compute. reflexivity. Qed.

Example parse_just_below_one : parseFloat_string "0.999999999999999999" = 1.
Proof. vm_compute. reflexivity. Qed.

Example parse_tie_even : parseFloat_string "9007199254740993" = 9007199254740992.
Proof. vm_compute. reflexivity. Qed.

End NumTests.

(* ===================================================================== *)
(** ** JavaScript values *)
(* ===================================================================== *)

Module Js.
Import Chars.

(** What [express.json()] and [response.json()] produce, plus [undefined]
    for a property that is absent. *)
Inductive JsVal :=
| VUndef
| VNull
| VBool (b : bool)
| VNum (x : float)
| VStr (s : string)
| VArr (items : list JsVal)
| VObj (fields : list (string * JsVal)).

(** The result of running a piece of code: a value, or an [Error] thrown
    with its [message]. *)
Inductive Outcome (A : Type) :=
| Ok (a : A)
| Throw (msg : string).
Arguments Ok {A} a.
Arguments Throw {A} msg.

Section WithNumberToString.

(** [Number::toString], the shortest digits that read back as the same
    double, is left to the engine. *)
Variable number_to_string : float -> string.

(** [ToString]. *)
Fixpoint to_string (v : JsVal) : string :=
  match v with
  | VUndef => "undefined"
  | VNull => "null"
  | VBool true => "true"
  | VBool false => "false"
  | VNum x => number_to_string x
  | VStr s => s
  | VArr items =>
      join "," (List.map (fun i => match i with
                                   | VUndef | VNull => ""
                                   | _ => to_string i
                                   end) items)
  | VObj _ => "[object Object]"
  end.

(** [parseFloat(v)]: [ToString], then the longest numeric prefix. *)
Definition parseFloat (v : JsVal) : float := Num.parseFloat_string (to_string v).

End WithNumberToString.

(** [!!v]. *)
Definition truthy (v : JsVal) : bool :=
  match v with
  | VUndef | VNull => false
  | VBool b => b
  | VNum x => negb (PrimFloat.eqb x 0 || PrimFloat.is_nan x)
  | VStr s => negb (String.eqb s "")
  | VArr _ | VObj _ => true
  end.

(** [a === b] on two values read from parsed JSON: arrays and objects are
    compared by identity, and two fields never hold the same object. *)
Definition strict_eq (a b : JsVal) : bool :=
  match a, b with
  | VUndef, VUndef | VNull, VNull => true
  | VBool x, VBool y => Bool.eqb x y
  | VNum x, VNum y => PrimFloat.eqb x y
  | VStr x, VStr y => String.eqb x y
  | _, _ => false
  end.

Fixpoint assoc (k : string) (l : list (string * JsVal)) : JsVal :=
  match l with
  | [] => VUndef
  | (k', v) :: r => if String.eqb k k' then v else assoc k r
  end.

(** [v.name] for the property names the handlers read ([success], [user],
    [wallet_address], [transaction_db_id], [error], [message]): none of them
    lives on a prototype, so a primitive or an array answers [undefined];
    reading from [null] or [undefined] is a [TypeError]. *)
Definition get_prop (v : JsVal) (name : string) : Outcome JsVal :=
  match v with
  | VUndef => Throw ("Cannot read properties of undefined (reading '" ++ name ++ "')")
  | VNull => Throw ("Cannot read properties of null (reading '" ++ name ++ "')")
  | VObj fields => Ok (assoc name fields)
  | _ => Ok VUndef
  end.

(** [a || b]. *)
Definition or_else (a b : JsVal) : JsVal := if truthy a then a else b.

(** [v.toLowerCase()]: only strings have the method. *)
Definition to_lower (v : JsVal) : Outcome string :=
  match v with
  | VStr s => Ok (toLowerCase s)
  | VUndef => Throw "Cannot read properties of undefined (reading 'toLowerCase')"
  | VNull => Throw "Cannot read properties of null (reading 'toLowerCase')"
  | _ => Throw "toLowerCase is not a function"
  end.

End Js.

(* ===================================================================== *)
(** ** web3 1.x utilities *)
(* ===================================================================== *)

Module Web3Utils.
Import Chars.

Definition strip_0x (s : string) : string :=
  match s with
  | String a (String b r) =>
      if (code a =? 48) && (code b =? 120) then r else s
  | _ => s
  end.

Definition strip_0x_or_0X (s : string) : string :=
  match s with
  | String a (String b r) =>
      if (code a =? 48) && ((code b =? 120) || (code b =? 88)) then r else s
  | _ => s
  end.

Definition hex40 (p : ascii -> bool) (s : string) : bool :=
  (Nat.eqb (str_len s) 40) && all_chars p s.

Section WithChecksum.

(** [checkAddressChecksum] (EIP-55, a Keccak-256 digest of the lower-case
    digits) is left to the library. *)
Variable checkAddressChecksum : string -> bool.

(** [web3.utils.isAddress] on the string form of its argument:
    [/^(0x)?[0-9a-f]{40}$/i], then all lower case or all upper case, else
    the checksum. In a case-insensitive pattern [x] also matches [X]. *)
Definition isAddress_string (s : string) : bool :=
  if negb (hex40 is_hex (strip_0x_or_0X s)) then false
  else if hex40 is_lower_hex (strip_0x_or_0X s) || hex40 is_upper_hex (strip_0x_or_0X s)
       then true
       else checkAddressChecksum s.

End WithChecksum.

Definition pow18 : Z := 10 ^ 18.

Fixpoint split_dot (s : string) : list string :=
  match s with
  | EmptyString => [""]
  | String c r =>
      if code c =? 46 then "" :: split_dot r
      else match split_dot r with
           | h :: t => String c h :: t
           | [] => [String c ""]
           end
  end.

Fixpoint pad_right (n : nat) (s : string) : string :=
  match n with
  | O => s
  | S k => match s with
           | EmptyString => String "0"%char (pad_right k EmptyString)
           | String c r => String c (pad_right k r)
           end
  end.

(** [web3.utils.toWei(s, 'ether')] for a string argument (ethjs-unit): the
    text must match [/^-?[0-9.]+$/], hold at most one dot, not be a lone dot
    and carry at most 18 decimals; the result is the wei amount. *)
Definition toWei (s : string) : Js.Outcome Z :=
  let '(neg, body) :=
    match s with
    | String c r => if code c =? 45 then (true, r) else (false, s)
    | EmptyString => (false, s)
    end in
  if negb (all_chars (fun c => is_digit c || (code c =? 46)) body) || String.eqb body "" then
    Js.Throw ("while converting number to string, invalid number value '" ++ s
              ++ "', should be a number matching (^-?[0-9.]+).")
  else if String.eqb body "." then
    Js.Throw ("[ethjs-unit] while converting number " ++ s
              ++ " to wei, invalid value")
  else
    match split_dot body with
    | [whole] => Js.Ok ((if neg then -1 else 1) * (digits_val 0 whole * pow18))
    | [whole; fraction] =>
        if Nat.ltb 18 (str_len fraction) then
          Js.Throw ("[ethjs-unit] while converting number " ++ s
                    ++ " to wei, too many decimal places")
        else
          Js.Ok ((if neg then -1 else 1)
                 * (digits_val 0 whole * pow18 + digits_val 0 (pad_right 18 fraction)))
    | _ =>
        Js.Throw ("[ethjs-unit] while converting number " ++ s
                  ++ " to wei,  too many decimal points")
    end.

(** [while (s.length < n) s = '0' + s]: the loop runs once for each missing
    character. *)
Fixpoint prepend_zeros (missing : nat) (s : string) : string :=
  match missing with
  | O => s
  | S k => prepend_zeros k (String "0"%char s)
  end.

Definition pad_left (n : nat) (s : string) : string := prepend_zeros (n - str_len s) s.

Fixpoint strip_trailing_zeros (s : string) : string :=
  match s with
  | EmptyString => EmptyString
  | String c r =>
      match strip_trailing_zeros r with
      | EmptyString => if code c =? 48 then EmptyString else String c EmptyString
      | r' => String c r'
      end
  end.

(** [web3.utils.fromWei(wei, 'ether')] on a non-negative balance: the whole
    part, then the 18 decimals without their trailing zeros, if any is left. *)
Definition fromWei (wei : Z) : string :=
  let fraction := strip_trailing_zeros (pad_left 18 (dec_of_Z (wei mod pow18))) in
  let whole := dec_of_Z (wei / pow18) in
  if String.eqb fraction "" then whole else whole ++ "." ++ fraction.

End Web3Utils.

Module Web3Tests.
Import Web3Utils Js.

Example toWei_one : toWei "1" = Ok (10 ^ 18).
Proof. vm_compute. reflexivity. Qed.
Example toWei_half : toWei "0.5" = Ok (5 * 10 ^ 17).
Proof. vm_compute. reflexivity. Qed.
Example toWei_dot5 : toWei ".5" = Ok (5 * 10 ^ 17).
Proof. vm_compute. reflexivity. Qed.
Example toWei_word : exists m, toWei "abc" = Throw m.
Proof. eexists. vm_compute. reflexivity. Qed.
Example toWei_exp : exists m, toWei "1e3" = Throw m.
Proof. eexists. vm_compute. reflexivity. Qed.
Example toWei_two_dots : exists m, toWei "1.2.3" = Throw m.
Proof. eexists. vm_compute. reflexivity. Qed.
Example fromWei_one : fromWei (10 ^ 18) = "1".
Proof. vm_compute. reflexivity. Qed.
Example fromWei_mixed : fromWei 1500000000000000000 = "1.5".
Proof. vm_compute. reflexivity. Qed.
Example fromWei_small : fromWei 999999999999999999 = "0.999999999999999999".
Proof. vm_compute. reflexivity. Qed.
Example fromWei_zero : fromWei 0 = "0".
Proof. vm_compute. reflexivity. Qed.
Example fromWei_one_wei : fromWei 1 = "0.000000000000000001".
Proof. vm_compute. reflexivity. Qed.
Example fromWei_thousandth : fromWei 1001000000000000000 = "1.001".
Proof. vm_compute. reflexivity. Qed.
Example fromWei_large : fromWei 12345678901234567890123 = "12345.678901234567890123".
Proof. vm_compute. reflexivity. Qed.
Example toWei_thousandth : toWei "1.001" = Ok 1001000000000000000.
Proof. vm_compute. reflexivity. Qed.
Example isAddress_lower :
  isAddress_string (fun _ => false) "0x00000000000000000000000000000000000000aa" = true.
Proof. vm_compute. reflexivity. Qed.
Example isAddress_short : isAddress_string (fun _ => true) "0xabc" = false.
Proof. vm_compute. reflexivity. Qed.

End Web3Tests.

(* ===================================================================== *)
(** ** Byte buffers, hex and UTF-8, as Node's [Buffer] converts them *)
(* ===================================================================== *)

Module Bytes.
Import Chars.

Definition byte := ascii.

Definition b2z (b : byte) : Z := Z.of_N (N_of_ascii b).
(** The low eight bits of a number. *)
Definition z2b (z : Z) : byte := ascii_of_N (Z.to_N z).

Definition bxor (a b : byte) : byte :=
  match a, b with
  | Ascii a0 a1 a2 a3 a4 a5 a6 a7, Ascii b0 b1 b2 b3 b4 b5 b6 b7 =>
      Ascii (xorb a0 b0) (xorb a1 b1) (xorb a2 b2) (xorb a3 b3)
            (xorb a4 b4) (xorb a5 b5) (xorb a6 b6) (xorb a7 b7)
  end.

(** Byte-wise xor, as long as the shorter buffer. *)
Fixpoint xor_bytes (a b : list byte) : list byte :=
  match a, b with
  | x :: a', y :: b' => bxor x y :: xor_bytes a' b'
  | _, _ => []
  end.

Definition hex_digit (n : Z) : ascii :=
  if n <? 10 then ascii_of_N (Z.to_N (48 + n)) else ascii_of_N (Z.to_N (87 + n)).

(** [buf.toString('hex')]: two lower-case digits per byte. *)
Fixpoint hex_encode (bs : list byte) : string :=
  match bs with
  | [] => EmptyString
  | b :: r => String (hex_digit (b2z b / 16)) (String (hex_digit (b2z b mod 16)) (hex_encode r))
  end.

Definition hex_value (c : ascii) : option Z :=
  let n := code c in
  if (48 <=? n) && (n <=? 57) then Some (n - 48)
  else if (97 <=? n) && (n <=? 102) then Some (n - 87)
  else if (65 <=? n) && (n <=? 70) then Some (n - 55)
  else None.

(** [Buffer.from(s, 'hex')]: pairs of digits, either case, up to the first
    pair that is not hexadecimal; a last odd digit is dropped. *)
Fixpoint hex_decode (s : string) : list byte :=
  match s with
  | String h (String l r) =>
      match hex_value h, hex_value l with
      | Some a, Some b => z2b (16 * a + b) :: hex_decode r
      | _, _ => []
      end
  | _ => []
  end.

(** A JavaScript string in full: its UTF-16 code units. *)
Definition jstring := list Z.

Definition is_high_surrogate (u : Z) : bool := (0xD800 <=? u) && (u <=? 0xDBFF).
Definition is_low_surrogate (u : Z) : bool := (0xDC00 <=? u) && (u <=? 0xDFFF).

(** The code points of a string: a surrogate pair is one code point, and a
    surrogate on its own is written as U+FFFD when the string is encoded. *)
Fixpoint code_points (t : jstring) : list Z :=
  match t with
  | [] => []
  | u :: r =>
      if is_high_surrogate u then
        match r with
        | v :: r' =>
            if is_low_surrogate v
            then (0x10000 + (u - 0xD800) * 0x400 + (v - 0xDC00)) :: code_points r'
            else 0xFFFD :: code_points r
        | [] => [0xFFFD]
        end
      else if is_low_surrogate u then 0xFFFD :: code_points r
      else u :: code_points r
  end.

Definition utf8_of_code_point (cp : Z) : list byte :=
  if cp <? 0x80 then [z2b cp]
  else if cp <? 0x800 then [z2b (0xC0 + cp / 64); z2b (0x80 + cp mod 64)]
  else if cp <? 0x10000 then
    [z2b (0xE0 + cp / 4096); z2b (0x80 + (cp / 64) mod 64); z2b (0x80 + cp mod 64)]
  else
    [z2b (0xF0 + cp / 262144); z2b (0x80 + (cp / 4096) mod 64);
     z2b (0x80 + (cp / 64) mod 64); z2b (0x80 + cp mod 64)].

(** [Buffer.from(t, 'utf8')]. *)
Definition utf8_encode (t : jstring) : list byte :=
  List.concat (List.map utf8_of_code_point (code_points t)).

(** The UTF-8 decoder of [buf.toString('utf8')]: a code point under
    construction, how many continuation bytes it still needs, and the range
    the next one must lie in. *)
Record dstate := { d_cp : Z; d_needed : Z; d_lower : Z; d_upper : Z }.

Definition d_init : dstate := {| d_cp := 0; d_needed := 0; d_lower := 0x80; d_upper := 0xBF |}.

(** A byte met while no code point is under construction. *)
Definition d_start (b : Z) : list Z * dstate :=
  if b <=? 0x7F then ([b], d_init)
  else if (0xC2 <=? b) && (b <=? 0xDF) then
    ([], {| d_cp := b - 0xC0; d_needed := 1; d_lower := 0x80; d_upper := 0xBF |})
  else if (0xE0 <=? b) && (b <=? 0xEF) then
    ([], {| d_cp := b - 0xE0; d_needed := 2;
            d_lower := if b =? 0xE0 then 0xA0 else 0x80;
            d_upper := if b =? 0xED then 0x9F else 0xBF |})
  else if (0xF0 <=? b) && (b <=? 0xF4) then
    ([], {| d_cp := b - 0xF0; d_needed := 3;
            d_lower := if b =? 0xF0 then 0x90 else 0x80;
            d_upper := if b =? 0xF4 then 0x8F else 0xBF |})
  else ([0xFFFD], d_init).

Definition d_step (st : dstate) (b : Z) : list Z * dstate :=
  if d_needed st =? 0 then d_start b
  else if (d_lower st <=? b) && (b <=? d_upper st) then
    let cp := d_cp st * 64 + (b - 0x80) in
    if d_needed st =? 1 then ([cp], d_init)
    else ([], {| d_cp := cp; d_needed := d_needed st - 1; d_lower := 0x80; d_upper := 0xBF |})
  else
    (* the sequence breaks off: one U+FFFD, and the byte is read afresh *)
    let '(out, st') := d_start b in (0xFFFD :: out, st').

Fixpoint utf8_run (st : dstate) (bs : list byte) : list Z :=
  match bs with
  | [] => if d_needed st =? 0 then [] else [0xFFFD]
  | b :: r => let '(out, st') := d_step st (b2z b) in out ++ utf8_run st' r
  end.

Definition utf16_of_code_point (cp : Z) : jstring :=
  if cp <? 0x10000 then [cp]
  else [0xD800 + (cp - 0x10000) / 0x400; 0xDC00 + (cp - 0x10000) mod 0x400].

(** [buf.toString('utf8')]. *)
Definition utf8_decode (bs : list byte) : jstring :=
  List.concat (List.map utf16_of_code_point (utf8_run d_init bs)).

(** The code units of a string of the [Chars] kind. *)
Fixpoint jstring_of (s : string) : jstring :=
  match s with
  | EmptyString => []
  | String c r => code c :: jstring_of r
  end.

End Bytes.

Module BytesTests.
Import Bytes.

Example hex_roundtrip_sample :
  hex_decode (hex_encode [z2b 0; z2b 171; z2b 255]) = [z2b 0; z2b 171; z2b 255].
Proof. vm_compute. reflexivity. Qed.

Example hex_encode_sample : hex_encode [z2b 0; z2b 171; z2b 255] = "00abff".
Proof. vm_compute. reflexivity. Qed.

Example hex_decode_mixed_case : hex_decode "AbfF0" = [z2b 171; z2b 255].
Proof. vm_compute. reflexivity. Qed.

Example utf8_euro : utf8_encode [0x20AC] = [z2b 0xE2; z2b 0x82; z2b 0xAC].
Proof. vm_compute. reflexivity. Qed.

Example utf8_pair : utf8_encode [0xD83D; 0xDE00] = [z2b 0xF0; z2b 0x9F; z2b 0x98; z2b 0x80].
Proof. vm_compute. reflexivity. Qed.

Example utf8_pair_back : utf8_decode [z2b 0xF0; z2b 0x9F; z2b 0x98; z2b 0x80] = [0xD83D; 0xDE00].
Proof. vm_compute. reflexivity. Qed.

Example utf8_lone_surrogate : utf8_encode [0xD800] = [z2b 0xEF; z2b 0xBF; z2b 0xBD].
Proof. vm_compute. reflexivity. Qed.

Example utf8_truncated : utf8_decode [z2b 0xE2; z2b 0x82] = [0xFFFD].
Proof. vm_compute. reflexivity. Qed.

End BytesTests.

(* ===================================================================== *)
(** ** AES-256 (FIPS 197), the block cipher behind ['aes-256-gcm'] *)
(* ===================================================================== *)

Module AES.
Import Bytes.

Definition zero : byte := z2b 0.

(** Multiplication by [x] in GF(2^8) modulo [x^8 + x^4 + x^3 + x + 1]. *)
Definition xtime (b : byte) : byte :=
  let z := b2z b in
  z2b (Z.lxor (2 * z) (if 128 <=? z then 0x11b else 0)).

Fixpoint gmul_loop (n : nat) (a b acc : byte) : byte :=
  match n with
  | O => acc
  | S k =>
      let acc' := if Z.odd (b2z b) then bxor acc a else acc in
      gmul_loop k (xtime a) (z2b (b2z b / 2)) acc'
  end.

Definition gmul (a b : byte) : byte := gmul_loop 8 a b zero.

Fixpoint gpow (n : nat) (a : byte) : byte :=
  match n with
  | O => z2b 1
  | S k => gmul a (gpow k a)
  end.

Definition rotl8 (z k : Z) : Z := Z.lor (Z.shiftl z k) (Z.shiftr z (8 - k)) mod 256.

(** The S-box: the inverse in GF(2^8) (0 for 0), then the affine map. *)
Definition sbox_calc (b : byte) : byte :=
  let i := b2z (gpow 254 b) in
  z2b (Z.lxor (Z.lxor (Z.lxor (Z.lxor (Z.lxor i (rotl8 i 1)) (rotl8 i 2)) (rotl8 i 3))
                      (rotl8 i 4)) 0x63).

Definition sbox_table : list byte :=
  Eval vm_compute in List.map (fun n => sbox_calc (z2b (Z.of_nat n))) (List.seq 0 256).

Definition sbox (b : byte) : byte := List.nth (Z.to_nat (b2z b)) sbox_table zero.

(** A word of the key schedule: four bytes. *)
Definition word : Type := byte * byte * byte * byte.

Definition word_bytes (w : word) : list byte :=
  [fst (fst (fst w)); snd (fst (fst w)); snd (fst w); snd w].

Definition sub_word (w : word) : word :=
  let '(a, b, c, d) := w in (sbox a, sbox b, sbox c, sbox d).
Definition rot_word (w : word) : word :=
  let '(a, b, c, d) := w in (b, c, d, a).
Definition xor_word (v w : word) : word :=
  let '(a, b, c, d) := v in
  let '(a', b', c', d') := w in (bxor a a', bxor b b', bxor c c', bxor d d').

Definition zero_word : word := (zero, zero, zero, zero).

Fixpoint rcon (j : nat) : byte :=
  match j with
  | O => z2b 1
  | S k => xtime (rcon k)
  end.

(** The next word of the AES-256 key schedule, [ws] holding words 0..i-1. *)
Definition next_word (ws : list word) (i : nat) : word :=
  let prev := List.nth (i - 1) ws zero_word in
  let temp :=
    if Nat.eqb (i mod 8) 0 then
      xor_word (sub_word (rot_word prev)) (rcon (i / 8 - 1), zero, zero, zero)
    else if Nat.eqb (i mod 8) 4 then sub_word prev
    else prev in
  xor_word (List.nth (i - 8) ws zero_word) temp.

Fixpoint expand (n : nat) (i : nat) (ws : list word) : list word :=
  match n with
  | O => ws
  | S k => expand k (S i) (ws ++ [next_word ws i])%list
  end.

Definition key_word (key : list byte) (i : nat) : word :=
  (List.nth (4 * i) key zero, List.nth (4 * i + 1) key zero,
   List.nth (4 * i + 2) key zero, List.nth (4 * i + 3) key zero).

(** The 60 words of the schedule of a 32-byte key. *)
Definition key_expansion (key : list byte) : list word :=
  expand 52 8 (List.map (key_word key) (List.seq 0 8)).

Definition round_key (ws : list word) (r : nat) : list byte :=
  List.concat (List.map (fun j => word_bytes (List.nth (4 * r + j) ws zero_word))
                        (List.seq 0 4)).

Fixpoint chunks4 (n : nat) (bs : list byte) : list (list byte) :=
  match n with
  | O => []
  | S k => List.firstn 4 bs :: chunks4 k (List.skipn 4 bs)
  end.

Definition sub_bytes (st : list byte) : list byte := List.map sbox st.

(** The state is kept in input order: byte [4c + r] is row [r], column [c]. *)
Definition shift_rows (st : list byte) : list byte :=
  List.map (fun i => List.nth (4 * ((i / 4 + i mod 4) mod 4) + i mod 4) st zero)
           (List.seq 0 16).

Definition mix_column (col : list byte) : list byte :=
  match col with
  | [a0; a1; a2; a3] =>
      let two := xtime in
      let three x := bxor (xtime x) x in
      [ bxor (bxor (two a0) (three a1)) (bxor a2 a3);
        bxor (bxor a0 (two a1)) (bxor (three a2) a3);
        bxor (bxor a0 a1) (bxor (two a2) (three a3));
        bxor (bxor (three a0) a1) (bxor a2 (two a3)) ]
  | _ => col
  end.

Definition mix_columns (st : list byte) : list byte :=
  List.concat (List.map mix_column (chunks4 4 st)).

Fixpoint rounds (n : nat) (r : nat) (ws : list word) (st : list byte) : list byte :=
  match n with
  | O => st
  | S k =>
      rounds k (S r) ws
        (xor_bytes (mix_columns (shift_rows (sub_bytes st))) (round_key ws r))
  end.

(** [Cipher] with Nr = 14. *)
Definition encrypt_block (key block : list byte) : list byte :=
  let ws := key_expansion key in
  let st := xor_bytes block (round_key ws 0) in
  let st := rounds 13 1 ws st in
  xor_bytes (shift_rows (sub_bytes st)) (round_key ws 14).

End AES.

Module AESTests.
Import Bytes AES.

Example sbox_00 : sbox (z2b 0) = z2b 0x63.
Proof. vm_compute. reflexivity. Qed.
Example sbox_53 : sbox (z2b 0x53) = z2b 0xed.
Proof. vm_compute. reflexivity. Qed.

(** FIPS 197, appendix C.3. *)
Example fips197_c3 :
  hex_encode (encrypt_block
                (hex_decode "000102030405060708090a0b0c0d0e0f101112131415161718191a1b1c1d1e1f")
                (hex_decode "00112233445566778899aabbccddeeff"))
  = "8ea2b7ca516745bfeafc49904b496089".
Proof. vm_compute. reflexivity. Qed.

End AESTests.

(* ===================================================================== *)
(** ** Galois/Counter Mode (NIST SP 800-38D) *)
(* ===================================================================== *)

Module GCM.
Import Bytes.

Fixpoint z_of_bytes (acc : Z) (bs : list byte) : Z :=
  match bs with
  | [] => acc
  | b :: r => z_of_bytes (256 * acc + b2z b) r
  end.

(** The big-endian bytes of a number, [n] of them. *)
Definition bytes_of_z (n : nat) (z : Z) : list byte :=
  List.map (fun i => z2b (Z.shiftr z (8 * Z.of_nat (n - 1 - i)))) (List.seq 0 n).

Definition pad16 (bs : list byte) : list byte :=
  List.firstn 16 (bs ++ List.repeat AES.zero 16)%list.

(** A 128-bit block as a number, the first byte the most significant. *)
Definition block_of (bs : list byte) : Z := z_of_bytes 0 (pad16 bs).
Definition bytes_of_block (z : Z) : list byte := bytes_of_z 16 z.

Definition R : Z := Z.shiftl 0xE1 120.

(** Multiplication in GF(2^128), bit 0 of a block being its leftmost. *)
Fixpoint gf_loop (n : nat) (x v z : Z) (i : Z) : Z :=
  match n with
  | O => z
  | S k =>
      let z' := if Z.testbit x i then Z.lxor z v else z in
      let v' := if Z.odd v then Z.lxor (Z.shiftr v 1) R else Z.shiftr v 1 in
      gf_loop k x v' z' (i - 1)
  end.

Definition gf_mul (x y : Z) : Z := gf_loop 128 x y 0 127.

Definition chunk_count (bs : list byte) : nat := (List.length bs + 15) / 16.

Fixpoint blocks (n : nat) (bs : list byte) : list Z :=
  match n with
  | O => []
  | S k => block_of (List.firstn 16 bs) :: blocks k (List.skipn 16 bs)
  end.

Definition len_block (a c : list byte) : Z :=
  Z.shiftl (8 * Z.of_nat (List.length a)) 64 + 8 * Z.of_nat (List.length c).

(** GHASH over the padded data [a], the padded text [c] and their lengths. *)
Definition ghash (h : Z) (a c : list byte) : Z :=
  List.fold_left (fun y x => gf_mul (Z.lxor y x) h)
                 (blocks (chunk_count a) a ++ blocks (chunk_count c) c ++ [len_block a c])%list
                 0.

Definition inc32 (z : Z) : Z :=
  (z / 2 ^ 32) * 2 ^ 32 + (z mod 2 ^ 32 + 1) mod 2 ^ 32.

Section Mode.

(** The block cipher under its key. *)
Variable E : list byte -> list byte.

Definition hash_key : Z := block_of (E (bytes_of_block 0)).

(** The pre-counter block: a 96-bit IV is used as it is, any other length
    is hashed. *)
Definition j0 (iv : list byte) : Z :=
  if Nat.eqb (List.length iv) 12 then block_of iv + 1
  else ghash hash_key [] iv.

Fixpoint gctr (n : nat) (ctr : Z) (bs : list byte) : list byte :=
  match n with
  | O => []
  | S k =>
      (xor_bytes (List.firstn 16 bs) (E (bytes_of_block ctr))
       ++ gctr k (inc32 ctr) (List.skipn 16 bs))%list
  end.

Definition ctr_crypt (iv bs : list byte) : list byte :=
  gctr (chunk_count bs) (inc32 (j0 iv)) bs.

(** The full 16-byte tag of a ciphertext under an IV. *)
Definition tag_of (iv aad ct : list byte) : list byte :=
  xor_bytes (bytes_of_block (ghash hash_key aad ct)) (E (bytes_of_block (j0 iv))).

Definition seal (iv pt : list byte) : list byte * list byte :=
  let ct := ctr_crypt iv pt in (ct, tag_of iv [] ct).

End Mode.

End GCM.

Module GCMTests.
Import Bytes GCM.

Definition zero_key : list byte := List.repeat AES.zero 32.

(** Test cases 13 and 14 of the GCM specification (AES-256, zero key,
    96-bit zero IV). *)
Example gcm_case13 :
  hex_encode (snd (seal (AES.encrypt_block zero_key) (List.repeat AES.zero 12) []))
  = "530f8afbc74536b9a963b4f1c4cb738b".
Proof. vm_compute. reflexivity. Qed.

Example gcm_case14 :
  seal (AES.encrypt_block zero_key) (List.repeat AES.zero 12) (List.repeat AES.zero 16)
  = (hex_decode "cea7403d4d606b6e074ec5d3baf39d18",
     hex_decode "d0d1c8a799996bf0265b98b5d48ab919").
Proof. vm_compute. reflexivity. Qed.

End GCMTests.

(* ===================================================================== *)
(** ** The key vault: [encrypt] and [decrypt] *)
(* ===================================================================== *)

Module Vault.
Import Chars Bytes Js.

(** What [encrypt] returns and the wallet store keeps: three hex strings. *)
Record EncryptedKey := { iv : string; content : string; tag : string }.

Definition IV_LENGTH : nat := 16.

(** The start-up check on [WALLET_ENC_KEY]: 64 hexadecimal characters. *)
Definition valid_WALLET_ENC_KEY (s : string) : bool :=
  Nat.eqb (str_len s) 64 && all_chars is_hex s.

Fixpoint bytes_eqb (a b : list byte) : bool :=
  match a, b with
  | [], [] => true
  | x :: a', y :: b' => Ascii.eqb x y && bytes_eqb a' b'
  | _, _ => false
  end.

(** The tag lengths [decipher.setAuthTag] accepts for GCM when the
    decipher was created without [authTagLength]. *)
Definition valid_tag_length (n : nat) : bool :=
  Nat.eqb n 4 || Nat.eqb n 8 || (Nat.leb 12 n && Nat.leb n 16).

Section WithKey.

(** [ENCRYPTION_KEY], the 32 bytes of [WALLET_ENC_KEY]. *)
Variable ENCRYPTION_KEY : list byte.

(** [encrypt(text)]; [iv] is what [crypto.randomBytes(IV_LENGTH)] drew. *)
Definition encrypt (iv : list byte) (text : jstring) : EncryptedKey :=
  let '(encrypted, authTag) :=
    GCM.seal (AES.encrypt_block ENCRYPTION_KEY) iv (utf8_encode text) in
  {| iv := hex_encode iv; content := hex_encode encrypted; tag := hex_encode authTag |}.

(** Whether [final()] accepts: the supplied tag equals the computed tag cut
    to the supplied length. *)
Definition tag_verifies (ivb ct tg : list byte) : bool :=
  bytes_eqb tg (List.firstn (List.length tg)
                            (GCM.tag_of (AES.encrypt_block ENCRYPTION_KEY) ivb [] ct)).

(** [decrypt(encrypted)]: [createDecipheriv] refuses an empty IV,
    [setAuthTag] a tag of a length GCM does not allow, and [final] a tag that
    does not verify; the text decoded by [update] is returned only after
    [final] has accepted. *)
Definition decrypt (encrypted : EncryptedKey) : Outcome jstring :=
  let ivb := hex_decode (iv encrypted) in
  if Nat.eqb (List.length ivb) 0 then Throw "Invalid initialization vector"
  else
    let tg := hex_decode (tag encrypted) in
    if negb (valid_tag_length (List.length tg)) then
      Throw ("Invalid authentication tag length: " ++ dec_of_Z (Z.of_nat (List.length tg)))
    else
      let ct := hex_decode (content encrypted) in
      let decrypted := utf8_decode (GCM.ctr_crypt (AES.encrypt_block ENCRYPTION_KEY) ivb ct) in
      if tag_verifies ivb ct tg then Ok decrypted
      else Throw "Unsupported state or unable to authenticate data".

End WithKey.

End Vault.

Module VaultTests.
Import Bytes Js Vault.

Definition sample_key : list byte :=
  hex_decode "000102030405060708090a0b0c0d0e0f101112131415161718191a1b1c1d1e1f".
Definition sample_iv : list byte := hex_decode "000102030405060708090a0b0c0d0e0f".
Definition sample_text : jstring :=
  jstring_of "0x0123456789abcdef0123456789abcdef0123456789abcdef0123456789abcdef".

(** Checked against OpenSSL's AES-256-GCM with a 16-byte IV. *)
Example encrypt_sample :
  encrypt sample_key sample_iv sample_text
  = {| iv := "000102030405060708090a0b0c0d0e0f";
       content := "571490470bd77e1dabc8e31034c64fd731d55b9055bee776720975ecef9bafae0d19b9c54f73e4fbd41e0e6f8054861632167a6bbe2774b4968a9e22804921e2768d";
       tag := "0d75026e7a038b77bdf2867ac7f2c903" |}.
Proof. vm_compute. reflexivity. Qed.

Example decrypt_sample :
  decrypt sample_key (encrypt sample_key sample_iv sample_text) = Ok sample_text.
Proof. vm_compute. reflexivity. Qed.

Example decrypt_flipped_tag :
  decrypt sample_key
    {| iv := "000102030405060708090a0b0c0d0e0f";
       content := "571490470bd77e1dabc8e31034c64fd731d55b9055bee776720975ecef9bafae0d19b9c54f73e4fbd41e0e6f8054861632167a6bbe2774b4968a9e22804921e2768d";
       tag := "0c75026e7a038b77bdf2867ac7f2c903" |}
  = Throw "Unsupported state or unable to authenticate data".
Proof. vm_compute. reflexivity. Qed.

End VaultTests.

(* ===================================================================== *)
(** ** The middleware: data, world and monad *)
(* ===================================================================== *)

Module App.
Import Chars Js Bytes.
Export Js.

(** *** Data *)

Inductive TxType := TSend | TReceive | TFaucet.
Inductive Direction := Inbound | Outbound.
Inductive Status := Pending | Submitted | Completed | Failed.

(** The body of a [create_full] request. *)
Record Payload := {
  transaction_id : string;
  wallet_address : JsVal;
  from_address : JsVal;
  to_address : JsVal;
  amount : JsVal;
  currency_symbol : string;
  transaction_type : TxType;
  direction : Direction;
  status : Status;
  memo : JsVal;
  network_mode : string
}.

Record Receipt := {
  transactionHash : string;
  receipt_status : bool;
  blockNumber : JsVal;
  blockHash : JsVal;
  transactionIndex : JsVal;
  gasUsed : JsVal
}.

Record TxObject := {
  tx_nonce : Z;
  tx_to : JsVal;
  tx_value : Z;
  tx_gasLimit : Z;
  tx_gasPrice : Z
}.

(** [signedTx.rawTransaction]: the transaction and the key that signed it
    (the byte encoding is not modelled). *)
Record SignedTx := { raw_tx : TxObject; raw_signer : jstring }.

(** What [fetch] followed by reading the body gives. *)
Record HttpResponse := {
  resp_ok : bool;
  resp_status : Z;
  resp_statusText : string;
  resp_text : string;
  resp_json : Outcome JsVal   (* [Throw]: the body is not JSON *)
}.

Inductive FetchResult :=
| Rejected (msg : string)
| Responded (r : HttpResponse).

(** One record per user id in [wallet-store.json]. *)
Record WalletData := {
  encryptedKey : Vault.EncryptedKey;
  address : string;
  createdAt : Z;
  userName : JsVal
}.

(** One record per address in [funded-wallets.json]. *)
Record FundedEntry := { funded : bool; timestamp : Z }.

(** A JSON file on disk: absent, unreadable (not JSON), or holding a value. *)
Inductive File (A : Type) :=
| Absent
| Unreadable
| Stored (a : A).
Arguments Absent {A}.
Arguments Unreadable {A}.
Arguments Stored {A} a.

(** The detached settlement watchers: the closures of the two kinds of
    [(async () => { ... })()] the handlers start. *)
Record DualRecord := { rec_type : string; rec_result : JsVal; rec_payload : Payload }.

Inductive Monitor :=
| WatchPayment (dualRecords : list DualRecord) (txHash : string)
| WatchFaucet (transactionId : string) (transaction_db_id : JsVal) (txHash : string).

(** Every interaction with the outside, in the order it happens. *)
Inductive Event :=
(* PHP backend *)
| EmailLookup (email : JsVal)
| CreateTransaction (payload : Payload)
| UpdateTransaction (txHash : string) (st : Status) (extra : list (string * JsVal))
| MapUserToWallet (userId : JsVal) (walletAddress : string)
(* chain node *)
| GetBalance (addr : JsVal)
| GetTransactionCount (addr : JsVal)
| GetGasPrice
| SignTransaction (tx : TxObject)
| SendSignedTransaction (raw : SignedTx)
| SendPaymentToWallet (toWallet : JsVal) (value : Z)
| GetTransactionReceipt (txHash : string)
| GetBlock (blockNumber : JsVal)
(* the process itself *)
| RandomBytes (n : nat)
| MathRandom
| WriteFunded
| WriteWallets
| SetTimeout (ms : Z).

Definition is_backend_call (e : Event) : bool :=
  match e with
  | EmailLookup _ | CreateTransaction _ | UpdateTransaction _ _ _ | MapUserToWallet _ _ => true
  | _ => false
  end.

Definition is_record_creation (e : Event) : bool :=
  match e with
  | CreateTransaction _ => true
  | _ => false
  end.

Definition is_chain_call (e : Event) : bool :=
  match e with
  | GetBalance _ | GetTransactionCount _ | GetGasPrice | SignTransaction _
  | SendSignedTransaction _ | SendPaymentToWallet _ _
  | GetTransactionReceipt _ | GetBlock _ => true
  | _ => false
  end.

Definition is_broadcast (e : Event) : bool :=
  match e with
  | SendSignedTransaction _ | SendPaymentToWallet _ _ => true
  | _ => false
  end.

(** *** The environment

    Whatever the backend, the chain node, the disk and the random source
    answer is a function of the call and of everything that happened before
    it; the engine's and the libraries' functions that are not modelled are
    fields as well. *)
Record Oracle := {
  (* engine and libraries *)
  number_to_string : float -> string;
  checkAddressChecksum : string -> bool;
  address_of_key : string -> string;           (* privateKeyToAccount(k).address *)
  (* configuration *)
  ENCRYPTION_KEY : list byte;
  NETWORK_MODE : string;                       (* process.env.NETWORK_MODE || 'local' *)
  deployer : string;
  (* random source, clock, disk *)
  random_bytes : list Event -> nat -> list byte;
  random_suffix : list Event -> string;        (* Math.random().toString(36).substr(2, 9) *)
  latency : list Event -> N;                   (* how long the latest call took, in ms *)
  write_fails : list Event -> option string;   (* the message writeFileSync throws *)
  (* PHP backend *)
  email_reply : list Event -> JsVal -> Outcome JsVal;
  create_reply : list Event -> Payload -> FetchResult;
  update_reply : list Event -> string -> Status -> list (string * JsVal) -> FetchResult;
  map_reply : list Event -> JsVal -> string -> Outcome JsVal;
  (* chain node *)
  balance_reply : list Event -> JsVal -> Outcome N;
  count_reply : list Event -> JsVal -> Outcome Z;
  gas_price_reply : list Event -> Outcome Z;
  sign_reply : list Event -> TxObject -> jstring -> option string;
  send_reply : list Event -> SignedTx -> Outcome Receipt;
  faucet_reply : list Event -> JsVal -> Z -> Outcome Receipt;
  receipt_reply : list Event -> string -> Outcome (option Receipt);
  block_reply : list Event -> JsVal -> Outcome JsVal
}.

(** *** The world a handler runs in *)
Record World := {
  trace : list Event;
  now : Z;                                               (* Date.now() *)
  funded_file : File (gmap string FundedEntry);          (* funded-wallets.json *)
  wallet_file : File (list (string * WalletData));       (* wallet-store.json *)
  spawned : list (Z * Monitor)                           (* watchers started, with their start time *)
}.

Definition M (A : Type) : Type := World -> Outcome A * World.

#[global] Instance M_ret : MRet M := fun A a w => (Ok a, w).
#[global] Instance M_bind : MBind M := fun A B f m w =>
  match m w with
  | (Ok a, w') => f a w'
  | (Throw msg, w') => (Throw msg, w')
  end.

Definition throw {A} (msg : string) : M A := fun w => (Throw msg, w).

(** A pure computation that may throw. *)
Definition lift {A} (o : Outcome A) : M A := fun w => (o, w).

(** [try { body } catch (err) { handler(err.message) }]. *)
Definition try_catch {A} (body : M A) (handler : string -> M A) : M A := fun w =>
  match body w with
  | (Ok a, w') => (Ok a, w')
  | (Throw msg, w') => handler msg w'
  end.

Definition get_world : M World := fun w => (Ok w, w).
Definition put_world (w' : World) : M unit := fun _ => (Ok tt, w').

Section WithOracle.

Variable env : Oracle.

(** Log a call; the clock moves by the time it took. *)
Definition log (e : Event) (w : World) : World :=
  {| trace := (trace w ++ [e])%list;
     now := now w + Z.of_N (latency env (trace w ++ [e])%list);
     funded_file := funded_file w;
     wallet_file := wallet_file w;
     spawned := spawned w |}.

Definition advance (ms : Z) (w : World) : World :=
  {| trace := trace w; now := now w + ms;
     funded_file := funded_file w; wallet_file := wallet_file w; spawned := spawned w |}.

Definition set_funded (f : File (gmap string FundedEntry)) (w : World) : World :=
  {| trace := trace w; now := now w;
     funded_file := f; wallet_file := wallet_file w; spawned := spawned w |}.

Definition set_wallets (f : File (list (string * WalletData))) (w : World) : World :=
  {| trace := trace w; now := now w;
     funded_file := funded_file w; wallet_file := f; spawned := spawned w |}.

Definition add_spawned (m : Monitor) (w : World) : World :=
  {| trace := trace w; now := now w;
     funded_file := funded_file w; wallet_file := wallet_file w;
     spawned := (spawned w ++ [(now w, m)])%list |}.

Definition emit (e : Event) : M unit := fun w => (Ok tt, log e w).

(** An awaited call: logged, and answered from the history before it. *)
Definition await {A} (e : Event) (reply : list Event -> Outcome A) : M A := fun w =>
  (reply (trace w), log e w).

Definition Date_now : M Z := fun w => (Ok (now w), w).

(** [setTimeout(r, ms)] awaited: Node runs a timer of less than 1 ms or more
    than 2^31-1 ms after 1 ms. *)
Definition timer_delay (ms : Z) : Z :=
  if (ms <? 1) || (2147483647 <? ms) then 1 else ms.

Definition sleep (ms : Z) : M unit := fun w =>
  (Ok tt, advance (timer_delay ms) (log (SetTimeout ms) w)).

(** Start a detached watcher. *)
Definition spawn (m : Monitor) : M unit := fun w => (Ok tt, add_spawned m w).

Definition ToString (v : JsVal) : string := to_string (number_to_string env) v.
Definition parseFloat (v : JsVal) : float := Js.parseFloat (number_to_string env) v.

(** [web3.utils.isAddress(v)]: the pattern is tested on [ToString(v)]. *)
Definition isAddress (v : JsVal) : bool :=
  Web3Utils.isAddress_string (checkAddressChecksum env) (ToString v).

(** A JavaScript number holding a non-negative integer. *)
Definition js_int (z : Z) : JsVal := VNum (Num.of_decimal false z 0).

Definition obj (fields : list (string * JsVal)) : JsVal := VObj fields.

(** *** The two JSON files *)

Definition loadFundedWallets : M (gmap string FundedEntry) := fun w =>
  match funded_file w with
  | Stored m => (Ok m, w)
  | Absent | Unreadable => (Ok ∅, w)
  end.

(** [writeFileSync] in a [try]: a failure is logged and nothing is stored. *)
Definition saveFundedWallets (fundedWallets : gmap string FundedEntry) : M unit := fun w =>
  (Ok tt, match write_fails env (trace w) with
          | None => set_funded (Stored fundedWallets) (log WriteFunded w)
          | Some _ => log WriteFunded w
          end).

Definition markWalletFunded (walletAddress : JsVal) : M unit :=
  fundedWallets ← loadFundedWallets;
  t ← Date_now;
  saveFundedWallets (<[ToString walletAddress := {| funded := true; timestamp := t |}]> fundedWallets).

Definition isWalletEligibleForBonus (walletAddress : JsVal) : M bool :=
  fundedWallets ← loadFundedWallets;
  mret (match fundedWallets !! ToString walletAddress with
        | None => true
        | Some e => negb (funded e)
        end).

Definition loadWalletStore : M (list (string * WalletData)) := fun w =>
  match wallet_file w with
  | Stored s => (Ok s, w)
  | Absent | Unreadable => (Ok [], w)
  end.

Definition saveWalletStore (store : list (string * WalletData)) : M unit := fun w =>
  (Ok tt, match write_fails env (trace w) with
          | None => set_wallets (Stored store) (log WriteWallets w)
          | Some _ => log WriteWallets w
          end).






(** *** Calls to the PHP backend *)

(** [a && b && c] on the reply of the lookup. *)
Definition getWalletByEmail (email : JsVal) : M JsVal :=
  data ← await (EmailLookup email) (fun tr => email_reply env tr email);
  success ← lift (get_prop data "success");
  let not_found := throw ("Wallet not found for email: " ++ ToString email) in
  if negb (truthy success) then not_found
  else
    user ← lift (get_prop data "user");
    if negb (truthy user) then not_found
    else
      wallet_address ← lift (get_prop user "wallet_address");
      if truthy wallet_address then mret wallet_address else not_found.

Definition failure (msg : string) : JsVal :=
  obj [("success", VBool false); ("error", VStr msg)].

Definition http_error (r : HttpResponse) : string :=
  "HTTP " ++ dec_of_Z (resp_status r) ++ ": " ++ resp_statusText r.

(** What [updateTransactionStatusPHP] makes of the backend's answer; the
    whole body is a [try], so nothing is thrown to the caller. *)
Definition update_result (res : FetchResult) : JsVal :=
  match res with
  | Rejected msg => failure msg
  | Responded r =>
      if negb (resp_ok r) then failure (http_error r ++ " - " ++ resp_text r)
      else match resp_json r with
           | Ok result => result
           | Throw _ =>
               obj [("success", VBool false);
                    ("error", VStr ("Invalid JSON response: "
                                    ++ substring 0 200 (resp_text r) ++ "..."));
                    ("http_status", js_int (resp_status r))]
           end
  end.

Definition updateTransactionStatusPHP (txHash : string) (st : Status)
    (extra : list (string * JsVal)) : M JsVal :=
  res ← await (UpdateTransaction txHash st extra)
              (fun tr => Ok (update_reply env tr txHash st extra));
  mret (update_result res).

(** What [createTransactionPHP] makes of the backend's answer. *)
Definition create_result (res : FetchResult) : JsVal :=
  match res with
  | Rejected msg => failure msg
  | Responded r =>
      if negb (resp_ok r) then failure (http_error r)
      else match resp_json r with
           | Ok result => result
           | Throw msg => failure msg
           end
  end.

Definition createTransactionPHP (payload : Payload) : M JsVal :=
  res ← await (CreateTransaction payload) (fun tr => Ok (create_reply env tr payload));
  mret (create_result res).

Definition mapUserToWallet (userId : JsVal) (walletAddress : string) : M JsVal :=
  await (MapUserToWallet userId walletAddress) (fun tr => map_reply env tr userId walletAddress).

Definition dual_payload (suffix : string) (owner senderWallet receiverWallet amount memo : JsVal)
    (ty : TxType) (dir : Direction) (transactionId : string) : Payload :=
  {| transaction_id := transactionId ++ suffix;
     wallet_address := owner;
     from_address := senderWallet;
     to_address := receiverWallet;
     amount := amount;
     currency_symbol := "ETH";
     transaction_type := ty;
     direction := dir;
     status := Pending;
     memo := memo;
     network_mode := NETWORK_MODE env |}.

(** The sender's record, then the receiver's; a record is kept when the
    backend answered [success]. Reading [success] off a [null] answer throws
    inside the [try], whose [catch] returns the records kept so far. *)
Definition createDualTransactionRecords (senderWallet receiverWallet amount : JsVal)
    (paymentType : string) (memo : JsVal) (transactionId : string) : M (list DualRecord) :=
  let senderPayload :=
    dual_payload "_sender" senderWallet senderWallet receiverWallet amount memo
                 TSend Outbound transactionId in
  let receiverPayload :=
    dual_payload "_receiver" receiverWallet senderWallet receiverWallet amount memo
                 TReceive Inbound transactionId in
  senderResult ← createTransactionPHP senderPayload;
  match get_prop senderResult "success" with
  | Throw _ => mret []
  | Ok s1 =>
      let records :=
        if truthy s1
        then [{| rec_type := "sender"; rec_result := senderResult; rec_payload := senderPayload |}]
        else [] in
      receiverResult ← createTransactionPHP receiverPayload;
      match get_prop receiverResult "success" with
      | Throw _ => mret records
      | Ok s2 =>
          mret (if truthy s2
                then (records ++ [{| rec_type := "receiver"; rec_result := receiverResult;
                                     rec_payload := receiverPayload |}])%list
                else records)
      end
  end.

(** One update per record, each in its own [try]. *)
Fixpoint updateDualTransactionStatus (records : list DualRecord) (txHash : string)
    (st : Status) (extra : list (string * JsVal)) : M (list (string * JsVal)) :=
  match records with
  | [] => mret []
  | record :: rest =>
      u ← try_catch
            (db_id ← lift (get_prop (rec_result record) "transaction_db_id");
             updateResult ← updateTransactionStatusPHP txHash st
               ([("transaction_id", VStr (transaction_id (rec_payload record)));
                 ("transaction_db_id", db_id)] ++ extra)%list;
             success ← lift (get_prop updateResult "success");
             mret (rec_type record, success))
            (fun _ => mret (rec_type record, VBool false));
      us ← updateDualTransactionStatus rest txHash st extra;
      mret (u :: us)
  end.

(** *** The settlement watcher *)

(** The loop of [waitForReceipt]; [None] only when [fuel] ran out before
    the loop ended. *)
Fixpoint wait_loop (fuel : nat) (start : Z) (txHash : string) (timeoutMs pollInterval : Z)
  : M (option Receipt) :=
  t ← Date_now;
  if t - start <? timeoutMs then
    match fuel with
    | 0%nat => mret None
    | S fuel' =>
        receipt ← await (GetTransactionReceipt txHash) (fun tr => receipt_reply env tr txHash);
        match receipt with
        | Some r => mret (Some r)
        | None => _ ← sleep pollInterval; wait_loop fuel' start txHash timeoutMs pollInterval
        end
    end
  else throw "Timeout waiting for transaction receipt".

(** [waitForReceipt(txHash, timeoutMs, pollInterval)], started at [start];
    every turn of the loop takes at least a millisecond, so [timeoutMs]
    turns are enough. *)
Definition waitForReceipt_from (start : Z) (txHash : string) (timeoutMs pollInterval : Z)
  : M (option Receipt) :=
  wait_loop (Z.to_nat timeoutMs) start txHash timeoutMs pollInterval.

Definition waitForReceipt (txHash : string) (timeoutMs pollInterval : Z) : M (option Receipt) :=
  start ← Date_now;
  waitForReceipt_from start txHash timeoutMs pollInterval.

Definition default_timeoutMs : Z := 120000.
Definition default_pollInterval : Z := 2000.

Definition status_of_receipt (receipt : Receipt) : Status :=
  if receipt_status receipt then Completed else Failed.

(** The fields of the final update after a receipt. *)
Definition settlement_fields (receipt : Receipt) (block : JsVal) (timestamp : JsVal)
  : list (string * JsVal) :=
  [("block_number", blockNumber receipt);
   ("block_hash", blockHash receipt);
   ("transaction_index", transactionIndex receipt);
   ("gas_used", gasUsed receipt);
   ("blockchain_timestamp", if truthy block then timestamp else VNull);
   ("error_message", if receipt_status receipt then VNull
                     else VStr "Transaction failed on blockchain")].

(** The [try] part of a watcher, up to the final update [finish]. *)
Definition watch (start : Z) (txHash : string)
    (finish : Status -> list (string * JsVal) -> M unit) : M (option unit) :=
  r ← waitForReceipt_from start txHash default_timeoutMs default_pollInterval;
  match r with
  | None => mret None
  | Some receipt =>
      block ← await (GetBlock (blockNumber receipt))
                    (fun tr => block_reply env tr (blockNumber receipt));
      timestamp ← (if truthy block then lift (get_prop block "timestamp") else mret VNull);
      _ ← finish (status_of_receipt receipt) (settlement_fields receipt block timestamp);
      mret (Some tt)
  end.

(** A detached watcher, run to its end: [Some tt] when it finished. *)
Definition run_monitor (start : Z) (m : Monitor) : M (option unit) :=
  match m with
  | WatchPayment dualRecords txHash =>
      try_catch
        (watch start txHash
               (fun st extra => _ ← updateDualTransactionStatus dualRecords txHash st extra;
                                mret tt))
        (fun msg =>
           _ ← updateDualTransactionStatus dualRecords txHash Failed
                 [("error_message", VStr msg)];
           mret (Some tt))
  | WatchFaucet transactionId db_id txHash =>
      try_catch
        (watch start txHash
               (fun st extra =>
                  _ ← updateTransactionStatusPHP txHash st
                        ([("transaction_id", VStr transactionId);
                          ("transaction_db_id", db_id)] ++ extra)%list;
                  mret tt))
        (fun msg =>
           _ ← updateTransactionStatusPHP txHash Failed
                 [("transaction_id", VStr transactionId);
                  ("transaction_db_id", db_id);
                  ("error_message", VStr msg)];
           mret (Some tt))
  end.

(** *** Signing keys and submission *)

(** The [for ... of Object.entries(walletStore)] loop. *)
Fixpoint scan_wallets (entries : list (string * WalletData)) (walletAddress : JsVal)
  : Outcome jstring :=
  match entries with
  | [] => Throw ("Private key not found for wallet: " ++ ToString walletAddress)
  | (userId, walletData) :: rest =>
      match to_lower walletAddress with
      | Throw msg => Throw msg
      | Ok wanted =>
          if String.eqb (toLowerCase (address walletData)) wanted
          then Vault.decrypt (ENCRYPTION_KEY env) (encryptedKey walletData)
          else scan_wallets rest walletAddress
      end
  end.

Definition getPrivateKeyForWallet (walletAddress : JsVal) : M jstring :=
  walletStore ← loadWalletStore;
  lift (scan_wallets walletStore walletAddress).

(** The stretches of [sendTransactionWithPrivateKey] between two [await]s. *)
Definition stx_nonce (fromWallet : JsVal) : M (jstring * Z) :=
  privateKey ← getPrivateKeyForWallet fromWallet;
  nonce ← await (GetTransactionCount fromWallet) (fun tr => count_reply env tr fromWallet);
  mret (privateKey, nonce).

Definition stx_gas_price : M Z :=
  await GetGasPrice (fun tr => gas_price_reply env tr).

Definition stx_sign (txObject : TxObject) (privateKey : jstring) : M SignedTx :=
  await (SignTransaction txObject)
        (fun tr => match sign_reply env tr txObject privateKey with
                   | Some msg => Throw msg
                   | None => Ok {| raw_tx := txObject; raw_signer := privateKey |}
                   end).

Definition stx_send (signedTx : SignedTx) : M Receipt :=
  await (SendSignedTransaction signedTx) (fun tr => send_reply env tr signedTx).

Definition default_gasLimit : Z := 200000.

(** The [catch] only logs and throws the error again. *)
Definition sendTransactionWithPrivateKey (fromWallet toWallet : JsVal) (amountWei gasLimit : Z)
  : M Receipt :=
  '(privateKey, nonce) ← stx_nonce fromWallet;
  gasPrice ← stx_gas_price;
  signedTx ← stx_sign {| tx_nonce := nonce; tx_to := toWallet; tx_value := amountWei;
                         tx_gasLimit := gasLimit; tx_gasPrice := gasPrice |} privateKey;
  stx_send signedTx.

(** *** The HTTP handlers *)

Record Response := { code : Z; body : list (string * JsVal) }.

(** [res.status(c).json(o)], and [res.json(o)] with status 200. *)
Definition reply (c : Z) (o : list (string * JsVal)) : M Response :=
  mret {| code := c; body := o |}.

Definition bad_request (msg : string) : M Response := reply 400 [("error", VStr msg)].

Definition server_error (msg : string) : M Response :=
  reply 500 [("success", VBool false); ("error", VStr msg)].

(** [`${prefix}_${Date.now()}_${Math.random().toString(36).substr(2, 9)}`]. *)
Definition fresh_id (prefix : string) : M string :=
  t ← Date_now;
  r ← await MathRandom (fun tr => Ok (random_suffix env tr));
  mret (prefix ++ "_" ++ dec_of_Z t ++ "_" ++ r).

Definition fix_length (n : nat) (bs : list byte) : list byte :=
  List.firstn n (bs ++ List.repeat AES.zero n)%list.

(** [crypto.randomBytes(n)]. *)
Definition randomBytes (n : nat) : M (list byte) :=
  await (RandomBytes n) (fun tr => Ok (fix_length n (random_bytes env tr n))).


(** [POST /payment/faucet]. *)
Definition faucet (req_body : JsVal) : M Response :=
  try_catch
    (toWallet ← lift (get_prop req_body "toWallet");
     amountEth ← lift (get_prop req_body "amountEth");
     if negb (truthy toWallet) || negb (truthy amountEth) then
       bad_request "toWallet and amountEth are required"
     else if negb (isAddress toWallet) then
       bad_request "Invalid wallet address format"
     else if PrimFloat.leb (parseFloat amountEth) 0 then
       bad_request "Amount must be greater than 0"
     else if PrimFloat.ltb 100 (parseFloat amountEth) then
       bad_request "Faucet amount cannot exceed 100 ETH"
     else
       eligible ← isWalletEligibleForBonus toWallet;
       if negb eligible then
         reply 429 [("error", VStr "Wallet has already received faucet funding");
                    ("eligible", VBool false)]
       else
         transactionId ← fresh_id "faucet";
         createResult ← createTransactionPHP
           {| transaction_id := transactionId;
              wallet_address := toWallet;
              from_address := VStr (deployer env);
              to_address := toWallet;
              amount := amountEth;
              currency_symbol := "ETH";
              transaction_type := TFaucet;
              direction := Inbound;
              status := Pending;
              memo := VStr "Faucet funding";
              network_mode := NETWORK_MODE env |};
         success ← lift (get_prop createResult "success");
         if negb (truthy success) then
           error ← lift (get_prop createResult "error");
           throw ("Failed to create transaction record: " ++ ToString error)
         else
           db_id ← lift (get_prop createResult "transaction_db_id");
           amountWei ← lift (Web3Utils.toWei (ToString amountEth));
           tx ← await (SendPaymentToWallet toWallet amountWei)
                      (fun tr => faucet_reply env tr toWallet amountWei);
           _ ← markWalletFunded toWallet;
           _ ← updateTransactionStatusPHP (transactionHash tx) Submitted
                 [("transaction_id", VStr transactionId); ("transaction_db_id", db_id)];
           _ ← spawn (WatchFaucet transactionId db_id (transactionHash tx));
           reply 200 [("success", VBool true);
                      ("transaction_id", VStr transactionId);
                      ("txHash", VStr (transactionHash tx));
                      ("status", VStr "submitted");
                      ("message", VStr "Faucet funding submitted successfully");
                      ("amount", amountEth)])
    server_error.


(** What the two payment handlers share once both wallets are known and
    told apart: balance check, records, submission, first update, watcher. *)
Definition pay (prefix : string) (fromWallet toWallet amountEth memo : JsVal)
    (paymentType : string) (message : string) (echo : list (string * JsVal)) : M Response :=
  senderBalance ← await (GetBalance fromWallet) (fun tr => balance_reply env tr fromWallet);
  let senderBalanceEth := Num.parseFloat_string (Web3Utils.fromWei (Z.of_N senderBalance)) in
  let amountFloat := parseFloat amountEth in
  if PrimFloat.ltb senderBalanceEth amountFloat then
    reply 400 [("error", VStr "Insufficient balance");
               ("available", VStr (number_to_string env senderBalanceEth));
               ("required", VStr (number_to_string env amountFloat))]
  else
    transactionId ← fresh_id prefix;
    dualRecords ← createDualTransactionRecords fromWallet toWallet amountEth
                    paymentType memo transactionId;
    if Nat.eqb (List.length dualRecords) 0 then
      throw "Failed to create transaction records"
    else
      amountWei ← lift (Web3Utils.toWei (ToString amountEth));
      tx ← sendTransactionWithPrivateKey fromWallet toWallet amountWei default_gasLimit;
      _ ← updateDualTransactionStatus dualRecords (transactionHash tx) Submitted [];
      _ ← spawn (WatchPayment dualRecords (transactionHash tx));
      reply 200 ([("success", VBool true);
                  ("transaction_id", VStr transactionId);
                  ("txHash", VStr (transactionHash tx));
                  ("status", VStr "submitted");
                  ("message", VStr message)]
                 ++ echo
                 ++ [("amount", amountEth);
                     ("records_created", js_int (Z.of_nat (List.length dualRecords)))])%list.

(** [POST /payment/email-to-email]. *)
Definition email_to_email (req_body : JsVal) : M Response :=
  try_catch
    (fromEmail ← lift (get_prop req_body "fromEmail");
     toEmail ← lift (get_prop req_body "toEmail");
     amountEth ← lift (get_prop req_body "amountEth");
     memo ← lift (get_prop req_body "memo");
     if negb (truthy fromEmail) || negb (truthy toEmail) || negb (truthy amountEth) then
       bad_request "fromEmail, toEmail, and amountEth are required"
     else if strict_eq fromEmail toEmail then
       bad_request "Cannot send payment to yourself"
     else if PrimFloat.leb (parseFloat amountEth) 0 then
       bad_request "Amount must be greater than 0"
     else if PrimFloat.ltb 1000 (parseFloat amountEth) then
       bad_request "Payment amount cannot exceed 1000 ETH"
     else
       wallets ← try_catch
         (fromWallet ← getWalletByEmail fromEmail;
          toWallet ← getWalletByEmail toEmail;
          mret (inl (fromWallet, toWallet)))
         (fun msg => mret (inr msg));
       match wallets with
       | inr msg => reply 404 [("error", VStr msg)]
       | inl (fromWallet, toWallet) =>
           if negb (isAddress fromWallet) || negb (isAddress toWallet) then
             bad_request "Invalid wallet address(es) found"
           else
             from_lower ← lift (to_lower fromWallet);
             to_lower' ← lift (to_lower toWallet);
             if String.eqb from_lower to_lower' then
               bad_request "Source and destination wallets are the same"
             else
               pay "email" fromWallet toWallet amountEth
                   (or_else memo (VStr ("Payment from " ++ ToString fromEmail
                                        ++ " to " ++ ToString toEmail)))
                   "email" "Payment submitted successfully"
                   [("from_email", fromEmail); ("to_email", toEmail)]
       end)
    server_error.

(** [POST /payment/wallet-to-wallet]. *)
Definition wallet_to_wallet (req_body : JsVal) : M Response :=
  try_catch
    (fromWallet ← lift (get_prop req_body "fromWallet");
     toWallet ← lift (get_prop req_body "toWallet");
     amountEth ← lift (get_prop req_body "amountEth");
     memo ← lift (get_prop req_body "memo");
     if negb (truthy fromWallet) || negb (truthy toWallet) || negb (truthy amountEth) then
       bad_request "fromWallet, toWallet, and amountEth are required"
     else if negb (isAddress fromWallet) || negb (isAddress toWallet) then
       bad_request "Invalid wallet address format"
     else
       from_lower ← lift (to_lower fromWallet);
       to_lower' ← lift (to_lower toWallet);
       if String.eqb from_lower to_lower' then
         bad_request "Cannot send payment to same wallet"
       else if PrimFloat.leb (parseFloat amountEth) 0 then
         bad_request "Amount must be greater than 0"
       else if PrimFloat.ltb 1000 (parseFloat amountEth) then
         bad_request "Payment amount cannot exceed 1000 ETH"
       else
         pay "wallet" fromWallet toWallet amountEth
             (or_else memo (VStr "Direct wallet transfer"))
             "wallet_transfer" "Wallet transfer submitted successfully"
             [("from_wallet", fromWallet); ("to_wallet", toWallet)])
    server_error.

(** [GET /wallet/balance/:walletAddress]. *)
Definition wallet_balance (walletAddress : string) : M Response :=
  try_catch
    (if negb (isAddress (VStr walletAddress)) then
       reply 400 [("error", VStr "Invalid wallet address")]
     else
       balanceWei ← await (GetBalance (VStr walletAddress))
                          (fun tr => balance_reply env tr (VStr walletAddress));
       reply 200 [("success", VBool true);
                  ("balance", VStr (Web3Utils.fromWei (Z.of_N balanceWei)))])
    (fun msg => reply 500 [("error", VStr msg)]).

(** *** Start-up: waiting for the deployer's funds

    The loop of [main] that asks for the deployer's balance again, a second
    apart, while it is zero and fewer than ten retries were made; [left] is
    how many retries remain. *)
Fixpoint funding_loop (left : nat) (balance : N) : M N :=
  match left with
  | 0%nat => mret balance
  | S left' =>
      if N.eqb balance 0 then
        _ ← sleep 1000;
        balance' ← await (GetBalance (VStr (deployer env)))
                         (fun tr => balance_reply env tr (VStr (deployer env)));
        funding_loop left' balance'
      else mret balance
  end.

(** The balance [main] goes on with, or [None] where it calls
    [process.exit(1)] because the deployer still has nothing. *)
Definition await_funding : M (option N) :=
  balance ← await (GetBalance (VStr (deployer env)))
                  (fun tr => balance_reply env tr (VStr (deployer env)));
  balance ← funding_loop 10 balance;
  if N.eqb balance 0 then mret None else mret (Some balance).

End WithOracle.

End App.

(* ===================================================================== *)
(** ** Submissions in flight

    Node runs one handler at a time and switches between them only at an
    [await]. A submission is therefore a sequence of four stretches of
    [sendTransactionWithPrivateKey], and two submissions interleave in
    whatever order the scheduler resumes them. *)
(* ===================================================================== *)

Module Race.
Import Chars Bytes App.

(** Where a submission stands. *)
Inductive Task :=
| AtStart (fromWallet toWallet : JsVal) (amountWei gasLimit : Z)
| HasNonce (toWallet : JsVal) (amountWei gasLimit : Z) (privateKey : jstring) (nonce : Z)
| HasGasPrice (txObject : TxObject) (privateKey : jstring)
| HasSignature (signedTx : SignedTx)
| Finished (result : Outcome Receipt).

Section WithOracle.

Variable env : Oracle.

Definition resume {A} (m : M A) (k : A -> Task) (w : World) : Task * World :=
  match m w with
  | (Ok a, w') => (k a, w')
  | (Throw msg, w') => (Finished (Throw msg), w')
  end.

(** Run a submission up to its next [await]. *)
Definition step (t : Task) (w : World) : Task * World :=
  match t with
  | AtStart fromWallet toWallet amountWei gasLimit =>
      resume (stx_nonce env fromWallet)
             (fun r => HasNonce toWallet amountWei gasLimit (fst r) (snd r)) w
  | HasNonce toWallet amountWei gasLimit privateKey nonce =>
      resume (stx_gas_price env)
             (fun gasPrice =>
                HasGasPrice {| tx_nonce := nonce; tx_to := toWallet; tx_value := amountWei;
                               tx_gasLimit := gasLimit; tx_gasPrice := gasPrice |} privateKey) w
  | HasGasPrice txObject privateKey =>
      resume (stx_sign env txObject privateKey) HasSignature w
  | HasSignature signedTx =>
      resume (stx_send env signedTx) (fun r => Finished (Ok r)) w
  | Finished _ => (t, w)
  end.

(** Two submissions and a schedule: [false] resumes the first, [true] the
    second. *)
Fixpoint run_schedule (schedule : list bool) (a b : Task) (w : World) : Task * Task * World :=
  match schedule with
  | [] => (a, b, w)
  | false :: rest => let '(a', w') := step a w in run_schedule rest a' b w'
  | true :: rest => let '(b', w') := step b w in run_schedule rest a b' w'
  end.

(** The nonces of the transactions broadcast in a trace, in order. *)
Fixpoint broadcast_nonces (tr : list Event) : list Z :=
  match tr with
  | [] => []
  | SendSignedTransaction raw :: r => tx_nonce (raw_tx raw) :: broadcast_nonces r
  | _ :: r => broadcast_nonces r
  end.

End WithOracle.

(** *** The chain's rule for sequence numbers

    The account of the key [k] has a counter: a broadcast signed by [k] is
    accepted when its nonce is the counter, which then moves up by one. *)
Fixpoint counter_back (k : jstring) (newest_first : list Event) : Z :=
  match newest_first with
  | [] => 0
  | SendSignedTransaction raw :: older =>
      let n := counter_back k older in
      if (if decide (raw_signer raw = k) then true else false) && (tx_nonce (raw_tx raw) =? n)
      then n + 1 else n
  | _ :: older => counter_back k older
  end.

Definition chain_counter (k : jstring) (tr : list Event) : Z := counter_back k (List.rev tr).


End Race.

(* ===================================================================== *)
(** ** A small concrete world, for the examples *)
(* ===================================================================== *)

Module Demo.
Import Chars Bytes App.

Definition alice : string := "0x00000000000000000000000000000000000000aa".
Definition bob : string := "0x00000000000000000000000000000000000000bb".

Definition vault_key : list byte :=
  hex_decode "000102030405060708090a0b0c0d0e0f101112131415161718191a1b1c1d1e1f".

Definition alice_key : string :=
  "0x0123456789abcdef0123456789abcdef0123456789abcdef0123456789abcdef".

Definition alice_encrypted : Vault.EncryptedKey :=
  Eval vm_compute in
    Vault.encrypt vault_key (hex_decode "000102030405060708090a0b0c0d0e0f")
                  (jstring_of alice_key).

Definition alice_wallet : WalletData :=
  {| encryptedKey := alice_encrypted;
     address := "0x00000000000000000000000000000000000000AA";
     createdAt := 1700000000000;
     userName := VStr "Alice" |}.

Definition mined (txHash : string) (ok : bool) : Receipt :=
  {| transactionHash := txHash; receipt_status := ok;
     blockNumber := js_int 1; blockHash := VStr "0xb10c";
     transactionIndex := js_int 0; gasUsed := js_int 21000 |}.

Definition answer (v : JsVal) : FetchResult :=
  Responded {| resp_ok := true; resp_status := 200; resp_statusText := "OK";
               resp_text := ""; resp_json := Ok v |}.

Definition created : FetchResult :=
  answer (obj [("success", VBool true); ("transaction_db_id", js_int 7)]).

Definition unavailable : FetchResult :=
  Responded {| resp_ok := false; resp_status := 503;
               resp_statusText := "Service Unavailable";
               resp_text := ""; resp_json := Throw "Unexpected end of JSON input" |}.

Definition found (wallet : string) : Outcome JsVal :=
  Ok (obj [("success", VBool true); ("user", obj [("wallet_address", VStr wallet)])]).

(** alice@example.com and bob@example.com are registered. *)
Definition directory (email : JsVal) : Outcome JsVal :=
  match email with
  | VStr s =>
      if String.eqb s "alice@example.com" then found alice
      else if String.eqb s "bob@example.com" then found bob
      else Ok (obj [("success", VBool false)])
  | _ => Ok (obj [("success", VBool false)])
  end.

(** An environment in which everything not given as an argument goes well. *)
Definition oracle (balance : N)
    (create : list Event -> Payload -> FetchResult)
    (count : list Event -> Z)
    (send : list Event -> SignedTx -> Outcome Receipt)
    (receipt : list Event -> option Receipt) : Oracle :=
  {| number_to_string := fun _ => "#";
     checkAddressChecksum := fun _ => false;
     address_of_key := fun _ => "0x00000000000000000000000000000000000000cc";
     ENCRYPTION_KEY := vault_key;
     NETWORK_MODE := "local";
     deployer := "0x00000000000000000000000000000000000000dd";
     random_bytes := fun _ n => List.repeat (z2b 7) n;
     random_suffix := fun _ => "k3j9x0q1z";
     latency := fun _ => 5%N;
     write_fails := fun _ => None;
     email_reply := fun _ => directory;
     create_reply := create;
     update_reply := fun _ _ _ _ => answer (obj [("success", VBool true)]);
     map_reply := fun _ _ _ => Ok (obj [("success", VBool true)]);
     balance_reply := fun _ _ => Ok balance;
     count_reply := fun tr _ => Ok (count tr);
     gas_price_reply := fun _ => Ok 20000000000;
     sign_reply := fun _ _ _ => None;
     send_reply := send;
     faucet_reply := fun _ _ _ => Ok (mined "0xfa" true);
     receipt_reply := fun tr _ => Ok (receipt tr);
     block_reply := fun _ _ => Ok (obj [("timestamp", js_int 1700000001)]) |}.

Definition accepts_all : list Event -> SignedTx -> Outcome Receipt :=
  fun _ _ => Ok (mined "0xabc" true).

(** A node that keeps the nonce rule for Alice's key. *)
Definition nonce_checked (tr : list Event) (raw : SignedTx) : Outcome Receipt :=
  if tx_nonce (raw_tx raw) =? Race.chain_counter (jstring_of alice_key) tr
  then Ok (mined "0xabc" true)
  else Throw "the tx doesn't have the correct nonce".

Definition two_eth : N := 2000000000000000000.

Definition world0 : World :=
  {| trace := []; now := 1700000000000;
     funded_file := Absent;
     wallet_file := Stored [("1", alice_wallet)];
     spawned := [] |}.

Definition payment (amountEth : JsVal) : JsVal :=
  obj [("fromWallet", VStr alice); ("toWallet", VStr bob); ("amountEth", amountEth)].

Definition email_payment (amountEth : JsVal) : JsVal :=
  obj [("fromEmail", VStr "alice@example.com"); ("toEmail", VStr "bob@example.com");
       ("amountEth", amountEth)].

(** Everything goes well. *)
Definition friendly : Oracle :=
  oracle two_eth (fun _ _ => created) (fun _ => 0) accepts_all (fun _ => None).


(** The backend refuses the sender's record and takes the receiver's. *)
Definition half_recorded : Oracle :=
  oracle two_eth
         (fun _ p => match direction p with Outbound => unavailable | Inbound => created end)
         (fun _ => 0) accepts_all (fun _ => None).




(** The node reports the transaction as mined and failed. *)
Definition reverting : Oracle :=
  oracle two_eth (fun _ _ => created) (fun _ => 0) accepts_all
         (fun _ => Some (mined "0xabc" false)).

Definition faucet_request : JsVal :=
  obj [("toWallet", VStr bob); ("amountEth", VStr "1.0")].

(** The sender's record of a payment, as the backend acknowledged it. *)
Definition sender_record : DualRecord :=
  {| rec_type := "sender";
     rec_result := obj [("success", VBool true); ("transaction_db_id", js_int 7)];
     rec_payload :=
       dual_payload friendly "_sender" (VStr alice) (VStr alice) (VStr bob) (VStr "0.5")
                    (VStr "Direct wallet transfer") TSend Outbound
                    "wallet_1700000000005_k3j9x0q1z" |}.

End Demo.

Module DemoTests.
Import Chars Bytes App Demo.

(** A wallet-to-wallet payment of 1.5 ETH that goes through: balance, two
    records, nonce, gas price, signature, broadcast, two updates. *)
Example wallet_payment_runs :
  let '(out, w) :=
    wallet_to_wallet (oracle two_eth (fun _ _ => created) (fun _ => 0) accepts_all
                             (fun _ => None))
                     (payment (VStr "1.5")) world0 in
  (match out with Ok r => code r | Throw _ => 0 end,
   List.map (fun e => match e with
                      | GetBalance _ => "balance" | MathRandom => "random"
                      | CreateTransaction _ => "create" | GetTransactionCount _ => "nonce"
                      | GetGasPrice => "gasPrice" | SignTransaction _ => "sign"
                      | SendSignedTransaction _ => "send" | UpdateTransaction _ _ _ => "update"
                      | _ => "other" end) (trace w),
   List.length (spawned w))
  = (200, ["balance"; "random"; "create"; "create"; "nonce"; "gasPrice"; "sign"; "send";
           "update"; "update"], 1%nat).
Proof. vm_compute. reflexivity. Qed.

End DemoTests.

(* ===================================================================== *)
(** ** The contracts: what a call returns

    A call of a contract function either completes, with its result and the
    events it emitted, or reverts with the reason of the failed [require];
    a revert undoes every change the call made. Addresses, hashes and
    amounts are numbers; an [address] is below [2^160], a [bytes32] and a
    [uint256] below [2^256]. *)
(* ===================================================================== *)

Module Solidity.

Inductive Result (A : Type) :=
| Done (a : A)
| Revert (reason : string)
| Panic (code : Z).
Arguments Done {A} a.
Arguments Revert {A} reason.
Arguments Panic {A} code.

Definition MAX_UINT256 : Z := 2 ^ 256 - 1.

(** [a + b] in checked arithmetic: an overflow is [Panic(0x11)]. *)
Definition checked_add (a b : Z) : Result Z :=
  if a + b <=? MAX_UINT256 then Done (a + b) else Panic 0x11.

(** [a - b] in checked arithmetic. *)
Definition checked_sub (a b : Z) : Result Z :=
  if b <=? a then Done (a - b) else Panic 0x11.

(** [require(condition, reason)] before the rest of a function. *)
Definition require {A} (condition : bool) (reason : string) (rest : Result A) : Result A :=
  if condition then rest else Revert reason.

(** The value a mapping holds at a key: zero until it is assigned. *)
Definition at_key (m : gmap Z Z) (k : Z) : Z := default 0 (m !! k).

End Solidity.

(* ===================================================================== *)
(** ** [EmailRegistry] *)
(* ===================================================================== *)

Module EmailRegistry.
Import Solidity.

Record Storage := {
  emailToWallet : gmap Z Z;
  walletToEmail : gmap Z Z;
  registrationTimestamps : gmap Z Z
}.

(** The storage of a contract just deployed. *)
Definition deployed : Storage :=
  {| emailToWallet := ∅; walletToEmail := ∅; registrationTimestamps := ∅ |}.

Inductive Log :=
| EmailRegistered (emailHash wallet : Z)
| EmailUpdated (emailHash oldWallet newWallet : Z).

(** [registerEmail(emailHash, wallet)], called by [msg_sender] in a block of
    time [block_timestamp]. *)
Definition registerEmail (msg_sender block_timestamp : Z) (emailHash wallet : Z) (s : Storage)
  : Result (Storage * list Log) :=
  require (negb (wallet =? 0)) "Cannot register zero address"
  (require (negb (emailHash =? 0)) "Invalid email hash"
  (let currentWallet := at_key (emailToWallet s) emailHash in
   if negb (currentWallet =? 0) then
     require (currentWallet =? msg_sender) "Email already registered to another wallet"
     (Done ({| emailToWallet := <[emailHash := wallet]> (emailToWallet s);
               walletToEmail :=
                 <[wallet := emailHash]> (delete currentWallet (walletToEmail s));
               registrationTimestamps := registrationTimestamps s |},
            [EmailUpdated emailHash currentWallet wallet]))
   else
     Done ({| emailToWallet := <[emailHash := wallet]> (emailToWallet s);
              walletToEmail := <[wallet := emailHash]> (walletToEmail s);
              registrationTimestamps :=
                <[emailHash := block_timestamp]> (registrationTimestamps s) |},
           [EmailRegistered emailHash wallet]))).

Definition getWalletByEmail (emailHash : Z) (s : Storage) : Z :=
  at_key (emailToWallet s) emailHash.

Definition getEmailByWallet (wallet : Z) (s : Storage) : Z :=
  at_key (walletToEmail s) wallet.

Definition isEmailRegistered (emailHash : Z) (s : Storage) : bool :=
  negb (at_key (emailToWallet s) emailHash =? 0).

Definition isWalletRegistered (wallet : Z) (s : Storage) : bool :=
  negb (at_key (walletToEmail s) wallet =? 0).

Definition getRegistrationTime (emailHash : Z) (s : Storage) : Z :=
  at_key (registrationTimestamps s) emailHash.

(** A transaction that calls [registerEmail]. *)
Record Call := {
  msg_sender : Z;
  block_timestamp : Z;
  call_emailHash : Z;
  call_wallet : Z
}.

(** The storage after a transaction: a call that reverts changes nothing. *)
Definition transact (s : Storage) (c : Call) : Storage :=
  match registerEmail (msg_sender c) (block_timestamp c) (call_emailHash c) (call_wallet c) s with
  | Done (s', _) => s'
  | Revert _ | Panic _ => s
  end.

(** The storage after a history of transactions, from deployment. *)
Definition after (history : list Call) : Storage := List.fold_left transact history deployed.

End EmailRegistry.

(* ===================================================================== *)
(** ** [PaymentManager], the contract the faucet route calls *)
(* ===================================================================== *)

Module PaymentManager.
Import Solidity.

Record Storage := { owner : Z; _status : Z }.

Definition _NOT_ENTERED : Z := 1.
Definition _ENTERED : Z := 2.

Inductive Log :=
| PaymentSent (from to amount : Z)
| BatchCompleted (from totalSent refunded : Z)
| Refunded (to amount : Z)
| Withdrawn (to amount : Z)
| OwnershipTransferred (previousOwner newOwner : Z).

(** What a call does to the outside, in order: the ether it sends with
    [to.call{value: amount}("")], together with the storage the callee finds,
    and the events it emits. *)
Inductive Effect :=
| Sent (to amount : Z) (found : Storage)
| Emitted (log : Log).

Record Msg := { sender : Z; value : Z }.

(** The callee of the [n]-th call a function makes runs code of its own,
    which may call back into the contract: of a callee in general all that
    is known is whether the call reports success, the storage it leaves and
    what the calls back did to the outside. *)
Definition Callees := nat -> Z -> Z -> Storage -> bool * Storage * list Effect.

(** The state of a call under way. *)
Record Frame := { storage : Storage; effects : list Effect; calls_made : nat }.

Definition Exec (A : Type) : Type := Frame -> Result (A * Frame).

#[global] Instance Exec_ret : MRet Exec := fun A a f => Done (a, f).
#[global] Instance Exec_bind : MBind Exec := fun A B k m f =>
  match m f with
  | Done (a, f') => k a f'
  | Revert reason => Revert reason
  | Panic code => Panic code
  end.

Definition requires (condition : bool) (reason : string) : Exec unit := fun f =>
  if condition then Done (tt, f) else Revert reason.

Definition checked (r : Result Z) : Exec Z := fun f =>
  match r with
  | Done z => Done (z, f)
  | Revert reason => Revert reason
  | Panic code => Panic code
  end.

Definition emit (log : Log) : Exec unit := fun f =>
  Done (tt, {| storage := storage f; effects := (effects f ++ [Emitted log])%list;
               calls_made := calls_made f |}).

Definition read_owner : Exec Z := fun f => Done (owner (storage f), f).
Definition read_status : Exec Z := fun f => Done (_status (storage f), f).

Definition write_owner (newOwner : Z) : Exec unit := fun f =>
  Done (tt, {| storage := {| owner := newOwner; _status := _status (storage f) |};
               effects := effects f; calls_made := calls_made f |}).

Definition write_status (s : Z) : Exec unit := fun f =>
  Done (tt, {| storage := {| owner := owner (storage f); _status := s |};
               effects := effects f; calls_made := calls_made f |}).

Section WithCallees.

Variable callees : Callees.

(** [(bool sent, ) = to.call{value: amount}("")]. *)
Definition call_value (to amount : Z) : Exec bool := fun f =>
  let '(sent, left_behind, nested) := callees (calls_made f) to amount (storage f) in
  Done (sent, {| storage := left_behind;
                 effects := (effects f ++ Sent to amount (storage f) :: nested)%list;
                 calls_made := S (calls_made f) |}).

(** A function that is not [payable] reverts when it is sent ether. *)
Definition nonpayable (msg : Msg) : Exec unit := requires (value msg =? 0) "".

(** The modifiers. *)
Definition onlyOwner {A} (msg : Msg) (body : Exec A) : Exec A :=
  o ← read_owner;
  _ ← requires (sender msg =? o) "Only owner";
  body.

Definition nonReentrant {A} (body : Exec A) : Exec A :=
  s ← read_status;
  _ ← requires (negb (s =? _ENTERED)) "ReentrancyGuard: reentrant call";
  _ ← write_status _ENTERED;
  a ← body;
  _ ← write_status _NOT_ENTERED;
  mret a.

(** [withdrawAll()]; [balance] is [address(this).balance] when it is read. *)
Definition withdrawAll (msg : Msg) (balance : Z) : Exec unit :=
  _ ← nonpayable msg;
  onlyOwner msg (nonReentrant (
    let bal := balance in
    _ ← requires (0 <? bal) "No balance";
    o ← read_owner;
    sent ← call_value o bal;
    _ ← requires sent "Withdraw failed";
    o' ← read_owner;
    emit (Withdrawn o' bal))).

(** [withdrawAmount(amount)]. *)
Definition withdrawAmount (msg : Msg) (balance : Z) (amount : Z) : Exec unit :=
  _ ← nonpayable msg;
  onlyOwner msg (nonReentrant (
    _ ← requires (amount <=? balance) "Insufficient contract balance";
    o ← read_owner;
    sent ← call_value o amount;
    _ ← requires sent "Withdraw failed";
    o' ← read_owner;
    emit (Withdrawn o' amount))).

(** [transferOwnership(newOwner)]. *)
Definition transferOwnership (msg : Msg) (newOwner : Z) : Exec unit :=
  _ ← nonpayable msg;
  onlyOwner msg (
    _ ← requires (negb (newOwner =? 0)) "Zero owner";
    o ← read_owner;
    _ ← emit (OwnershipTransferred o newOwner);
    write_owner newOwner).

(** [sendPaymentToWallet(toWallet)]. *)
Definition sendPaymentToWallet (msg : Msg) (toWallet : Z) : Exec unit :=
  nonReentrant (
    _ ← requires (0 <? value msg) "Payment must be > 0";
    _ ← requires (negb (toWallet =? 0)) "Invalid recipient";
    sent ← call_value toWallet (value msg);
    _ ← requires sent "Transfer failed";
    emit (PaymentSent (sender msg) toWallet (value msg))).

(** [sendPaymentFromWallet(toWallet)]. *)
Definition sendPaymentFromWallet (msg : Msg) (toWallet : Z) : Exec unit :=
  nonReentrant (
    _ ← requires (0 <? value msg) "Payment must be > 0";
    _ ← requires (negb (toWallet =? 0)) "Invalid recipient";
    sent ← call_value toWallet (value msg);
    _ ← requires sent "Transfer failed";
    emit (PaymentSent (sender msg) toWallet (value msg))).

(** The loop of [batchPaymentToWallets] over the recipients left, with the
    two running totals. *)
Fixpoint batch_loop (msg : Msg) (recipients : list (Z * Z)) (remaining totalSent : Z)
  : Exec (Z * Z) :=
  match recipients with
  | [] => mret (remaining, totalSent)
  | (to, amt) :: rest =>
      _ ← requires (negb (to =? 0)) "Invalid recipient address";
      if amt =? 0 then batch_loop msg rest remaining totalSent
      else
        _ ← requires (amt <=? remaining) "Insufficient msg.value for batch";
        remaining' ← checked (checked_sub remaining amt);
        totalSent' ← checked (checked_add totalSent amt);
        sent ← call_value to amt;
        _ ← requires sent "Transfer to recipient failed";
        _ ← emit (PaymentSent (sender msg) to amt);
        batch_loop msg rest remaining' totalSent'
  end.

(** [batchPaymentToWallets(toWallets, amounts)]. *)
Definition batchPaymentToWallets (msg : Msg) (toWallets amounts : list Z) : Exec unit :=
  nonReentrant (
    let n := List.length toWallets in
    _ ← requires (Nat.ltb 0 n) "No recipients";
    _ ← requires (Nat.eqb n (List.length amounts)) "Length mismatch";
    totals ← batch_loop msg (List.combine toWallets amounts) (value msg) 0;
    let '(remaining, totalSent) := totals in
    _ ← (if 0 <? remaining then
       refunded ← call_value (sender msg) remaining;
       _ ← requires refunded "Refund failed";
       emit (Refunded (sender msg) remaining)
     else mret tt);
    emit (BatchCompleted (sender msg) totalSent remaining)).

(** The functions of the contract that change something, with their
    arguments; [Receive] is [receive()] and [fallback()], which take ether
    and do nothing. *)
Inductive Function :=
| WithdrawAll
| WithdrawAmount (amount : Z)
| TransferOwnership (newOwner : Z)
| SendPaymentToWallet (toWallet : Z)
| SendPaymentFromWallet (toWallet : Z)
| BatchPaymentToWallets (toWallets amounts : list Z)
| Receive.

(** A call of the contract; [balance] is what [address(this).balance]
    reads during the call. *)
Definition dispatch (fn : Function) (msg : Msg) (balance : Z) : Exec unit :=
  match fn with
  | WithdrawAll => withdrawAll msg balance
  | WithdrawAmount amount => withdrawAmount msg balance amount
  | TransferOwnership newOwner => transferOwnership msg newOwner
  | SendPaymentToWallet toWallet => sendPaymentToWallet msg toWallet
  | SendPaymentFromWallet toWallet => sendPaymentFromWallet msg toWallet
  | BatchPaymentToWallets toWallets amounts => batchPaymentToWallets msg toWallets amounts
  | Receive => mret tt
  end.

End WithCallees.

(** A call of the contract in the storage [s]. *)
Definition start (s : Storage) : Frame := {| storage := s; effects := []; calls_made := 0 |}.

(** The storage of a contract deployed by [deployer]. *)
Definition constructed (deployer : Z) : Storage :=
  {| owner := deployer; _status := _NOT_ENTERED |}.

(** *** Callees that call back

    What a callee does with a call: it calls back into the contract, any
    number of times, as any sender and with any arguments, and then reports
    success or failure. Each call back runs the contract's code, and its own
    calls have callees of the same kind. *)
Inductive Behaviour :=
| Behave (reentries : list Reentry) (success : bool)
with Reentry :=
| Reenter (fn : Function) (msg : Msg) (balance : Z) (callees : list Behaviour).

(** The storage and the effects after a series of calls back: a call back
    that reverts changes nothing. The calls of a transaction nest at most
    [depth] deep; a call beyond that fails. *)
Fixpoint realize (depth : nat) (behaviours : list Behaviour) : Callees :=
  match depth with
  | O => fun _ _ _ s => (false, s, [])
  | S depth' => fun n _ _ s =>
      match List.nth_error behaviours n with
      | None => (true, s, [])
      | Some (Behave reentries success) =>
          let after :=
            List.fold_left
              (fun (acc : Storage * list Effect) (r : Reentry) =>
                 match r with
                 | Reenter fn msg balance callees =>
                     match dispatch (realize depth' callees) fn msg balance (start (fst acc)) with
                     | Done (_, f) => (storage f, (snd acc ++ effects f)%list)
                     | Revert _ | Panic _ => acc
                     end
                 end)
              reentries (s, []) in
          if success then (true, fst after, snd after) else (false, s, [])
      end
  end.

End PaymentManager.

(* ===================================================================== *)
(** ** Properties of the handlers *)
(* ===================================================================== *)

Module AppSpec.
Import Chars Bytes App.

#[local] Arguments log : simpl never.
#[local] Arguments advance : simpl never.
#[local] Arguments set_funded : simpl never.
#[local] Arguments set_wallets : simpl never.
#[local] Arguments add_spawned : simpl never.
#[local] Arguments ToString : simpl never.
#[local] Arguments parseFloat : simpl never.
#[local] Arguments isAddress : simpl never.
#[local] Arguments Web3Utils.toWei : simpl never.
#[local] Arguments Web3Utils.fromWei : simpl never.
#[local] Arguments Num.parseFloat_string : simpl never.
#[local] Arguments Vault.decrypt : simpl never.
#[local] Arguments Vault.encrypt : simpl never.
#[local] Arguments dec_of_Z : simpl never.
#[local] Arguments js_int : simpl never.
#[local] Arguments String.append : simpl never.
#[local] Arguments toLowerCase : simpl never.
#[local] Arguments get_prop : simpl never.
#[local] Arguments truthy : simpl never.
#[local] Arguments create_result : simpl never.
#[local] Arguments update_result : simpl never.

(** Unfold the monad: what is left is a [match] on each call's outcome. *)
Ltac munfold :=
  repeat progress
    unfold mbind, M_bind, mret, M_ret, try_catch, lift, throw, await, emit, reply,
           bad_request, server_error, spawn, sleep, Date_now,
           createTransactionPHP, updateTransactionStatusPHP, mapUserToWallet,
           fresh_id, randomBytes, loadFundedWallets, loadWalletStore,
           saveFundedWallets, saveWalletStore.

Ltac munfold_in H :=
  repeat progress
    unfold mbind, M_bind, mret, M_ret, try_catch, lift, throw, await, emit, reply,
           bad_request, server_error, spawn, sleep, Date_now,
           createTransactionPHP, updateTransactionStatusPHP, mapUserToWallet,
           fresh_id, randomBytes, loadFundedWallets, loadWalletStore,
           saveFundedWallets, saveWalletStore in H.

(** The arguments of the part the two payment handlers share. *)
Record PayArgs := {
  p_prefix : string;
  p_from : JsVal;
  p_to : JsVal;
  p_amount : JsVal;
  p_memo : JsVal;
  p_type : string;
  p_message : string;
  p_echo : list (string * JsVal)
}.

Section Handlers.

Variable env : Oracle.

Definition run_pay (a : PayArgs) : M Response :=
  try_catch (pay env (p_prefix a) (p_from a) (p_to a) (p_amount a) (p_memo a)
                 (p_type a) (p_message a) (p_echo a))
            server_error.


Lemma trace_log (e : Event) (w : World) : trace (log env e w) = (trace w ++ [e])%list.
Proof. reflexivity. Qed.

Lemma getWalletByEmail_world (email : JsVal) (w w' : World) (out : Outcome JsVal) :
  getWalletByEmail env email w = (out, w') -> w' = log env (EmailLookup email) w.
Proof.
  unfold getWalletByEmail, mbind, M_bind, await, lift, throw, mret, M_ret.
  destruct (email_reply env (trace w) email) as [data|msg]; [|intros [= _ <-]; reflexivity].
  destruct (get_prop data "success") as [s|msg]; [|intros [= _ <-]; reflexivity].
  destruct (negb (truthy s)); [intros [= _ <-]; reflexivity|].
  destruct (get_prop data "user") as [u|msg]; [|intros [= _ <-]; reflexivity].
  destruct (negb (truthy u)); [intros [= _ <-]; reflexivity|].
  destruct (get_prop u "wallet_address") as [a|msg]; [|intros [= _ <-]; reflexivity].
  destruct (truthy a); intros [= _ <-]; reflexivity.
Qed.



(** *** Record creation and the status updates never throw *)

(** A record the backend acknowledged: its answer has a truthy [success]. *)
Definition created_ok (r : DualRecord) : Prop :=
  exists s, get_prop (rec_result r) "success" = Ok s /\ truthy s = true.

Definition only_creations (es : list Event) : Prop :=
  Forall (fun e => exists p, e = CreateTransaction p) es.

Lemma createDual_total senderWallet receiverWallet amount paymentType memo transactionId w :
  exists dualRecords w',
    createDualTransactionRecords env senderWallet receiverWallet amount paymentType memo
                                 transactionId w = (Ok dualRecords, w')
    /\ (List.length dualRecords <= 2)%nat
    /\ Forall created_ok dualRecords
    /\ (exists es, trace w' = (trace w ++ es)%list /\ only_creations es
                   /\ (1 <= List.length es <= 2)%nat)
    /\ funded_file w' = funded_file w /\ wallet_file w' = wallet_file w
    /\ spawned w' = spawned w.
Proof.
  unfold createDualTransactionRecords. munfold. simpl.
  set (sp := dual_payload env "_sender" _ _ _ _ _ _ _ _).
  set (rp := dual_payload env "_receiver" _ _ _ _ _ _ _ _).
  set (r1 := create_result (create_reply env (trace w) sp)).
  destruct (get_prop r1 "success") as [s1|msg] eqn:E1.
  - set (r2 := create_result (create_reply env (trace (log env (CreateTransaction sp) w)) rp)).
    assert (Htr : trace (log env (CreateTransaction rp) (log env (CreateTransaction sp) w))
                  = (trace w ++ [CreateTransaction sp; CreateTransaction rp])%list).
    { rewrite !trace_log, <- app_assoc. reflexivity. }
    assert (Hev : only_creations [CreateTransaction sp; CreateTransaction rp]).
    { repeat constructor; eexists; reflexivity. }
    destruct (get_prop r2 "success") as [s2|msg] eqn:E2.
    + destruct (truthy s1) eqn:T1, (truthy s2) eqn:T2; simpl;
        (eexists; eexists; split; [reflexivity|]);
        (split; [simpl; lia|]);
        (split; [repeat constructor; eexists; split; simpl; eassumption|]);
        (split; [eexists; split; [exact Htr|split; [exact Hev|simpl; lia]]|]);
        repeat split.
    + destruct (truthy s1) eqn:T1; simpl;
        (eexists; eexists; split; [reflexivity|]);
        (split; [simpl; lia|]);
        (split; [repeat constructor; eexists; split; simpl; eassumption|]);
        (split; [eexists; split; [exact Htr|split; [exact Hev|simpl; lia]]|]);
        repeat split.
  - eexists; eexists; split; [reflexivity|].
    split; [simpl; lia|]. split; [constructor|].
    split; [|repeat split].
    exists [CreateTransaction sp]. split; [apply trace_log|].
    split; [repeat constructor; eexists; reflexivity|simpl; lia].
Qed.

Lemma updateDual_total records txHash st extra w :
  exists updates w',
    updateDualTransactionStatus env records txHash st extra w = (Ok updates, w')
    /\ (exists es, trace w' = (trace w ++ es)%list
                   /\ Forall (fun e => exists x, e = UpdateTransaction txHash st x) es)
    /\ funded_file w' = funded_file w /\ wallet_file w' = wallet_file w
    /\ spawned w' = spawned w.
Proof.
  revert w. induction records as [|record rest IH]; intros w.
  - exists [], w. split; [reflexivity|]. split; [|repeat split].
    exists []. rewrite app_nil_r. split; [reflexivity|constructor].
  - cbn [updateDualTransactionStatus]. munfold.
    destruct (get_prop (rec_result record) "transaction_db_id") as [db|msg]; simpl.
    + set (x := (_ :: _ :: extra)).
      set (w1 := log env (UpdateTransaction txHash st x) w).
      destruct (IH w1) as (us & w' & Hrun & (es & Htr & Hes) & Hf & Hwl & Hs).
      destruct (get_prop (update_result (update_reply env (trace w) txHash st x)) "success");
        fold w1; rewrite Hrun;
        (eexists; eexists; split; [reflexivity|]);
        (split; [|repeat split; assumption]);
        exists (UpdateTransaction txHash st x :: es);
        (split; [rewrite Htr; unfold w1; rewrite trace_log, <- app_assoc; reflexivity|]);
        constructor; [eexists; reflexivity|assumption|eexists; reflexivity|assumption].
    + destruct (IH w) as (us & w' & Hrun & Hrest). rewrite Hrun.
      eexists; eexists; split; [reflexivity|exact Hrest].
Qed.

(** *** The shared part of the payment handlers, step by step *)

(** The sender's balance as the handler compares it: in ether, as a double. *)
Definition balance_in_eth (wei : N) : float :=
  Num.parseFloat_string (Web3Utils.fromWei (Z.of_N wei)).

Definition after_balance (a : PayArgs) (w0 : World) : World :=
  log env (GetBalance (p_from a)) w0.

Definition after_id (a : PayArgs) (w0 : World) : World :=
  log env MathRandom (after_balance a w0).

Definition transaction_id_of (a : PayArgs) (w0 : World) : string :=
  p_prefix a ++ "_" ++ dec_of_Z (now (after_balance a w0)) ++ "_"
           ++ random_suffix env (trace (after_balance a w0)).

Definition insufficient_balance (a : PayArgs) (bal : N) : Response :=
  {| code := 400;
     body := [("error", VStr "Insufficient balance");
              ("available", VStr (number_to_string env (balance_in_eth bal)));
              ("required", VStr (number_to_string env (parseFloat env (p_amount a))))] |}.

Definition submitted (a : PayArgs) (transactionId : string) (tx : Receipt)
    (dualRecords : list DualRecord) : Response :=
  {| code := 200;
     body := ([("success", VBool true);
               ("transaction_id", VStr transactionId);
               ("txHash", VStr (transactionHash tx));
               ("status", VStr "submitted");
               ("message", VStr (p_message a))]
              ++ p_echo a
              ++ [("amount", p_amount a);
                  ("records_created", js_int (Z.of_nat (List.length dualRecords)))])%list |}.

Definition failed_with (msg : string) : Response :=
  {| code := 500; body := [("success", VBool false); ("error", VStr msg)] |}.

Lemma run_pay_insufficient (a : PayArgs) (w0 : World) (bal : N) :
  balance_reply env (trace w0) (p_from a) = Ok bal ->
  PrimFloat.ltb (balance_in_eth bal) (parseFloat env (p_amount a)) = true ->
  run_pay a w0 = (Ok (insufficient_balance a bal), after_balance a w0).
Proof.
  intros Hbal Hlt. unfold run_pay, pay. munfold. rewrite Hbal.
  fold (balance_in_eth bal). rewrite Hlt. reflexivity.
Qed.

(** Past the balance check, what the handler answers is decided by the
    records and by the submission. *)
Lemma run_pay_sufficient (a : PayArgs) (w0 : World) (bal : N) :
  balance_reply env (trace w0) (p_from a) = Ok bal ->
  PrimFloat.ltb (balance_in_eth bal) (parseFloat env (p_amount a)) = false ->
  forall dualRecords w_rec,
    createDualTransactionRecords env (p_from a) (p_to a) (p_amount a) (p_type a) (p_memo a)
                                 (transaction_id_of a w0) (after_id a w0)
    = (Ok dualRecords, w_rec) ->
    (dualRecords = [] ->
     run_pay a w0 = (Ok (failed_with "Failed to create transaction records"), w_rec))
    /\ (dualRecords <> [] ->
        (forall msg, Web3Utils.toWei (ToString env (p_amount a)) = Throw msg ->
                     run_pay a w0 = (Ok (failed_with msg), w_rec))
        /\ (forall amountWei out w_tx,
              Web3Utils.toWei (ToString env (p_amount a)) = Ok amountWei ->
              sendTransactionWithPrivateKey env (p_from a) (p_to a) amountWei default_gasLimit
                                            w_rec = (out, w_tx) ->
              match out with
              | Throw msg => run_pay a w0 = (Ok (failed_with msg), w_tx)
              | Ok tx =>
                  exists updates w_upd,
                    updateDualTransactionStatus env dualRecords (transactionHash tx)
                                                Submitted [] w_tx = (Ok updates, w_upd)
                    /\ run_pay a w0
                       = (Ok (submitted a (transaction_id_of a w0) tx dualRecords),
                          add_spawned (WatchPayment dualRecords (transactionHash tx)) w_upd)
              end)).
Proof.
  intros Hbal Hlt recs w_rec Hrec.
  assert (Hpay : run_pay a w0
    = try_catch
        (if Nat.eqb (List.length recs) 0 then throw "Failed to create transaction records"
         else
           amountWei ← lift (Web3Utils.toWei (ToString env (p_amount a)));
           tx ← sendTransactionWithPrivateKey env (p_from a) (p_to a) amountWei default_gasLimit;
           _ ← updateDualTransactionStatus env recs (transactionHash tx) Submitted [];
           _ ← spawn (WatchPayment recs (transactionHash tx));
           reply 200 ([("success", VBool true);
                       ("transaction_id", VStr (transaction_id_of a w0));
                       ("txHash", VStr (transactionHash tx));
                       ("status", VStr "submitted");
                       ("message", VStr (p_message a))]
                      ++ p_echo a
                      ++ [("amount", p_amount a);
                          ("records_created", js_int (Z.of_nat (List.length recs)))])%list)
        server_error w_rec).
  { unfold run_pay, pay. munfold. rewrite Hbal. fold (balance_in_eth bal). rewrite Hlt.
    fold (after_balance a w0). fold (transaction_id_of a w0). fold (after_id a w0).
    rewrite Hrec. reflexivity. }
  split.
  - intros ->. rewrite Hpay. reflexivity.
  - intros Hne.
    assert (Hlen : Nat.eqb (List.length recs) 0 = false)
      by (destruct recs; [congruence|reflexivity]).
    split.
    + intros msg Hwei. rewrite Hpay. munfold. rewrite Hlen, Hwei. reflexivity.
    + intros amountWei out w_tx Hwei Hsend. rewrite Hpay. munfold.
      rewrite Hlen, Hwei, Hsend. destruct out as [tx|msg]; [|reflexivity].
      destruct (updateDual_total recs (transactionHash tx) Submitted [] w_tx)
        as (us & w_upd & Hupd & _).
      exists us, w_upd. split; [exact Hupd|].
      rewrite Hupd. reflexivity.
Qed.

(** *** Insufficient balance *)


(** *** Record creation is best effort, up to a point *)


(** *** The funding-eligibility store and the faucet *)

(** The records of [funded-wallets.json] as [loadFundedWallets] reads them. *)
Definition funded_records (w : World) : gmap string FundedEntry :=
  match funded_file w with
  | Stored m => m
  | Absent | Unreadable => ∅
  end.


Definition already_funded : Response :=
  {| code := 429;
     body := [("error", VStr "Wallet has already received faucet funding");
              ("eligible", VBool false)] |}.

Lemma eligible_run (walletAddress : JsVal) (w : World) :
  isWalletEligibleForBonus env walletAddress w
  = (Ok (match funded_records w !! ToString env walletAddress with
         | None => true
         | Some e => negb (funded e)
         end), w).
Proof.
  unfold isWalletEligibleForBonus, funded_records. munfold.
  destruct (funded_file w); reflexivity.
Qed.



Lemma funded_records_log (e : Event) (w : World) :
  funded_records (log env e w) = funded_records w.
Proof. reflexivity. Qed.




(** *** The settlement watcher *)

Definition timeout_message : string := "Timeout waiting for transaction receipt".

Definition db_id_of (r : DualRecord) : JsVal :=
  match get_prop (rec_result r) "transaction_db_id" with
  | Ok v => v
  | Throw _ => VUndef
  end.

(** One update per record, naming the record and carrying [extra]. *)
Definition updates_for (records : list DualRecord) (txHash : string) (st : Status)
    (extra : list (string * JsVal)) : list Event :=
  List.map (fun r => UpdateTransaction txHash st
                       (("transaction_id", VStr (transaction_id (rec_payload r)))
                        :: ("transaction_db_id", db_id_of r) :: extra))
           records.

Lemma get_prop_defined (v : JsVal) (n1 n2 : string) (x : JsVal) :
  get_prop v n1 = Ok x -> exists y, get_prop v n2 = Ok y.
Proof. unfold get_prop. destruct v; try discriminate; intros _; eexists; reflexivity. Qed.

Lemma updateDual_events records txHash st extra w :
  Forall created_ok records ->
  exists updates w',
    updateDualTransactionStatus env records txHash st extra w = (Ok updates, w')
    /\ trace w' = (trace w ++ updates_for records txHash st extra)%list.
Proof.
  intros Hok. revert w. induction Hok as [|record rest (s & Hs & _) _ IH]; intros w.
  - exists [], w. split; [reflexivity|]. simpl. rewrite app_nil_r. reflexivity.
  - cbn [updateDualTransactionStatus]. munfold.
    destruct (get_prop_defined _ _ "transaction_db_id" _ Hs) as [db Hdb].
    rewrite Hdb. simpl.
    set (x := (_ :: _ :: extra)).
    set (w1 := log env (UpdateTransaction txHash st x) w).
    destruct (IH w1) as (us & w' & Hrun & Htr).
    assert (Hev : (trace w ++ updates_for (record :: rest) txHash st extra)%list
                  = (trace w1 ++ updates_for rest txHash st extra)%list).
    { unfold w1. rewrite trace_log, <- app_assoc. cbn [updates_for List.map app].
      unfold db_id_of. rewrite Hdb. reflexivity. }
    destruct (get_prop (update_result (update_reply env (trace w) txHash st x)) "success");
      fold w1; rewrite Hrun; eexists; eexists; (split; [reflexivity|]);
      rewrite Htr; symmetry; exact Hev.
Qed.

(** Every turn of the loop moves the clock, so the loop ends before its
    fuel does. *)
Lemma wait_loop_has_fuel (fuel : nat) (start : Z) (txHash : string)
    (timeoutMs pollInterval : Z) (w : World) :
  timeoutMs - (now w - start) <= Z.of_nat fuel ->
  fst (wait_loop env fuel start txHash timeoutMs pollInterval w) <> Ok None.
Proof.
  revert w. induction fuel as [|fuel IH]; intros w Hfuel.
  - cbn [wait_loop]. munfold.
    destruct (now w - start <? timeoutMs) eqn:Hlt; [|discriminate].
    apply Z.ltb_lt in Hlt. lia.
  - cbn [wait_loop]. munfold.
    destruct (now w - start <? timeoutMs) eqn:Hlt; [|discriminate].
    destruct (receipt_reply env (trace w) txHash) as [[r|]|msg]; try discriminate.
    apply IH. unfold advance, log, timer_delay. cbn [now].
    destruct ((pollInterval <? 1) || (2147483647 <? pollInterval)) eqn:Hp; [lia|].
    apply orb_false_iff in Hp. destruct Hp as [Hp _]. apply Z.ltb_ge in Hp. lia.
Qed.

(** No poll among the events [es] that follow the history [tr] was
    answered with a receipt. *)
Definition polls_empty (tr es : list Event) (txHash : string) : Prop :=
  forall before after,
    es = (before ++ GetTransactionReceipt txHash :: after)%list ->
    receipt_reply env (tr ++ before)%list txHash = Ok None.

(** What the loop returns, read off the polls it made. *)
Lemma wait_loop_outcome (fuel : nat) (start : Z) (txHash : string)
    (timeoutMs pollInterval : Z) (w : World) :
  exists es,
    trace (snd (wait_loop env fuel start txHash timeoutMs pollInterval w))
    = (trace w ++ es)%list
    /\ match fst (wait_loop env fuel start txHash timeoutMs pollInterval w) with
       | Ok (Some receipt) =>
           exists polls,
             es = (polls ++ [GetTransactionReceipt txHash])%list
             /\ polls_empty (trace w) polls txHash
             /\ receipt_reply env (trace w ++ polls)%list txHash = Ok (Some receipt)
       | Ok None => True
       | Throw msg =>
           (msg = timeout_message
            /\ polls_empty (trace w) es txHash
            /\ timeoutMs <= now (snd (wait_loop env fuel start txHash timeoutMs pollInterval w))
                            - start)
           \/ (exists polls,
                 es = (polls ++ [GetTransactionReceipt txHash])%list
                 /\ polls_empty (trace w) polls txHash
                 /\ receipt_reply env (trace w ++ polls)%list txHash = Throw msg)
       end.
Proof.
  revert w. induction fuel as [|fuel IH]; intros w.
  - cbn [wait_loop]. munfold.
    destruct (now w - start <? timeoutMs) eqn:Hlt.
    + exists []. rewrite app_nil_r. split; [reflexivity|exact I].
    + exists []. rewrite app_nil_r. split; [reflexivity|]. left.
      split; [reflexivity|]. split.
      * intros before after E. destruct before; discriminate E.
      * apply Z.ltb_ge in Hlt. exact Hlt.
  - cbn [wait_loop]. munfold.
    destruct (now w - start <? timeoutMs) eqn:Hlt.
    2:{ exists []. rewrite app_nil_r. split; [reflexivity|]. left.
        split; [reflexivity|]. split.
        - intros before after E. destruct before; discriminate E.
        - apply Z.ltb_ge in Hlt. exact Hlt. }
    assert (Hnil : polls_empty (trace w) [] txHash)
      by (intros before after E; destruct before; discriminate E).
    destruct (receipt_reply env (trace w) txHash) as [[r|]|msg] eqn:Hreply.
    + exists [GetTransactionReceipt txHash]. split; [apply trace_log|].
      exists []. rewrite app_nil_r. repeat split; assumption.
    + set (w1 := advance (timer_delay pollInterval)
                         (log env (SetTimeout pollInterval)
                              (log env (GetTransactionReceipt txHash) w))).
      destruct (IH w1) as (es & Htr & Hout).
      assert (Htr1 : trace w1
                     = (trace w ++ [GetTransactionReceipt txHash; SetTimeout pollInterval])%list).
      { unfold w1, advance. cbn [trace]. rewrite !trace_log, <- app_assoc. reflexivity. }
      assert (Hshift : forall polls,
                 polls_empty (trace w1) polls txHash ->
                 polls_empty (trace w)
                   (GetTransactionReceipt txHash :: SetTimeout pollInterval :: polls) txHash).
      { intros polls Hp before after E.
        destruct before as [|b0 before]; [rewrite app_nil_r; exact Hreply|].
        destruct before as [|b1 before]; [discriminate E|].
        injection E as <- <- E.
        specialize (Hp before after E). rewrite Htr1, <- app_assoc in Hp. exact Hp. }
      exists (GetTransactionReceipt txHash :: SetTimeout pollInterval :: es).
      split; [rewrite Htr, Htr1, <- app_assoc; reflexivity|].
      destruct (fst (wait_loop env fuel start txHash timeoutMs pollInterval w1))
        as [[r|]|msg]; [| exact I |].
      * destruct Hout as (polls & -> & Hp & Hr).
        exists (GetTransactionReceipt txHash :: SetTimeout pollInterval :: polls).
        split; [reflexivity|]. split; [apply Hshift, Hp|].
        rewrite Htr1, <- app_assoc in Hr. exact Hr.
      * destruct Hout as [(-> & Hp & Ht)|(polls & -> & Hp & Hr)].
        -- left. split; [reflexivity|]. split; [apply Hshift, Hp|exact Ht].
        -- right. exists (GetTransactionReceipt txHash :: SetTimeout pollInterval :: polls).
           split; [reflexivity|]. split; [apply Hshift, Hp|].
           rewrite Htr1, <- app_assoc in Hr. exact Hr.
    + exists [GetTransactionReceipt txHash]. split; [apply trace_log|].
      right. exists []. rewrite app_nil_r. repeat split; assumption.
Qed.


Lemma truthy_get_prop (v : JsVal) (name : string) :
  truthy v = true -> exists x, get_prop v name = Ok x.
Proof. unfold truthy, get_prop. destruct v; try discriminate; intros _; eexists; reflexivity. Qed.


End Handlers.

(** *** The claims on concrete requests *)



(** C1, a failing input: [amountEth: "abc"] parses to NaN, which is neither
    [<= 0] nor [> 1000]; the wallet route queries the balance and creates two
    records before [toWei] throws and the handler answers 500, and the
    e-mail route does the same after its two look-ups. *)
Theorem non_numeric_amount_passes_validation :
  PrimFloat.is_nan (parseFloat Demo.friendly (VStr "abc")) = true
  /\ (exists msg w',
        wallet_to_wallet Demo.friendly (Demo.payment (VStr "abc")) Demo.world0
        = (Ok (failed_with msg), w')
        /\ List.filter is_chain_call (trace w') = [GetBalance (VStr Demo.alice)]
        /\ List.length (List.filter is_record_creation (trace w')) = 2%nat)
  /\ (exists msg w',
        email_to_email Demo.friendly (Demo.email_payment (VStr "abc")) Demo.world0
        = (Ok (failed_with msg), w')
        /\ List.filter is_chain_call (trace w') = [GetBalance (VStr Demo.alice)]
        /\ List.length (List.filter is_record_creation (trace w')) = 2%nat).
Proof.
  split; [vm_compute; reflexivity|].
  split; eexists; eexists; (split; [vm_compute; reflexivity|]); split; vm_compute; reflexivity.
Qed.



(** The same run, evaluated: one record, and a broadcast. *)
Example half_recorded_payment_runs :
  exists resp w',
    wallet_to_wallet Demo.half_recorded (Demo.payment (VStr "0.5")) Demo.world0 = (Ok resp, w')
    /\ code resp = 200
    /\ assoc "records_created" (body resp) = js_int 1
    /\ List.existsb is_broadcast (trace w') = true.
Proof.
  eexists; eexists. split; [vm_compute; reflexivity|]. repeat split; vm_compute; reflexivity.
Qed.





Definition the_response (out : Outcome Response) : Response :=
  match out with
  | Ok r => r
  | Throw msg => failed_with msg
  end.


Example funded_address_gets_429 :
  exists w',
    faucet Demo.friendly Demo.faucet_request Demo.world0 = (Ok (the_response (Ok
      {| code := 200;
         body := [("success", VBool true);
                  ("transaction_id", VStr "faucet_1700000000000_k3j9x0q1z");
                  ("txHash", VStr "0xfa"); ("status", VStr "submitted");
                  ("message", VStr "Faucet funding submitted successfully");
                  ("amount", VStr "1.0")] |})), w')
    /\ faucet Demo.friendly Demo.faucet_request w' = (Ok already_funded, w').
Proof. eexists. split; vm_compute; reflexivity. Qed.


(** The node never reports a receipt: sixty polls, then the time-out. *)
Example unseen_payment_marked_failed :
  exists w',
    run_monitor Demo.friendly (now Demo.world0)
                (WatchPayment [Demo.sender_record] "0xabc") Demo.world0
    = (Ok (Some tt), w')
    /\ List.length (List.filter (fun e => match e with
                                          | GetTransactionReceipt _ => true
                                          | _ => false
                                          end) (trace w')) = 60%nat
    /\ List.last (trace w') MathRandom
       = UpdateTransaction "0xabc" Failed
           [("transaction_id", VStr "wallet_1700000000005_k3j9x0q1z_sender");
            ("transaction_db_id", js_int 7);
            ("error_message", VStr "Timeout waiting for transaction receipt")].
Proof. eexists. split; [vm_compute; reflexivity|]. split; vm_compute; reflexivity. Qed.

End AppSpec.

(* ===================================================================== *)
(** ** Properties of the vault *)
(* ===================================================================== *)

Module VaultSpec.
Import Chars Bytes Js Vault.

(** *** Hex *)

Lemma hex_decode_encode_byte (b : byte) (r : string) :
  hex_decode (String (hex_digit (b2z b / 16)) (String (hex_digit (b2z b mod 16)) r))
  = b :: hex_decode r.
Proof. destruct b as [[] [] [] [] [] [] [] []]; reflexivity. Qed.

Lemma hex_decode_encode (bs : list byte) : hex_decode (hex_encode bs) = bs.
Proof.
  induction bs as [|b r IH]; [reflexivity|].
  cbn [hex_encode]. rewrite hex_decode_encode_byte, IH. reflexivity.
Qed.

Lemma hex_digits_lower (b : byte) :
  is_lower_hex (hex_digit (b2z b / 16)) && is_lower_hex (hex_digit (b2z b mod 16)) = true.
Proof. destruct b as [[] [] [] [] [] [] [] []]; reflexivity. Qed.

Lemma hex_encode_lower (bs : list byte) : all_chars is_lower_hex (hex_encode bs) = true.
Proof.
  induction bs as [|b r IH]; [reflexivity|].
  cbn [hex_encode all_chars]. rewrite IH, andb_true_r. apply hex_digits_lower.
Qed.

(** *** Xor and the counter mode *)

Lemma bxor_involutive (a k : byte) : bxor (bxor a k) k = a.
Proof.
  destruct a as [a0 a1 a2 a3 a4 a5 a6 a7], k as [k0 k1 k2 k3 k4 k5 k6 k7].
  cbn [bxor]. f_equal; (rewrite xorb_assoc, xorb_nilpotent; apply xorb_false_r).
Qed.

Lemma xor_bytes_length (a k : list byte) :
  List.length (xor_bytes a k) = Nat.min (List.length a) (List.length k).
Proof.
  revert k. induction a as [|x a IH]; intros [|y k]; cbn; try reflexivity.
  rewrite IH. reflexivity.
Qed.

Lemma xor_bytes_involutive (a k : list byte) :
  (List.length a <= List.length k)%nat -> xor_bytes (xor_bytes a k) k = a.
Proof.
  revert k. induction a as [|x a IH]; intros [|y k] H; cbn in *; try reflexivity; try lia.
  rewrite bxor_involutive, IH by lia. reflexivity.
Qed.

Lemma encrypt_block_length (key block : list byte) :
  List.length (AES.encrypt_block key block) = 16%nat.
Proof.
  unfold AES.encrypt_block. rewrite xor_bytes_length.
  unfold AES.shift_rows, AES.round_key. rewrite length_map, length_seq. reflexivity.
Qed.

Section Mode.

Variable E : list byte -> list byte.
Hypothesis E_length : forall b, List.length (E b) = 16%nat.

Lemma gctr_nil (n : nat) (ctr : Z) : GCM.gctr E n ctr [] = [].
Proof.
  revert ctr. induction n as [|n IH]; intros ctr; [reflexivity|].
  cbn [GCM.gctr]. rewrite IH. reflexivity.
Qed.

Lemma gctr_round_trip (n : nat) (ctr : Z) (bs : list byte) :
  (List.length bs <= 16 * n)%nat ->
  List.length (GCM.gctr E n ctr bs) = List.length bs
  /\ GCM.gctr E n ctr (GCM.gctr E n ctr bs) = bs.
Proof using E_length.
  revert ctr bs. induction n as [|n IH]; intros ctr bs Hlen.
  - destruct bs; [split; reflexivity|cbn in Hlen; lia].
  - cbn [GCM.gctr].
    set (ks := E (GCM.bytes_of_block ctr)).
    assert (Hks : List.length ks = 16%nat) by apply E_length.
    assert (Hfirst : (List.length (List.firstn 16 bs) <= List.length ks)%nat).
    { rewrite length_firstn, Hks. lia. }
    destruct (IH (GCM.inc32 ctr) (List.skipn 16 bs)) as [Hl Hr].
    { rewrite length_skipn. lia. }
    set (X := xor_bytes (List.firstn 16 bs) ks) in *.
    set (R := GCM.gctr E n (GCM.inc32 ctr) (List.skipn 16 bs)) in *.
    assert (HX : List.length X = List.length (List.firstn 16 bs)).
    { unfold X. rewrite xor_bytes_length. lia. }
    split.
    + rewrite length_app, HX, Hl, length_firstn, length_skipn. lia.
    + destruct (Nat.le_gt_cases 16 (List.length bs)) as [Hge|Hlt].
      * assert (HX16 : List.length X = 16%nat).
        { rewrite HX, length_firstn. lia. }
        rewrite firstn_app, skipn_app, HX16, Nat.sub_diag.
        cbn [List.firstn List.skipn]. rewrite app_nil_r.
        rewrite firstn_all2 by lia. rewrite skipn_all2 by lia.
        cbn [app]. unfold X. rewrite xor_bytes_involutive by exact Hfirst.
        change (List.skipn 0 R) with R. rewrite Hr. apply firstn_skipn.
      * assert (Hskip : List.skipn 16 bs = []) by (apply skipn_all2; lia).
        assert (HR : R = []) by (unfold R; rewrite Hskip; apply gctr_nil).
        rewrite HR, app_nil_r.
        assert (HXlt : (List.length X < 16)%nat).
        { rewrite HX, length_firstn. lia. }
        rewrite firstn_all2 by lia. rewrite skipn_all2 by lia.
        rewrite gctr_nil, app_nil_r. unfold X.
        rewrite xor_bytes_involutive by exact Hfirst.
        apply firstn_all2. lia.
Qed.

Lemma chunk_count_covers (bs : list byte) :
  (List.length bs <= 16 * GCM.chunk_count bs)%nat.
Proof.
  unfold GCM.chunk_count.
  pose proof (Nat.div_mod_eq (List.length bs + 15) 16) as H.
  pose proof (Nat.mod_upper_bound (List.length bs + 15) 16) as H'. lia.
Qed.

Lemma ctr_crypt_length (iv bs : list byte) :
  List.length (GCM.ctr_crypt E iv bs) = List.length bs.
Proof using E_length.
  unfold GCM.ctr_crypt. apply gctr_round_trip, chunk_count_covers.
Qed.

Lemma ctr_crypt_round_trip (iv bs : list byte) :
  GCM.ctr_crypt E iv (GCM.ctr_crypt E iv bs) = bs.
Proof using E_length.
  unfold GCM.ctr_crypt at 1. unfold GCM.chunk_count. rewrite ctr_crypt_length.
  apply gctr_round_trip, chunk_count_covers.
Qed.

Lemma tag_of_length (iv aad ct : list byte) :
  List.length (GCM.tag_of E iv aad ct) = 16%nat.
Proof using E_length.
  unfold GCM.tag_of. rewrite xor_bytes_length, E_length.
  unfold GCM.bytes_of_block, GCM.bytes_of_z. rewrite length_map, length_seq. reflexivity.
Qed.

End Mode.

Lemma bytes_eqb_refl (a : list byte) : bytes_eqb a a = true.
Proof.
  induction a as [|x a IH]; [reflexivity|].
  cbn [bytes_eqb]. rewrite Ascii.eqb_refl, IH. reflexivity.
Qed.


(** *** UTF-8 *)

(** A string without unpaired surrogates (every unit being a 16-bit number). *)
Fixpoint well_formed (t : jstring) : bool :=
  match t with
  | [] => true
  | u :: r =>
      (0 <=? u) && (u <? 65536)
      && (if is_high_surrogate u then
            match r with
            | v :: r' => is_low_surrogate v && well_formed r'
            | [] => false
            end
          else negb (is_low_surrogate u) && well_formed r)
  end.

(** A Unicode scalar value: a code point that is not a surrogate. *)
Definition scalar (cp : Z) : Prop :=
  0 <= cp < 0x110000 /\ ~ (0xD800 <= cp <= 0xDFFF).

Lemma b2z_z2b (z : Z) : 0 <= z < 256 -> b2z (z2b z) = z.
Proof.
  intros H. unfold b2z, z2b. rewrite N_ascii_embedding by lia. lia.
Qed.

Ltac zlia := Z.div_mod_to_equations; lia.

Ltac split_tests :=
  repeat match goal with
         | |- context [?a <=? ?b] => destruct (Z.leb_spec a b); try (exfalso; lia)
         | |- context [?a <? ?b] => destruct (Z.ltb_spec a b); try (exfalso; lia)
         | |- context [?a =? ?b] => destruct (Z.eqb_spec a b); try (exfalso; lia)
         end.

Lemma d_start_1 (b : Z) : 0 <= b <= 0x7F -> d_start b = ([b], d_init).
Proof. intros H. unfold d_start. split_tests; reflexivity. Qed.

Lemma d_start_2 (b : Z) :
  0xC2 <= b <= 0xDF ->
  d_start b = ([], {| d_cp := b - 0xC0; d_needed := 1; d_lower := 0x80; d_upper := 0xBF |}).
Proof. intros H. unfold d_start. split_tests; reflexivity. Qed.

Lemma d_start_3 (b : Z) :
  0xE0 <= b <= 0xEF ->
  d_start b = ([], {| d_cp := b - 0xE0; d_needed := 2;
                      d_lower := if b =? 0xE0 then 0xA0 else 0x80;
                      d_upper := if b =? 0xED then 0x9F else 0xBF |}).
Proof.
  intros H. unfold d_start.
  destruct (Z.leb_spec b 0x7F); [exfalso; lia|].
  destruct (Z.leb_spec 0xC2 b); [|exfalso; lia].
  destruct (Z.leb_spec b 0xDF); [exfalso; lia|].
  destruct (Z.leb_spec 0xE0 b); [|exfalso; lia].
  destruct (Z.leb_spec b 0xEF); [|exfalso; lia].
  reflexivity.
Qed.

Lemma d_start_4 (b : Z) :
  0xF0 <= b <= 0xF4 ->
  d_start b = ([], {| d_cp := b - 0xF0; d_needed := 3;
                      d_lower := if b =? 0xF0 then 0x90 else 0x80;
                      d_upper := if b =? 0xF4 then 0x8F else 0xBF |}).
Proof.
  intros H. unfold d_start.
  destruct (Z.leb_spec b 0x7F); [exfalso; lia|].
  destruct (Z.leb_spec 0xC2 b); [|exfalso; lia].
  destruct (Z.leb_spec b 0xDF); [exfalso; lia|].
  destruct (Z.leb_spec 0xE0 b); [|exfalso; lia].
  destruct (Z.leb_spec b 0xEF); [exfalso; lia|].
  destruct (Z.leb_spec 0xF0 b); [|exfalso; lia].
  destruct (Z.leb_spec b 0xF4); [|exfalso; lia].
  reflexivity.
Qed.

Lemma d_step_start (b : Z) : d_step d_init b = d_start b.
Proof. reflexivity. Qed.

Lemma d_step_last (cp lower upper b : Z) :
  lower <= b <= upper ->
  d_step {| d_cp := cp; d_needed := 1; d_lower := lower; d_upper := upper |} b
  = ([cp * 64 + (b - 0x80)], d_init).
Proof.
  intros H. unfold d_step. cbn [d_needed d_lower d_upper d_cp Z.eqb].
  destruct (Z.leb_spec lower b); [|exfalso; lia].
  destruct (Z.leb_spec b upper); [|exfalso; lia].
  reflexivity.
Qed.

Lemma d_step_more (cp needed lower upper b : Z) :
  1 < needed -> lower <= b <= upper ->
  d_step {| d_cp := cp; d_needed := needed; d_lower := lower; d_upper := upper |} b
  = ([], {| d_cp := cp * 64 + (b - 0x80); d_needed := needed - 1;
            d_lower := 0x80; d_upper := 0xBF |}).
Proof.
  intros Hn H. unfold d_step. cbn [d_needed d_lower d_upper d_cp].
  destruct (Z.eqb_spec needed 0); [exfalso; lia|].
  destruct (Z.leb_spec lower b); [|exfalso; lia].
  destruct (Z.leb_spec b upper); [|exfalso; lia].
  destruct (Z.eqb_spec needed 1); [exfalso; lia|].
  reflexivity.
Qed.

Lemma utf8_run_cons (st : dstate) (b : byte) (r : list byte) :
  utf8_run st (b :: r)
  = (fst (d_step st (b2z b)) ++ utf8_run (snd (d_step st (b2z b))) r)%list.
Proof. cbn [utf8_run]. destruct (d_step st (b2z b)). reflexivity. Qed.

Lemma utf8_run_code_point (cp : Z) (rest : list byte) :
  scalar cp ->
  utf8_run d_init (utf8_of_code_point cp ++ rest)%list = cp :: utf8_run d_init rest.
Proof.
  intros [Hr Hs]. unfold utf8_of_code_point.
  destruct (Z.ltb_spec cp 0x80) as [H1|H1].
  { cbn [app]. rewrite utf8_run_cons, b2z_z2b by lia.
    rewrite d_step_start, d_start_1 by lia. reflexivity. }
  destruct (Z.ltb_spec cp 0x800) as [H2|H2].
  { cbn [app]. rewrite !utf8_run_cons, !b2z_z2b by zlia.
    rewrite d_step_start, d_start_2 by zlia. cbn [fst snd app].
    rewrite d_step_last by zlia. cbn [fst snd app]. f_equal. zlia. }
  destruct (Z.ltb_spec cp 0x10000) as [H3|H3].
  { cbn [app]. rewrite !utf8_run_cons, !b2z_z2b by zlia.
    rewrite d_step_start, d_start_3 by zlia. cbn [fst snd app].
    rewrite d_step_more; [|lia|].
    2:{ destruct (Z.eqb_spec (0xE0 + cp / 4096) 0xE0);
          destruct (Z.eqb_spec (0xE0 + cp / 4096) 0xED); zlia. }
    cbn [fst snd app]. rewrite d_step_last by zlia. cbn [fst snd app]. f_equal. zlia. }
  cbn [app]. rewrite !utf8_run_cons, !b2z_z2b by zlia.
  rewrite d_step_start, d_start_4 by zlia. cbn [fst snd app].
  rewrite d_step_more; [|lia|].
  2:{ destruct (Z.eqb_spec (0xF0 + cp / 262144) 0xF0);
        destruct (Z.eqb_spec (0xF0 + cp / 262144) 0xF4); zlia. }
  cbn [fst snd app]. rewrite d_step_more by zlia.
  cbn [fst snd app]. rewrite d_step_last by zlia. cbn [fst snd app]. f_equal. zlia.
Qed.

Lemma utf8_run_code_points (cps : list Z) :
  Forall scalar cps ->
  utf8_run d_init (List.concat (List.map utf8_of_code_point cps)) = cps.
Proof.
  induction 1 as [|cp cps Hcp _ IH]; [reflexivity|].
  cbn [List.map List.concat]. rewrite utf8_run_code_point by exact Hcp.
  rewrite IH. reflexivity.
Qed.

Lemma code_points_well_formed_upto (n : nat) (t : jstring) :
  (List.length t <= n)%nat ->
  well_formed t = true ->
  Forall scalar (code_points t)
  /\ List.concat (List.map utf16_of_code_point (code_points t)) = t.
Proof.
  revert t. induction n as [|n IH]; intros t Hlen Hwf.
  - destruct t; [split; [constructor|reflexivity]|cbn in Hlen; lia].
  - destruct t as [|u r]; [split; [constructor|reflexivity]|].
    cbn [well_formed] in Hwf. cbn [code_points].
    apply andb_true_iff in Hwf. destruct Hwf as [Hrange Hrest].
    apply andb_true_iff in Hrange. destruct Hrange as [H0 H1].
    apply Z.leb_le in H0. apply Z.ltb_lt in H1.
    destruct (is_high_surrogate u) eqn:Hh.
    + destruct r as [|v r']; [discriminate|].
      apply andb_true_iff in Hrest. destruct Hrest as [Hl Hwf'].
      rewrite Hl.
      unfold is_high_surrogate in Hh. unfold is_low_surrogate in Hl.
      apply andb_true_iff in Hh, Hl. destruct Hh as [Hh1 Hh2], Hl as [Hl1 Hl2].
      apply Z.leb_le in Hh1, Hh2, Hl1, Hl2.
      destruct (IH r') as [Hs Hc]; [cbn in Hlen; lia|exact Hwf'|].
      split.
      * constructor; [split; lia|exact Hs].
      * cbn [List.map List.concat]. rewrite Hc. unfold utf16_of_code_point.
        destruct (Z.ltb_spec (0x10000 + (u - 0xD800) * 0x400 + (v - 0xDC00)) 0x10000);
          [exfalso; lia|].
        cbn [app]. f_equal; [zlia|]. f_equal. zlia.
    + apply andb_true_iff in Hrest. destruct Hrest as [Hl Hwf'].
      apply negb_true_iff in Hl. rewrite Hl.
      destruct (IH r) as [Hs Hc]; [cbn in Hlen; lia|exact Hwf'|].
      unfold is_high_surrogate in Hh. unfold is_low_surrogate in Hl.
      apply andb_false_iff in Hh, Hl.
      assert (Hns : ~ (0xD800 <= u <= 0xDFFF)).
      { intros [Ha Hb].
        destruct (Z.le_gt_cases u 0xDBFF).
        - destruct Hh as [Hh|Hh]; [apply Z.leb_gt in Hh|apply Z.leb_gt in Hh]; lia.
        - destruct Hl as [Hl|Hl]; [apply Z.leb_gt in Hl|apply Z.leb_gt in Hl]; lia. }
      split.
      * constructor; [split; [lia|exact Hns]|exact Hs].
      * cbn [List.map List.concat]. rewrite Hc. unfold utf16_of_code_point.
        destruct (Z.ltb_spec u 0x10000); [reflexivity|exfalso; lia].
Qed.

(** Encoding to UTF-8 and back gives a string without unpaired surrogates
    back. *)
Lemma utf8_round_trip (t : jstring) :
  well_formed t = true -> utf8_decode (utf8_encode t) = t.
Proof.
  intros Hwf.
  destruct (code_points_well_formed_upto (List.length t) t (Nat.le_refl _) Hwf) as [Hs Hc].
  unfold utf8_decode, utf8_encode. rewrite utf8_run_code_points by exact Hs. exact Hc.
Qed.

(** *** Round trip *)

(** C10, as amended: for every plaintext string without unpaired
    surrogates and every 16-byte IV that [randomBytes] may draw, [decrypt]
    accepts what [encrypt] produced under the same 32-byte key and returns
    the plaintext. *)
Theorem decrypt_encrypt (key iv : list byte) (t : jstring) :
  List.length key = 32%nat ->
  List.length iv = IV_LENGTH ->
  well_formed t = true ->
  decrypt key (encrypt key iv t) = Ok t.
Proof.
  intros _ Hiv Hwf. unfold decrypt, encrypt, GCM.seal.
  cbn [Vault.iv Vault.content Vault.tag].
  rewrite !hex_decode_encode, Hiv.
  rewrite (tag_of_length _ (encrypt_block_length key)).
  cbn [Nat.eqb IV_LENGTH valid_tag_length Nat.leb orb andb negb].
  unfold tag_verifies.
  rewrite (tag_of_length _ (encrypt_block_length key)).
  rewrite firstn_all2
    by (rewrite (tag_of_length _ (encrypt_block_length key)); apply Nat.le_refl).
  rewrite bytes_eqb_refl.
  rewrite (ctr_crypt_round_trip _ (encrypt_block_length key)).
  rewrite utf8_round_trip by exact Hwf. reflexivity.
Qed.

(** C10, witness: the key of a wallet. *)
Lemma decrypt_encrypt_private_key :
  decrypt VaultTests.sample_key
          (encrypt VaultTests.sample_key VaultTests.sample_iv VaultTests.sample_text)
  = Ok VaultTests.sample_text.
Proof.
  apply (decrypt_encrypt VaultTests.sample_key VaultTests.sample_iv VaultTests.sample_text);
    reflexivity.
Defined.

(** C10, counterexample: the one-unit string ["\uD800"], a surrogate on its
    own, is encoded as U+FFFD and comes back as ["�"]. *)
Lemma lone_surrogate_does_not_round_trip :
  decrypt VaultTests.sample_key
          (encrypt VaultTests.sample_key VaultTests.sample_iv [0xD800])
  = Ok [0xFFFD].
Proof. vm_compute. reflexivity. Qed.

(** *** Failing closed *)









End VaultSpec.

(* ===================================================================== *)
(** ** Properties of the wallet store *)
(* ===================================================================== *)

Module WalletSpec.
Import Chars Bytes App AppSpec VaultSpec.

#[local] Arguments log : simpl never.
#[local] Arguments set_wallets : simpl never.
#[local] Arguments ToString : simpl never.
#[local] Arguments Vault.decrypt : simpl never.
#[local] Arguments Vault.encrypt : simpl never.
#[local] Arguments String.append : simpl never.
#[local] Arguments toLowerCase : simpl never.
#[local] Arguments get_prop : simpl never.
#[local] Arguments truthy : simpl never.
#[local] Arguments hex_encode : simpl never.
#[local] Arguments fix_length : simpl never.




(** The records of [wallet-store.json] as [loadWalletStore] reads them,
    in the order [Object.entries] gives them. *)
Definition stored_wallets (w : World) : list (string * WalletData) :=
  match wallet_file w with
  | Stored s => s
  | Absent | Unreadable => []
  end.

(** The record's address is the wanted one, letter case apart. *)
Definition same_address (walletAddress : string) (entry : string * WalletData) : Prop :=
  toLowerCase (address (snd entry)) = toLowerCase walletAddress.

Section Wallets.

Variable env : Oracle.

Lemma scan_wallets_first (walletAddress : string) before userId walletData after :
  Forall (fun e => ~ same_address walletAddress e) before ->
  same_address walletAddress (userId, walletData) ->
  scan_wallets env (before ++ (userId, walletData) :: after)%list (VStr walletAddress)
  = Vault.decrypt (ENCRYPTION_KEY env) (encryptedKey walletData).
Proof.
  intros Hb Hm. induction Hb as [|[u d] before Hne _ IH].
  - cbn [app scan_wallets to_lower]. unfold same_address in Hm. cbn [snd] in Hm.
    rewrite Hm, String.eqb_refl. reflexivity.
  - cbn [app scan_wallets to_lower]. unfold same_address in Hne. cbn [snd] in Hne.
    apply String.eqb_neq in Hne. rewrite Hne. exact IH.
Qed.

Lemma scan_wallets_none (walletAddress : string) entries :
  Forall (fun e => ~ same_address walletAddress e) entries ->
  scan_wallets env entries (VStr walletAddress)
  = Throw ("Private key not found for wallet: " ++ walletAddress).
Proof.
  induction 1 as [|[u d] entries Hne _ IH]; [reflexivity|].
  cbn [scan_wallets to_lower]. unfold same_address in Hne. cbn [snd] in Hne.
  apply String.eqb_neq in Hne. rewrite Hne. exact IH.
Qed.

Lemma getPrivateKeyForWallet_run (walletAddress : JsVal) (w : World) :
  getPrivateKeyForWallet env walletAddress w
  = (scan_wallets env (stored_wallets w) walletAddress, w).
Proof.
  unfold getPrivateKeyForWallet, loadWalletStore, stored_wallets, mbind, M_bind, lift.
  destruct (wallet_file w); reflexivity.
Qed.

(** C9: resolving the private key of an address scans the stored records
    in order and compares addresses without regard to letter case; the
    result is [decrypt] of the first record whose address matches, and the
    error "Private key not found for wallet: ..." when no record's address
    matches. The world is left as it was. *)
Theorem private_key_lookup (walletAddress : string) (w : World) :
  (forall before userId walletData after,
     stored_wallets w = (before ++ (userId, walletData) :: after)%list ->
     Forall (fun e => ~ same_address walletAddress e) before ->
     same_address walletAddress (userId, walletData) ->
     getPrivateKeyForWallet env (VStr walletAddress) w
     = (Vault.decrypt (ENCRYPTION_KEY env) (encryptedKey walletData), w))
  /\ (Forall (fun e => ~ same_address walletAddress e) (stored_wallets w) ->
      getPrivateKeyForWallet env (VStr walletAddress) w
      = (Throw ("Private key not found for wallet: " ++ walletAddress), w)).
Proof.
  split.
  - intros before userId walletData after Hs Hb Hm.
    rewrite getPrivateKeyForWallet_run, Hs. f_equal. apply scan_wallets_first; assumption.
  - intros Hnone. rewrite getPrivateKeyForWallet_run. f_equal.
    apply scan_wallets_none, Hnone.
Qed.

End Wallets.

(** C9, witness: Alice's record holds her address with capital letters;
    the look-up by the lower-case address finds it and decrypts her key. *)
Lemma alice_key_found :
  getPrivateKeyForWallet Demo.friendly (VStr Demo.alice) Demo.world0
  = (Ok (jstring_of Demo.alice_key), Demo.world0).
Proof.
  destruct (private_key_lookup Demo.friendly Demo.alice Demo.world0) as [Hfound _].
  rewrite (Hfound [] "1" Demo.alice_wallet []).
  - vm_compute. reflexivity.
  - reflexivity.
  - constructor.
  - reflexivity.
Defined.

Example unknown_wallet_not_found :
  getPrivateKeyForWallet Demo.friendly (VStr Demo.bob) Demo.world0
  = (Throw "Private key not found for wallet: 0x00000000000000000000000000000000000000bb",
     Demo.world0).
Proof. vm_compute. reflexivity. Qed.

(** *** Wallet creation *)

Section Creation.

Variable env : Oracle.









Lemma stored_wallets_log (e : Event) (w : World) :
  stored_wallets (log env e w) = stored_wallets w.
Proof. reflexivity. Qed.



End Creation.




End WalletSpec.

(* ===================================================================== *)
(** ** Properties of concurrent submissions *)
(* ===================================================================== *)

Module RaceSpec.
Import Chars Bytes App AppSpec Race.

#[local] Arguments log : simpl never.
#[local] Arguments getPrivateKeyForWallet : simpl never.

Section Submissions.

Variable env : Oracle.

Ltac nope := let H := fresh in intros H; cbv beta iota in H; discriminate H.

(** The four calls of a submission that got as far as the broadcast. *)
Definition submission_events (fromWallet : JsVal) (tx : TxObject) (privateKey : jstring)
  : list Event :=
  [GetTransactionCount fromWallet; GetGasPrice; SignTransaction tx;
   SendSignedTransaction {| raw_tx := tx; raw_signer := privateKey |}].

(** A submission that returns a receipt made its four calls in a row, and
    the nonce it signed is what the node reported when it was asked. *)
Lemma submission_accepted fromWallet toWallet amountWei gasLimit w r w' :
  sendTransactionWithPrivateKey env fromWallet toWallet amountWei gasLimit w = (Ok r, w') ->
  exists privateKey tx,
    getPrivateKeyForWallet env fromWallet w = (Ok privateKey, w)
    /\ count_reply env (trace w) fromWallet = Ok (tx_nonce tx)
    /\ trace w' = (trace w ++ submission_events fromWallet tx privateKey)%list
    /\ send_reply env (trace w ++ [GetTransactionCount fromWallet; GetGasPrice;
                                   SignTransaction tx])%list
                  {| raw_tx := tx; raw_signer := privateKey |} = Ok r.
Proof.
  unfold sendTransactionWithPrivateKey, stx_nonce, stx_gas_price, stx_sign, stx_send.
  munfold. rewrite WalletSpec.getPrivateKeyForWallet_run.
  destruct (scan_wallets env (WalletSpec.stored_wallets w) fromWallet) as [pk|]; [|nope].
  destruct (count_reply env (trace w) fromWallet) as [n|] eqn:Hn; [|nope].
  destruct (gas_price_reply env _) as [gp|]; [|nope].
  destruct (sign_reply env _ _ pk); [nope|].
  match goal with
  | |- context [send_reply env ?tr ?raw] => destruct (send_reply env tr raw) as [r'|] eqn:Hs
  end; [|nope].
  intros [= <- <-].
  exists pk, {| tx_nonce := n; tx_to := toWallet; tx_value := amountWei;
                tx_gasLimit := gasLimit; tx_gasPrice := gp |}.
  split; [reflexivity|]. split; [reflexivity|]. split.
  - rewrite !trace_log, <- !app_assoc. reflexivity.
  - rewrite !trace_log, <- !app_assoc in Hs. exact Hs.
Qed.




(** Run on its own, the four stretches are [sendTransactionWithPrivateKey]. *)
Lemma alone_is_send fromWallet toWallet amountWei gasLimit (other : Task) (w : World) :
  run_schedule env [false; false; false; false]
               (AtStart fromWallet toWallet amountWei gasLimit) other w
  = (Finished (fst (sendTransactionWithPrivateKey env fromWallet toWallet amountWei
                                                   gasLimit w)),
     other,
     snd (sendTransactionWithPrivateKey env fromWallet toWallet amountWei gasLimit w)).
Proof.
  unfold sendTransactionWithPrivateKey. cbn [run_schedule step]. unfold resume.
  unfold mbind, M_bind.
  destruct (stx_nonce env fromWallet w) as [[[pk n]|msg] w1]; [|reflexivity].
  cbn [step fst snd]. unfold resume.
  destruct (stx_gas_price env w1) as [[gp|msg] w2]; [|reflexivity].
  cbn [step]. unfold resume.
  destruct (stx_sign env _ pk w2) as [[raw|msg] w3]; [|reflexivity].
  cbn [step]. unfold resume.
  destruct (stx_send env raw w3) as [[r|msg] w4]; reflexivity.
Qed.

End Submissions.

(** A node that keeps the nonce rule for Alice's account. *)
Definition ruled : Oracle :=
  Demo.oracle Demo.two_eth (fun _ _ => Demo.created)
              (fun tr => chain_counter (jstring_of Demo.alice_key) tr)
              Demo.nonce_checked (fun _ => None).

Definition pay_bob (amountWei : Z) : Task :=
  AtStart (VStr Demo.alice) (VStr Demo.bob) amountWei default_gasLimit.

Definition is_finished_ok (t : Task) : bool :=
  match t with
  | Finished (Ok _) => true
  | _ => false
  end.




Example one_after_the_other_runs :
  exists a b w',
    run_schedule ruled [false; false; false; false; true; true; true; true]
                 (pay_bob 100) (pay_bob 200) Demo.world0 = (a, b, w')
    /\ is_finished_ok a = true /\ is_finished_ok b = true
    /\ broadcast_nonces (trace w') = [0; 1].
Proof.
  eexists; eexists; eexists. split; [vm_compute; reflexivity|]. repeat split.
Qed.

End RaceSpec.

(* ===================================================================== *)
(** ** The wallet store and the faucet marks *)
(* ===================================================================== *)

Module StoreSpec.
Import Chars Bytes App AppSpec WalletSpec.

#[local] Arguments log : simpl never.
#[local] Arguments ToString : simpl never.
#[local] Arguments get_prop : simpl never.
#[local] Arguments truthy : simpl never.
#[local] Arguments Vault.decrypt : simpl never.
#[local] Arguments Vault.encrypt : simpl never.
#[local] Arguments String.append : simpl never.
#[local] Arguments toLowerCase : simpl never.

(** *** Assignment to a key of the store *)












Section Store.

Variable env : Oracle.

(** *** A wallet just created *)





(** *** Marks in the funding store *)

(** Whether the eligibility query answers "eligible" for an address. *)
Definition eligible (walletAddress : JsVal) (w : World) : bool :=
  match funded_records w !! ToString env walletAddress with
  | None => true
  | Some e => negb (funded e)
  end.

Lemma eligible_query (walletAddress : JsVal) (w : World) :
  isWalletEligibleForBonus env walletAddress w = (Ok (eligible walletAddress w), w).
Proof. apply eligible_run. Qed.

(** The world after [markWalletFunded]: the store is rewritten with the
    mark, unless the disk refuses the write, which is only logged. *)
Definition after_mark (walletAddress : JsVal) (w : World) : World :=
  match write_fails env (trace w) with
  | None =>
      set_funded (Stored (<[ToString env walletAddress
                            := {| funded := true; timestamp := now w |}]> (funded_records w)))
                 (log env WriteFunded w)
  | Some _ => log env WriteFunded w
  end.

Lemma markWalletFunded_any (walletAddress : JsVal) (w : World) :
  markWalletFunded env walletAddress w = (Ok tt, after_mark walletAddress w).
Proof.
  unfold markWalletFunded, after_mark, funded_records. munfold.
  destruct (funded_file w); destruct (write_fails env (trace w)); reflexivity.
Qed.

Lemma after_mark_trace (walletAddress : JsVal) (w : World) :
  trace (after_mark walletAddress w) = (trace w ++ [WriteFunded])%list.
Proof. unfold after_mark. destruct (write_fails env (trace w)); reflexivity. Qed.

Lemma after_mark_wallets (walletAddress : JsVal) (w : World) :
  wallet_file (after_mark walletAddress w) = wallet_file w.
Proof. unfold after_mark. destruct (write_fails env (trace w)); reflexivity. Qed.

Lemma after_mark_spawned (walletAddress : JsVal) (w : World) :
  spawned (after_mark walletAddress w) = spawned w.
Proof. unfold after_mark. destruct (write_fails env (trace w)); reflexivity. Qed.

(** X13: [markWalletFunded] never fails and marks one spelling of one address:
    the mark is kept under the address exactly as it was written in the
    request, so that the answer for any other text, the same address in
    another letter case included, is what it was. An address once marked
    stays marked. When the disk refuses the write, the file is left as it
    was and nothing is reported to the caller. *)
Theorem marking_is_per_spelling (walletAddress : JsVal) (w : World) :
  exists w',
    markWalletFunded env walletAddress w = (Ok tt, w')
    /\ trace w' = (trace w ++ [WriteFunded])%list
    /\ (forall other,
          ToString env other <> ToString env walletAddress ->
          eligible other w' = eligible other w)
    /\ (eligible walletAddress w = false -> eligible walletAddress w' = false)
    /\ match write_fails env (trace w) with
       | None => eligible walletAddress w' = false
       | Some _ => funded_file w' = funded_file w
       end.
Proof.
  exists (after_mark walletAddress w).
  split; [apply markWalletFunded_any|]. split; [apply after_mark_trace|].
  unfold after_mark, eligible.
  destruct (write_fails env (trace w)) as [msg|] eqn:Hdisk.
  - repeat split; auto.
  - assert (Hset : forall m w0, funded_records (set_funded (Stored m) w0) = m)
      by reflexivity.
    rewrite !Hset.
    split; [intros other Hne; rewrite lookup_insert_ne by congruence; reflexivity|].
    rewrite lookup_insert_eq. split; reflexivity.
Qed.

End Store.





(** X13, witness: marking Alice's address leaves Bob's eligible. *)
Lemma marking_alice_leaves_bob :
  exists w',
    markWalletFunded Demo.friendly (VStr Demo.alice) Demo.world0 = (Ok tt, w')
    /\ eligible Demo.friendly (VStr Demo.bob) w'
       = eligible Demo.friendly (VStr Demo.bob) Demo.world0
    /\ eligible Demo.friendly (VStr Demo.alice) w' = false.
Proof.
  destruct (marking_is_per_spelling Demo.friendly (VStr Demo.alice) Demo.world0)
    as (w' & Hrun & _ & Hother & _ & Hmark).
  exists w'. split; [exact Hrun|]. split.
  - apply Hother. vm_compute. discriminate.
  - assert (Hw : write_fails Demo.friendly (trace Demo.world0) = None)
      by (vm_compute; reflexivity).
    rewrite Hw in Hmark. exact Hmark.
Defined.

End StoreSpec.

(* ===================================================================== *)
(** ** Wei and ether as decimal texts *)
(* ===================================================================== *)

Module UnitsSpec.
Import Chars Web3Utils.

#[local] Arguments String.append : simpl never.

(** *** Decimal digits *)

Lemma append_assoc (s t u : string) : (s ++ t) ++ u = s ++ (t ++ u).
Proof.
  induction s as [|c s IH]; [reflexivity|].
  change ((String c s ++ t) ++ u) with (String c ((s ++ t) ++ u)). rewrite IH. reflexivity.
Qed.

Lemma append_nil_r (s : string) : s ++ "" = s.
Proof.
  induction s as [|c s IH]; [reflexivity|].
  change (String c s ++ "") with (String c (s ++ "")). rewrite IH. reflexivity.
Qed.

Lemma digits_val_app (a : Z) (s t : string) :
  digits_val a (s ++ t) = digits_val (digits_val a s) t.
Proof.
  revert a. induction s as [|c s IH]; intros a; [reflexivity|].
  change (String c s ++ t) with (String c (s ++ t)). cbn [digits_val]. apply IH.
Qed.

Lemma str_len_app (s t : string) : str_len (s ++ t) = (str_len s + str_len t)%nat.
Proof.
  induction s as [|c s IH]; [reflexivity|].
  change (String c s ++ t) with (String c (s ++ t)). cbn [str_len]. rewrite IH. reflexivity.
Qed.

Lemma all_chars_append (p : ascii -> bool) (s t : string) :
  all_chars p (s ++ t) = all_chars p s && all_chars p t.
Proof.
  induction s as [|c s IH]; [reflexivity|].
  change (String c s ++ t) with (String c (s ++ t)). cbn [all_chars].
  rewrite IH, andb_assoc. reflexivity.
Qed.

Definition digit_char (d : Z) : ascii := ascii_of_N (Z.to_N (48 + d)).

Lemma digit_char_spec (d : Z) :
  0 <= d < 10 ->
  is_digit (digit_char d) = true /\ digit_val (digit_char d) = d /\ code (digit_char d) <> 46
  /\ code (digit_char d) <> 45 /\ (code (digit_char d) =? 48) = (d =? 0).
Proof.
  intros H.
  assert (C : d = 0 \/ d = 1 \/ d = 2 \/ d = 3 \/ d = 4 \/ d = 5 \/ d = 6 \/ d = 7 \/ d = 8
              \/ d = 9) by lia.
  repeat (destruct C as [-> |C]); try subst d; vm_compute; repeat split; congruence.
Qed.

(** A text of decimal digits that reads as [n]. *)
Definition reads_as (s : string) (n : Z) : Prop :=
  all_chars is_digit s = true
  /\ s <> ""
  /\ (forall a, digits_val a s = a * 10 ^ Z.of_nat (str_len s) + n)
  /\ 0 <= n < 10 ^ Z.of_nat (str_len s)
  /\ (str_len s = 1%nat \/ 10 ^ (Z.of_nat (str_len s) - 1) <= n).

Lemma dec_digits_reads (fuel : nat) (n : Z) (acc : string) :
  (0 < fuel)%nat ->
  0 <= n < 2 ^ Z.of_nat fuel ->
  exists s, dec_digits fuel n acc = s ++ acc /\ reads_as s n.
Proof.
  revert n acc. induction fuel as [|fuel IH]; intros n acc Hpos Hn; [lia|].
  - cbn [dec_digits]. fold (digit_char (n mod 10)).
    destruct (digit_char_spec (n mod 10)) as (Hd & Hv & _).
    { apply Z.mod_pos_bound. lia. }
    destruct (n <? 10) eqn:Hlt.
    + apply Z.ltb_lt in Hlt. exists (String (digit_char (n mod 10)) "").
      split; [reflexivity|]. unfold reads_as. cbn [all_chars str_len digits_val].
      rewrite Hd, Hv, Z.mod_small by lia. repeat split; try lia; try discriminate.
    + apply Z.ltb_ge in Hlt.
      assert (Hfuel : 0 <= n / 10 < 2 ^ Z.of_nat fuel).
      { split; [apply Z.div_pos; lia|].
        apply Z.div_lt_upper_bound; [lia|].
        rewrite Nat2Z.inj_succ, Z.pow_succ_r in Hn by lia. lia. }
      assert (Hpos' : (0 < fuel)%nat).
      { destruct fuel; [cbn in Hfuel; lia|lia]. }
      destruct (IH (n / 10) (String (digit_char (n mod 10)) acc) Hpos' Hfuel)
        as (s' & Hrun & Hall & Hne & Hval & [Hlo Hhi] & Hcan).
      exists (s' ++ String (digit_char (n mod 10)) "").
      split.
      { rewrite Hrun, append_assoc. reflexivity. }
      unfold reads_as. rewrite all_chars_append, str_len_app, Hall.
      cbn [all_chars str_len]. rewrite Hd.
      replace (Z.of_nat (str_len s' + 1)) with (Z.of_nat (str_len s') + 1) by lia.
      rewrite Z.pow_add_r by lia. change (10 ^ 1) with 10.
      pose proof (Z.div_mod n 10 ltac:(lia)) as Hdm.
      pose proof (Z.mod_pos_bound n 10 ltac:(lia)) as Hmod.
      split; [reflexivity|]. split; [destruct s'; discriminate|].
      split; [|split; [lia|]].
      { intros a. rewrite digits_val_app, Hval. cbn [digits_val]. rewrite Hv. lia. }
      right. replace (Z.of_nat (str_len s') + 1 - 1) with (Z.of_nat (str_len s')) by lia.
      destruct Hcan as [H1|Hcan].
      * rewrite H1. change (10 ^ Z.of_nat 1) with 10. lia.
      * assert (Hs' : (0 < str_len s')%nat) by (destruct s'; [congruence|cbn; lia]).
        replace (Z.of_nat (str_len s')) with (Z.of_nat (str_len s') - 1 + 1) by lia.
        rewrite Z.pow_add_r by lia. change (10 ^ 1) with 10. lia.
Qed.

Lemma dec_of_Z_reads (n : Z) : 0 <= n -> reads_as (dec_of_Z n) n.
Proof.
  intros Hn. unfold dec_of_Z. replace (n <? 0) with false by (symmetry; apply Z.ltb_ge; lia).
  destruct (dec_digits_reads (S (Z.to_nat (Z.log2 n))) n "") as (s & Hrun & Hs).
  - lia.
  - split; [exact Hn|]. rewrite Nat2Z.inj_succ, Z2Nat.id by apply Z.log2_nonneg.
    destruct (Z.eq_dec n 0) as [-> |Hne]; [cbn; lia|].
    apply Z.log2_spec. lia.
  - rewrite Hrun, append_nil_r. exact Hs.
Qed.

(** The decimal text of a number below [10 ^ k] has at most [k] digits. *)
Lemma reads_as_short (s : string) (n : Z) (k : nat) :
  reads_as s n -> (0 < k)%nat -> n < 10 ^ Z.of_nat k -> (str_len s <= k)%nat.
Proof.
  intros (_ & _ & _ & _ & [H1|Hcan]) Hk Hn; [lia|].
  destruct (Nat.le_gt_cases (str_len s) k) as [Hle|Hgt]; [exact Hle|exfalso].
  assert (10 ^ Z.of_nat k <= 10 ^ (Z.of_nat (str_len s) - 1)).
  { apply Z.pow_le_mono_r; lia. }
  lia.
Qed.

(** *** Padding *)

Lemma prepend_zeros_spec (k : nat) (s : string) :
  str_len (prepend_zeros k s) = (k + str_len s)%nat
  /\ digits_val 0 (prepend_zeros k s) = digits_val 0 s
  /\ all_chars is_digit (prepend_zeros k s) = all_chars is_digit s.
Proof.
  revert s. induction k as [|k IH]; intros s; [repeat split|].
  cbn [prepend_zeros]. destruct (IH (String "0"%char s)) as (Hl & Hv & Ha).
  rewrite Hl, Hv, Ha. cbn [str_len]. repeat split. lia.
Qed.

Lemma pad_right_nil_val (k : nat) (a : Z) :
  digits_val a (pad_right k "") = a * 10 ^ Z.of_nat k.
Proof.
  revert a. induction k as [|k IH]; intros a; [cbn; lia|].
  cbn [pad_right digits_val]. rewrite IH.
  rewrite Nat2Z.inj_succ, Z.pow_succ_r by lia. change (digit_val "0") with 0. lia.
Qed.

(** The zeros [fromWei] strips from the fraction are the zeros [toWei] pads
    it with. *)
Lemma pad_right_strip (s : string) (k : nat) :
  pad_right (str_len s + k) (strip_trailing_zeros s) = s ++ pad_right k "".
Proof.
  induction s as [|c s IH]; [reflexivity|].
  change (String c s ++ pad_right k "") with (String c (s ++ pad_right k "")).
  cbn [strip_trailing_zeros str_len Nat.add].
  destruct (strip_trailing_zeros s) as [|c' r'] eqn:Hs.
  - destruct (code c =? 48) eqn:Hc.
    + cbn [pad_right]. rewrite IH. f_equal.
      apply Z.eqb_eq in Hc. unfold code in Hc.
      apply (f_equal Z.to_N) in Hc. rewrite N2Z.id in Hc.
      apply (f_equal ascii_of_N) in Hc. rewrite ascii_N_embedding in Hc. symmetry. exact Hc.
    + cbn [pad_right]. rewrite IH. reflexivity.
  - cbn [pad_right]. rewrite IH. reflexivity.
Qed.

Lemma strip_trailing_zeros_digits (s : string) :
  all_chars is_digit s = true ->
  all_chars is_digit (strip_trailing_zeros s) = true
  /\ (str_len (strip_trailing_zeros s) <= str_len s)%nat.
Proof.
  induction s as [|c s IH]; [intros _; split; [reflexivity|cbn; lia]|].
  cbn [all_chars]. intros H. apply andb_true_iff in H. destruct H as [Hc Hs].
  destruct (IH Hs) as [Ha Hl]. cbn [strip_trailing_zeros str_len].
  destruct (strip_trailing_zeros s) as [|c' r'].
  - destruct (code c =? 48); cbn [all_chars str_len]; [split; [reflexivity|lia]|].
    rewrite Hc. split; [reflexivity|lia].
  - cbn [all_chars str_len] in *. rewrite Hc, Ha. split; [reflexivity|lia].
Qed.

(** *** Splitting at the dot *)

Lemma digit_is_no_dot (c : ascii) : is_digit c = true -> (code c =? 46) = false.
Proof.
  unfold is_digit. intros H. apply andb_true_iff in H. destruct H as [H _].
  apply Z.leb_le in H. apply Z.eqb_neq. lia.
Qed.

Lemma split_dot_digits (s : string) : all_chars is_digit s = true -> split_dot s = [s].
Proof.
  induction s as [|c s IH]; [reflexivity|].
  cbn [all_chars]. intros H. apply andb_true_iff in H. destruct H as [Hc Hs].
  cbn [split_dot]. rewrite (digit_is_no_dot c Hc), (IH Hs). reflexivity.
Qed.

Lemma split_dot_fraction (s t : string) :
  all_chars is_digit s = true -> all_chars is_digit t = true ->
  split_dot (s ++ "." ++ t) = [s; t].
Proof.
  intros Hs Ht. induction s as [|c s IH].
  - change ("" ++ "." ++ t) with (String "."%char t). cbn [split_dot].
    change (code "." =? 46) with true. cbv iota. rewrite (split_dot_digits t Ht). reflexivity.
  - cbn [all_chars] in Hs. apply andb_true_iff in Hs. destruct Hs as [Hc Hs].
    change (String c s ++ "." ++ t) with (String c (s ++ "." ++ t)).
    cbn [split_dot]. rewrite (digit_is_no_dot c Hc), (IH Hs). reflexivity.
Qed.

(** *** From wei to ether and back *)

Lemma toWei_digits (whole : string) (q : Z) :
  reads_as whole q -> toWei whole = Js.Ok (q * pow18).
Proof.
  intros (Hall & Hne & Hval & _).
  destruct whole as [|c r]; [congruence|].
  cbn [all_chars] in Hall. apply andb_true_iff in Hall. destruct Hall as [Hc Hr].
  assert (H45 : (code c =? 45) = false).
  { unfold is_digit in Hc. apply andb_true_iff in Hc. destruct Hc as [Hc _].
    apply Z.leb_le in Hc. apply Z.eqb_neq. lia. }
  unfold toWei. rewrite H45.
  assert (Hbody : all_chars (fun c => is_digit c || (code c =? 46)) (String c r) = true).
  { cbn [all_chars]. rewrite Hc. cbn [orb andb].
    clear - Hr. induction r as [|c' r IH]; [reflexivity|].
    cbn [all_chars] in *. apply andb_true_iff in Hr. destruct Hr as [-> Hr].
    cbn [orb andb]. apply IH, Hr. }
  assert (Hdot : String.eqb (String c r) "." = false).
  { cbn [String.eqb]. destruct (Ascii.eqb c ".") eqn:E; [|reflexivity].
    apply Ascii.eqb_eq in E. subst c. discriminate Hc. }
  assert (Hnil : String.eqb (String c r) "" = false) by reflexivity.
  rewrite Hbody, Hnil, Hdot. cbn [negb orb].
  rewrite split_dot_digits by (cbn [all_chars]; rewrite Hc, Hr; reflexivity).
  rewrite Hval. f_equal. lia.
Qed.

Lemma toWei_decimal (whole fraction : string) (q : Z) :
  reads_as whole q ->
  all_chars is_digit fraction = true -> (str_len fraction <= 18)%nat ->
  toWei (whole ++ "." ++ fraction)
  = Js.Ok (q * pow18 + digits_val 0 (pad_right 18 fraction)).
Proof.
  intros (Hall & Hne & Hval & _) Hf Hlen.
  destruct whole as [|c r]; [congruence|].
  pose proof Hall as Hall'.
  cbn [all_chars] in Hall. apply andb_true_iff in Hall. destruct Hall as [Hc Hr].
  assert (H45 : (code c =? 45) = false).
  { unfold is_digit in Hc. apply andb_true_iff in Hc. destruct Hc as [Hc _].
    apply Z.leb_le in Hc. apply Z.eqb_neq. lia. }
  assert (Hmono : forall u, all_chars is_digit u = true ->
                            all_chars (fun c => is_digit c || (code c =? 46)) u = true).
  { induction u as [|c' u IH]; [reflexivity|].
    cbn [all_chars]. intros H. apply andb_true_iff in H. destruct H as [-> H].
    cbn [orb andb]. apply IH, H. }
  change (String c r ++ "." ++ fraction) with (String c (r ++ "." ++ fraction)).
  unfold toWei. rewrite H45.
  change (String c (r ++ "." ++ fraction)) with (String c r ++ "." ++ fraction).
  rewrite !all_chars_append, (Hmono _ Hall'), (Hmono _ Hf).
  change (all_chars (fun c0 => is_digit c0 || (code c0 =? 46)) ".") with true.
  cbn [andb negb orb].
  assert (Hdot : String.eqb (String c r ++ "." ++ fraction) "." = false).
  { change (String c r ++ "." ++ fraction) with (String c (r ++ "." ++ fraction)).
    cbn [String.eqb]. destruct (Ascii.eqb c ".") eqn:E; [|reflexivity].
    apply Ascii.eqb_eq in E. subst c. discriminate Hc. }
  assert (Hnil : String.eqb (String c r ++ "." ++ fraction) "" = false) by reflexivity.
  rewrite Hnil, Hdot.
  rewrite (split_dot_fraction _ _ Hall' Hf).
  replace (Nat.ltb 18 (str_len fraction)) with false by (symmetry; apply Nat.ltb_ge; exact Hlen).
  rewrite Hval. f_equal. lia.
Qed.

(** What [fromWei] writes, [toWei] reads back to the last wei. *)
Lemma toWei_fromWei (wei : Z) : 0 <= wei -> toWei (fromWei wei) = Js.Ok wei.
Proof.
  intros Hwei. unfold fromWei.
  assert (Hp : 0 < pow18) by (vm_compute; reflexivity).
  pose proof (Z.div_mod wei pow18 ltac:(lia)) as Hdm.
  pose proof (Z.mod_pos_bound wei pow18 Hp) as Hm.
  assert (Hq : 0 <= wei / pow18) by (apply Z.div_pos; lia).
  pose proof (dec_of_Z_reads (wei / pow18) Hq) as Hwhole.
  pose proof (dec_of_Z_reads (wei mod pow18) ltac:(lia)) as Hfrac.
  set (d := dec_of_Z (wei mod pow18)) in *.
  assert (Hshort : (str_len d <= 18)%nat).
  { apply (reads_as_short d (wei mod pow18) 18 Hfrac); [lia|].
    change (10 ^ Z.of_nat 18) with pow18. lia. }
  unfold pad_left.
  destruct (prepend_zeros_spec (18 - str_len d) d) as (Hl & Hv & Ha).
  set (p := prepend_zeros (18 - str_len d) d) in *.
  assert (Hp18 : str_len p = 18%nat) by lia.
  assert (Hpd : all_chars is_digit p = true) by (rewrite Ha; apply Hfrac).
  assert (Hpv : digits_val 0 p = wei mod pow18).
  { rewrite Hv. destruct Hfrac as (_ & _ & Hval & _). rewrite Hval. lia. }
  pose proof (pad_right_strip p 0) as Hstrip.
  rewrite Nat.add_0_r, Hp18 in Hstrip. change (pad_right 0 "") with "" in Hstrip.
  rewrite append_nil_r in Hstrip.
  destruct (strip_trailing_zeros_digits p Hpd) as [Hsd Hsl].
  destruct (String.eqb (strip_trailing_zeros p) "") eqn:E.
  - apply String.eqb_eq in E. rewrite E in Hstrip.
    assert (H0 : wei mod pow18 = 0).
    { rewrite <- Hpv, <- Hstrip, pad_right_nil_val. lia. }
    rewrite (toWei_digits _ _ Hwhole). f_equal. lia.
  - rewrite (toWei_decimal _ _ _ Hwhole Hsd) by lia.
    rewrite Hstrip, Hpv. f_equal. lia.
Qed.

End UnitsSpec.

(* ===================================================================== *)
(** ** The encryption key and the format of a record *)
(* ===================================================================== *)

Module KeySpec.
Import Chars Bytes Vault.

#[local] Arguments String.append : simpl never.

(** *** The key of the vault *)

Lemma hex_char (c : ascii) :
  is_hex c = true ->
  exists a, hex_value c = Some a /\ 0 <= a < 16 /\ hex_digit a = lower_char c.
Proof.
  destruct c as [[] [] [] [] [] [] [] []]; intros H; vm_compute in H; try discriminate H;
    eexists; (split; [reflexivity|split; [vm_compute; split; congruence|reflexivity]]).
Qed.

Lemma hex_decode_valid (n : nat) (s : string) :
  str_len s = (2 * n)%nat -> all_chars is_hex s = true ->
  List.length (hex_decode s) = n /\ hex_encode (hex_decode s) = toLowerCase s.
Proof.
  revert s. induction n as [|n IH]; intros s Hlen Hall.
  - destruct s; [split; reflexivity|discriminate Hlen].
  - destruct s as [|h [|l r]]; try (cbn in Hlen; lia).
    cbn [str_len] in Hlen. cbn [all_chars] in Hall.
    apply andb_true_iff in Hall. destruct Hall as [Hh Hall].
    apply andb_true_iff in Hall. destruct Hall as [Hl Hr].
    destruct (hex_char h Hh) as (a & Ha & Ra & Da).
    destruct (hex_char l Hl) as (b & Hb & Rb & Db).
    destruct (IH r ltac:(lia) Hr) as [IHl IHe].
    cbn [hex_decode]. rewrite Ha, Hb. cbn [List.length hex_encode toLowerCase].
    rewrite IHl, IHe, VaultSpec.b2z_z2b by lia.
    replace ((16 * a + b) / 16) with a by (apply Z.div_unique with b; lia).
    replace ((16 * a + b) mod 16) with b by (apply Z.mod_unique with a; lia).
    rewrite Da, Db. split; reflexivity.
Qed.

(** X14: The start-up check on [WALLET_ENC_KEY] lets through exactly the texts
    that make a key for AES-256: a text that passes is decoded by
    [Buffer.from(..., 'hex')] in full, to 32 bytes, which written in hex
    again give the text in lower case; a text that fails has another length
    than 64 or a character that is no hex digit. *)
Theorem accepted_key_is_32_bytes (WALLET_ENC_KEY : string) :
  (valid_WALLET_ENC_KEY WALLET_ENC_KEY = true ->
   List.length (hex_decode WALLET_ENC_KEY) = 32%nat
   /\ hex_encode (hex_decode WALLET_ENC_KEY) = toLowerCase WALLET_ENC_KEY)
  /\ (valid_WALLET_ENC_KEY WALLET_ENC_KEY = false ->
      str_len WALLET_ENC_KEY <> 64%nat \/ all_chars is_hex WALLET_ENC_KEY = false).
Proof.
  unfold valid_WALLET_ENC_KEY. split; intros H.
  - apply andb_true_iff in H. destruct H as [Hlen Hall].
    apply Nat.eqb_eq in Hlen. apply (hex_decode_valid 32); assumption.
  - apply andb_false_iff in H. destruct H as [H|H]; [left|right; exact H].
    apply Nat.eqb_neq, H.
Qed.

(** *** What [encrypt] writes *)

Lemma hex_encode_length (bs : list byte) : str_len (hex_encode bs) = (2 * List.length bs)%nat.
Proof.
  induction bs as [|b r IH]; [reflexivity|].
  cbn [hex_encode str_len List.length]. rewrite IH. lia.
Qed.

(** X15: The record [encrypt] returns is three texts of lower-case hex digits:
    the IV it drew, a ciphertext exactly as long as the UTF-8 form of the
    plaintext (counter mode adds no padding), and the full tag of 16 bytes. *)
Theorem encrypt_record_format (key iv : list byte) (text : jstring) :
  let e := encrypt key iv text in
  hex_decode (Vault.iv e) = iv
  /\ str_len (Vault.iv e) = (2 * List.length iv)%nat
  /\ str_len (Vault.content e) = (2 * List.length (utf8_encode text))%nat
  /\ str_len (Vault.tag e) = 32%nat
  /\ all_chars is_lower_hex (Vault.iv e) = true
  /\ all_chars is_lower_hex (Vault.content e) = true
  /\ all_chars is_lower_hex (Vault.tag e) = true.
Proof.
  unfold encrypt, GCM.seal. cbn [Vault.iv Vault.content Vault.tag].
  rewrite VaultSpec.hex_decode_encode, !hex_encode_length.
  rewrite (VaultSpec.ctr_crypt_length _ (VaultSpec.encrypt_block_length key)).
  rewrite (VaultSpec.tag_of_length _ (VaultSpec.encrypt_block_length key)).
  repeat split; apply VaultSpec.hex_encode_lower.
Qed.

(** X14, witness: a key of 64 hex digits, some of them capital letters. *)
Lemma mixed_case_key_is_accepted :
  List.length (hex_decode "000102030405060708090A0B0C0D0E0F101112131415161718191a1b1c1d1e1f")
  = 32%nat
  /\ hex_encode (hex_decode "000102030405060708090A0B0C0D0E0F101112131415161718191a1b1c1d1e1f")
     = toLowerCase "000102030405060708090A0B0C0D0E0F101112131415161718191a1b1c1d1e1f".
Proof.
  apply (proj1 (accepted_key_is_32_bytes
                  "000102030405060708090A0B0C0D0E0F101112131415161718191a1b1c1d1e1f")).
  vm_compute. reflexivity.
Defined.

End KeySpec.

(* ===================================================================== *)
(** ** The routes, request by request *)
(* ===================================================================== *)

Module RequestSpec.
Import Chars Bytes App AppSpec StoreSpec.

#[local] Arguments log : simpl never.
#[local] Arguments ToString : simpl never.
#[local] Arguments parseFloat : simpl never.
#[local] Arguments isAddress : simpl never.
#[local] Arguments Web3Utils.toWei : simpl never.
#[local] Arguments Web3Utils.fromWei : simpl never.
#[local] Arguments Num.parseFloat_string : simpl never.
#[local] Arguments dec_of_Z : simpl never.
#[local] Arguments js_int : simpl never.
#[local] Arguments String.append : simpl never.
#[local] Arguments toLowerCase : simpl never.
#[local] Arguments get_prop : simpl never.
#[local] Arguments truthy : simpl never.
#[local] Arguments create_result : simpl never.
#[local] Arguments update_result : simpl never.

(** A response that only says what is wrong with the request. *)
Definition refused (resp : Response) : Prop := code resp = 400 \/ code resp = 500.

Ltac refuse := eexists; split; [reflexivity|]; first [left; reflexivity|right; reflexivity].

Section Requests.

Variable env : Oracle.

(** The amounts a route accepts lie in [(0, ceiling]]. *)
Definition out_of_range (ceiling : float) (amountEth : JsVal) : Prop :=
  PrimFloat.leb (parseFloat env amountEth) 0 = true
  \/ PrimFloat.ltb ceiling (parseFloat env amountEth) = true.

(** X1: An amount that is not above zero, or that is above the ceiling of the
    route (1000 ETH for a payment, 100 ETH for the faucet), ends the request
    during validation: the answer is an error and the world is the one the
    request found, nothing looked up, recorded or sent. *)
Theorem amount_out_of_range_refused (req_body amountEth : JsVal) (w : World) :
  get_prop req_body "amountEth" = Ok amountEth ->
  (out_of_range 1000 amountEth ->
   (exists resp, email_to_email env req_body w = (Ok resp, w) /\ refused resp)
   /\ (exists resp, wallet_to_wallet env req_body w = (Ok resp, w) /\ refused resp))
  /\ (out_of_range 100 amountEth ->
      exists resp, faucet env req_body w = (Ok resp, w) /\ refused resp).
Proof.
  intros Ham. unfold refused, out_of_range. split; [intros Hout; split|intros Hout].
  - unfold email_to_email. munfold. rewrite Ham.
    destruct (get_prop req_body "fromEmail") as [fe|?]; [|refuse].
    destruct (get_prop req_body "toEmail") as [te|?]; [|refuse].
    destruct (get_prop req_body "memo") as [memo|?]; [|refuse].
    destruct (negb (truthy fe) || negb (truthy te) || negb (truthy amountEth)); [refuse|].
    destruct (strict_eq fe te); [refuse|].
    destruct (PrimFloat.leb (parseFloat env amountEth) 0) eqn:Hle; [refuse|].
    destruct Hout as [Hout|Hout]; [discriminate Hout|]. rewrite Hout. refuse.
  - unfold wallet_to_wallet. munfold. rewrite Ham.
    destruct (get_prop req_body "fromWallet") as [f|?]; [|refuse].
    destruct (get_prop req_body "toWallet") as [t|?]; [|refuse].
    destruct (get_prop req_body "memo") as [memo|?]; [|refuse].
    destruct (negb (truthy f) || negb (truthy t) || negb (truthy amountEth)); [refuse|].
    destruct (negb (isAddress env f) || negb (isAddress env t)); [refuse|].
    destruct (to_lower f) as [fl|?]; [|refuse].
    destruct (to_lower t) as [tl|?]; [|refuse].
    destruct (String.eqb fl tl); [refuse|].
    destruct (PrimFloat.leb (parseFloat env amountEth) 0) eqn:Hle; [refuse|].
    destruct Hout as [Hout|Hout]; [discriminate Hout|]. rewrite Hout. refuse.
  - unfold faucet. munfold. rewrite Ham.
    destruct (get_prop req_body "toWallet") as [t|?]; [|refuse].
    destruct (negb (truthy t) || negb (truthy amountEth)); [refuse|].
    destruct (negb (isAddress env t)); [refuse|].
    destruct (PrimFloat.leb (parseFloat env amountEth) 0) eqn:Hle; [refuse|].
    destruct Hout as [Hout|Hout]; [discriminate Hout|]. rewrite Hout. refuse.
Qed.

(** *** What a payment request leaves behind *)

Definition is_status_update (e : Event) : bool :=
  match e with
  | UpdateTransaction _ _ _ => true
  | _ => false
  end.

(** The second world continues the first: same two files, and a trace that
    goes on with [es]. *)
Definition continues (w w' : World) (es : list Event) : Prop :=
  trace w' = (trace w ++ es)%list
  /\ funded_file w' = funded_file w /\ wallet_file w' = wallet_file w.

Lemma continues_refl (w : World) : continues w w [].
Proof. unfold continues. rewrite app_nil_r. repeat split. Qed.

Lemma continues_log (w : World) (e : Event) : continues w (log env e w) [e].
Proof. unfold continues. repeat split. Qed.

Lemma continues_trans (w1 w2 w3 : World) (es1 es2 : list Event) :
  continues w1 w2 es1 -> continues w2 w3 es2 -> continues w1 w3 (es1 ++ es2).
Proof.
  intros (T1 & F1 & W1) (T2 & F2 & W2). unfold continues.
  rewrite T2, T1, F2, F1, W2, W1, app_assoc. repeat split.
Qed.

(** A submission talks to the node only, and leaves the files and the
    watchers alone. *)
Lemma submission_frame fromWallet toWallet amountWei gasLimit w out w' :
  sendTransactionWithPrivateKey env fromWallet toWallet amountWei gasLimit w = (out, w') ->
  exists es, continues w w' es /\ Forall (fun e => is_chain_call e = true) es
             /\ spawned w' = spawned w.
Proof.
  unfold sendTransactionWithPrivateKey, stx_nonce, stx_gas_price, stx_sign, stx_send.
  munfold. rewrite WalletSpec.getPrivateKeyForWallet_run.
  destruct (scan_wallets env (WalletSpec.stored_wallets w) fromWallet) as [pk|].
  2:{ intros [= <- <-]. exists []. split; [apply continues_refl|]. split; constructor. }
  set (w1 := log env (GetTransactionCount fromWallet) w).
  assert (C1 : continues w w1 [GetTransactionCount fromWallet]) by apply continues_log.
  destruct (count_reply env (trace w) fromWallet) as [n|].
  2:{ intros [= <- <-]. eexists. split; [exact C1|]. split; repeat constructor. }
  set (w2 := log env GetGasPrice w1).
  assert (C2 : continues w w2 [GetTransactionCount fromWallet; GetGasPrice])
    by exact (continues_trans _ _ _ [_] [_] C1 (continues_log w1 _)).
  destruct (gas_price_reply env (trace w1)) as [gp|].
  2:{ intros [= <- <-]. eexists. split; [exact C2|]. split; repeat constructor. }
  set (tx := {| tx_nonce := n; tx_to := toWallet; tx_value := amountWei;
                tx_gasLimit := gasLimit; tx_gasPrice := gp |}).
  set (w3 := log env (SignTransaction tx) w2).
  assert (C3 : continues w w3 [GetTransactionCount fromWallet; GetGasPrice; SignTransaction tx])
    by exact (continues_trans _ _ _ [_; _] [_] C2 (continues_log w2 _)).
  destruct (sign_reply env (trace w2) tx pk).
  { intros [= <- <-]. eexists. split; [exact C3|]. split; repeat constructor. }
  intros [= <- <-]. eexists. split.
  - exact (continues_trans _ _ _ [_; _; _] [_] C3 (continues_log w3 _)).
  - split; repeat constructor.
Qed.

(** The transaction a submission signs: what the caller asked for, with the
    nonce and the gas price the node reported. *)
Definition asked_tx (toWallet : JsVal) (amountWei gasLimit nonce gasPrice : Z) : TxObject :=
  {| tx_nonce := nonce; tx_to := toWallet; tx_value := amountWei;
     tx_gasLimit := gasLimit; tx_gasPrice := gasPrice |}.

(** A submission step by step: the key is looked up before the node is
    asked anything, and each failure ends the submission where it occurs. *)
Lemma submission_run fromWallet toWallet amountWei gasLimit w :
  match scan_wallets env (WalletSpec.stored_wallets w) fromWallet with
  | Throw msg =>
      sendTransactionWithPrivateKey env fromWallet toWallet amountWei gasLimit w = (Throw msg, w)
  | Ok privateKey =>
      let w1 := log env (GetTransactionCount fromWallet) w in
      match count_reply env (trace w) fromWallet with
      | Throw msg =>
          sendTransactionWithPrivateKey env fromWallet toWallet amountWei gasLimit w
          = (Throw msg, w1)
      | Ok nonce =>
          let w2 := log env GetGasPrice w1 in
          match gas_price_reply env (trace w1) with
          | Throw msg =>
              sendTransactionWithPrivateKey env fromWallet toWallet amountWei gasLimit w
              = (Throw msg, w2)
          | Ok gasPrice =>
              let tx := asked_tx toWallet amountWei gasLimit nonce gasPrice in
              let w3 := log env (SignTransaction tx) w2 in
              match sign_reply env (trace w2) tx privateKey with
              | Some msg =>
                  sendTransactionWithPrivateKey env fromWallet toWallet amountWei gasLimit w
                  = (Throw msg, w3)
              | None =>
                  sendTransactionWithPrivateKey env fromWallet toWallet amountWei gasLimit w
                  = (send_reply env (trace w3) {| raw_tx := tx; raw_signer := privateKey |},
                     log env (SendSignedTransaction {| raw_tx := tx; raw_signer := privateKey |})
                         w3)
              end
          end
      end
  end.
Proof.
  unfold sendTransactionWithPrivateKey, stx_nonce, stx_gas_price, stx_sign, stx_send, asked_tx.
  munfold. rewrite WalletSpec.getPrivateKeyForWallet_run.
  destruct (scan_wallets env (WalletSpec.stored_wallets w) fromWallet) as [pk|]; [|reflexivity].
  destruct (count_reply env (trace w) fromWallet) as [n|]; [|reflexivity].
  cbv zeta.
  destruct (gas_price_reply env _) as [gp|]; [|reflexivity].
  destruct (sign_reply env _ _ pk); [reflexivity|].
  match goal with
  | |- context [send_reply env ?tr ?raw] => destruct (send_reply env tr raw)
  end; reflexivity.
Qed.

(** A request that was not taken up: no watcher was started and no record
    was moved on from [pending]. *)
Definition dropped (w w' : World) : Prop :=
  spawned w' = spawned w
  /\ exists es, continues w w' es /\ Forall (fun e => is_status_update e = false) es.

(** A payment that was taken up: the node accepted one broadcast, every
    record was then marked [submitted] under the transaction's hash, and one
    watcher was started for these records. *)
Definition taken_up (w w' : World) (records : list DualRecord) (tx : Receipt) : Prop :=
  exists raw before,
    continues w w' (before ++ SendSignedTransaction raw
                           :: updates_for records (transactionHash tx) Submitted [])%list
    /\ Forall (fun e => is_status_update e = false) before
    /\ List.existsb is_broadcast before = false
    /\ send_reply env (trace w ++ before)%list raw = Ok tx
    /\ spawned w' = (spawned w ++ [(now w', WatchPayment records (transactionHash tx))])%list
    /\ records <> [] /\ (List.length records <= 2)%nat /\ Forall created_ok records.

Lemma dropped_at (w w' : World) (es : list Event) :
  continues w w' es -> spawned w' = spawned w ->
  Forall (fun e => is_status_update e = false) es -> dropped w w'.
Proof. intros C S F. split; [exact S|]. exists es. split; assumption. Qed.

Lemma creations_are_no_updates (es : list Event) :
  only_creations es -> Forall (fun e => is_status_update e = false) es
                       /\ List.existsb is_broadcast es = false.
Proof.
  induction 1 as [|e es [p ->] _ [IH1 IH2]]; [split; [constructor|reflexivity]|].
  split; [constructor; [reflexivity|exact IH1]|exact IH2].
Qed.

Lemma chain_calls_are_no_updates (es : list Event) :
  Forall (fun e => is_chain_call e = true) es ->
  Forall (fun e => is_status_update e = false) es.
Proof.
  intros H. eapply Forall_impl; [exact H|]. intros e. destruct e; cbn; congruence.
Qed.

Lemma run_pay_outcome (a : PayArgs) (w0 : World) :
  exists resp w',
    run_pay env a w0 = (Ok resp, w')
    /\ ((code resp = 400 \/ code resp = 500) /\ dropped w0 w'
        \/ exists records tx,
             resp = submitted a (transaction_id_of env a w0) tx records
             /\ taken_up w0 w' records tx).
Proof.
  destruct (balance_reply env (trace w0) (p_from a)) as [bal|msg] eqn:Hbal.
  2:{ exists (failed_with msg), (after_balance env a w0). split.
      { unfold run_pay, pay. munfold. rewrite Hbal. reflexivity. }
      left. split; [right; reflexivity|].
      apply (dropped_at _ _ [GetBalance (p_from a)]);
        [apply continues_log|reflexivity|repeat constructor]. }
  destruct (PrimFloat.ltb (balance_in_eth bal) (parseFloat env (p_amount a))) eqn:Hlt.
  { exists (insufficient_balance env a bal), (after_balance env a w0). split.
    { apply run_pay_insufficient; assumption. }
    left. split; [left; reflexivity|].
    apply (dropped_at _ _ [GetBalance (p_from a)]);
      [apply continues_log|reflexivity|repeat constructor]. }
  destruct (createDual_total env (p_from a) (p_to a) (p_amount a) (p_type a) (p_memo a)
                             (transaction_id_of env a w0) (after_id env a w0))
    as (recs & w_rec & Hrec & Hlen & Hok & (es & Htr & Hes & _) & Hf & Hwl & Hsp).
  destruct (creations_are_no_updates es Hes) as [Hnu Hnb].
  assert (Crec : continues w0 w_rec (GetBalance (p_from a) :: MathRandom :: es)).
  { unfold continues. rewrite Htr, Hf, Hwl. unfold after_id, after_balance.
    rewrite !trace_log, <- !app_assoc. repeat split. }
  assert (Srec : spawned w_rec = spawned w0) by (rewrite Hsp; reflexivity).
  assert (Nrec : Forall (fun e => is_status_update e = false)
                        (GetBalance (p_from a) :: MathRandom :: es))
    by (repeat constructor; exact Hnu).
  destruct (run_pay_sufficient env a w0 bal Hbal Hlt recs w_rec Hrec) as [Hnone Hsome].
  destruct recs as [|r0 rs].
  { eexists; eexists. split; [apply Hnone; reflexivity|].
    left. split; [right; reflexivity|]. apply (dropped_at _ _ _ Crec Srec Nrec). }
  destruct (Hsome ltac:(discriminate)) as [Hthrow Hsend].
  destruct (Web3Utils.toWei (ToString env (p_amount a))) as [amountWei|msg] eqn:Hwei.
  2:{ eexists; eexists. split; [apply Hthrow; reflexivity|].
      left. split; [right; reflexivity|]. apply (dropped_at _ _ _ Crec Srec Nrec). }
  destruct (sendTransactionWithPrivateKey env (p_from a) (p_to a) amountWei default_gasLimit
                                          w_rec) as [out w_tx] eqn:Hs.
  specialize (Hsend amountWei out w_tx eq_refl Hs).
  destruct (submission_frame _ _ _ _ _ _ _ Hs) as (es2 & Ctx & Hchain & Stx).
  destruct out as [tx|msg].
  2:{ eexists; eexists. split; [exact Hsend|].
      left. split; [right; reflexivity|].
      apply (dropped_at _ _ _ (continues_trans _ _ _ _ _ Crec Ctx)).
      - rewrite Stx. exact Srec.
      - apply Forall_app. split; [exact Nrec|apply chain_calls_are_no_updates, Hchain]. }
  destruct Hsend as (us & w_upd & Hupd & Hrun).
  destruct (updateDual_events env (r0 :: rs) (transactionHash tx) Submitted [] w_tx Hok)
    as (us' & w_upd' & Hupd' & Htr').
  rewrite Hupd in Hupd'. injection Hupd' as <- <-.
  destruct (updateDual_total env (r0 :: rs) (transactionHash tx) Submitted [] w_tx)
    as (us'' & w_upd'' & Hupd'' & _ & Hf' & Hwl' & Hsp').
  rewrite Hupd in Hupd''. injection Hupd'' as <- <-.
  destruct (RaceSpec.submission_accepted env _ _ _ _ _ _ _ Hs) as (pk & t & _ & _ & Htx & Hacc).
  eexists; eexists. split; [exact Hrun|]. right.
  exists (r0 :: rs), tx. split; [reflexivity|].
  exists {| raw_tx := t; raw_signer := pk |},
         (GetBalance (p_from a) :: MathRandom
            :: es ++ [GetTransactionCount (p_from a); GetGasPrice; SignTransaction t])%list.
  destruct Crec as (Tr & Fr & Wr). destruct Ctx as (_ & Ft & Wt).
  split; [|split; [|split; [|split; [|split; [|split; [|split]]]]]].
  - unfold continues, add_spawned. cbn [trace funded_file wallet_file].
    rewrite Htr', Htx, Tr, Hf', Hwl', Ft, Wt, Fr, Wr. unfold RaceSpec.submission_events.
    cbn [app]. rewrite <- !app_assoc. cbn [app]. repeat split.
  - repeat constructor. apply Forall_app. split; [exact Hnu|repeat constructor].
  - cbn [List.existsb is_broadcast orb]. rewrite existsb_app, Hnb. reflexivity.
  - rewrite <- Hacc. f_equal. rewrite Tr. cbn [app]. rewrite <- !app_assoc. reflexivity.
  - unfold add_spawned. cbn [spawned now]. rewrite Hsp', Stx, Srec. reflexivity.
  - discriminate.
  - exact Hlen.
  - exact Hok.
Qed.

(** What a payment route does with a request: it answers, and either the
    request was dropped with an error, or the payment was taken up and the
    answer is 200 with the transaction's hash and the number of records. *)
Definition settles (handler : JsVal -> M Response) : Prop :=
  forall req_body w,
    exists resp w',
      handler req_body w = (Ok resp, w')
      /\ ((code resp = 400 \/ code resp = 404 \/ code resp = 500) /\ dropped w w'
          \/ code resp = 200
             /\ assoc "status" (body resp) = VStr "submitted"
             /\ exists records tx,
                  assoc "txHash" (body resp) = VStr (transactionHash tx)
                  /\ assoc "records_created" (body resp)
                     = js_int (Z.of_nat (List.length records))
                  /\ taken_up w w' records tx).

Lemma dropped_refl (w : World) : dropped w w.
Proof. apply (dropped_at w w []); [apply continues_refl|reflexivity|constructor]. Qed.

Ltac drop400 := eexists; eexists; split; [reflexivity|]; left; split;
                [left; reflexivity|apply dropped_refl].
Ltac drop500 := eexists; eexists; split; [reflexivity|]; left; split;
                [right; right; reflexivity|apply dropped_refl].

Lemma wallet_to_wallet_settles : settles (wallet_to_wallet env).
Proof.
  intros req_body w. unfold wallet_to_wallet. munfold.
  destruct (get_prop req_body "fromWallet") as [f|?] eqn:Hf; [|drop500].
  destruct (get_prop req_body "toWallet") as [t|?] eqn:Ht; [|drop500].
  destruct (get_prop req_body "amountEth") as [am|?] eqn:Ham; [|drop500].
  destruct (get_prop req_body "memo") as [memo|?] eqn:Hmemo; [|drop500].
  destruct (truthy f) eqn:Tf; [|drop400].
  destruct (truthy t) eqn:Tt; [|drop400].
  destruct (truthy am) eqn:Tam; [|drop400].
  cbn [negb orb].
  destruct (isAddress env f) eqn:Af; [|drop400].
  destruct (isAddress env t) eqn:At; [|drop400].
  cbn [negb orb].
  destruct f as [| | | |fs| |]; try drop500.
  destruct t as [| | | |ts| |]; try drop500.
  cbn [to_lower].
  destruct (String.eqb (toLowerCase fs) (toLowerCase ts)) eqn:Hdiff; [drop400|].
  destruct (PrimFloat.leb (parseFloat env am) 0) eqn:Hle; [drop400|].
  destruct (PrimFloat.ltb 1000 (parseFloat env am)) eqn:Hgt; [drop400|].
  set (a := {| p_prefix := "wallet"; p_from := VStr fs; p_to := VStr ts;
               p_amount := am;
               p_memo := or_else memo (VStr "Direct wallet transfer");
               p_type := "wallet_transfer";
               p_message := "Wallet transfer submitted successfully";
               p_echo := [("from_wallet", VStr fs); ("to_wallet", VStr ts)] |}).
  destruct (run_pay_outcome a w) as (resp & w' & Hrun & Hout).
  exists resp, w'. split; [exact Hrun|].
  destruct Hout as [[Hc Hd]|(records & tx & -> & Hup)].
  - left. split; [|exact Hd]. destruct Hc as [Hc|Hc]; [left|right; right]; exact Hc.
  - right. split; [reflexivity|]. split; [reflexivity|].
    exists records, tx. split; [reflexivity|]. split; [reflexivity|exact Hup].
Qed.

Lemma taken_up_later (w w0 w' : World) (lookups : list Event) records tx :
  continues w w0 lookups -> spawned w0 = spawned w ->
  Forall (fun e => exists email, e = EmailLookup email) lookups ->
  taken_up w0 w' records tx -> taken_up w w' records tx.
Proof.
  intros C0 S0 Hl (raw & before & C & Hnu & Hnb & Hsend & Hsp & Hrest).
  assert (Hl' : Forall (fun e => is_status_update e = false) lookups
                /\ List.existsb is_broadcast lookups = false).
  { clear C0. induction Hl as [|e l [email ->] _ [IH1 IH2]]; [split; [constructor|reflexivity]|].
    split; [constructor; [reflexivity|exact IH1]|exact IH2]. }
  exists raw, (lookups ++ before)%list.
  split; [|split; [|split; [|split; [|split]]]].
  - rewrite <- app_assoc. exact (continues_trans _ _ _ _ _ C0 C).
  - apply Forall_app. split; [apply Hl'|exact Hnu].
  - rewrite existsb_app, Hnb. destruct Hl' as [_ ->]. reflexivity.
  - rewrite app_assoc. destruct C0 as [<- _]. exact Hsend.
  - rewrite Hsp, S0. reflexivity.
  - exact Hrest.
Qed.

Lemma email_to_email_settles : settles (email_to_email env).
Proof.
  intros req_body w. unfold email_to_email. munfold.
  destruct (get_prop req_body "fromEmail") as [fe|?] eqn:Hfe; [|drop500].
  destruct (get_prop req_body "toEmail") as [te|?] eqn:Hte; [|drop500].
  destruct (get_prop req_body "amountEth") as [am|?] eqn:Ham; [|drop500].
  destruct (get_prop req_body "memo") as [memo|?] eqn:Hmemo; [|drop500].
  destruct (truthy fe) eqn:Tf; [|drop400].
  destruct (truthy te) eqn:Tt; [|drop400].
  destruct (truthy am) eqn:Tam; [|drop400].
  cbn [negb orb].
  destruct (strict_eq fe te) eqn:Hne; [drop400|].
  destruct (PrimFloat.leb (parseFloat env am) 0) eqn:Hle; [drop400|].
  destruct (PrimFloat.ltb 1000 (parseFloat env am)) eqn:Hgt; [drop400|].
  destruct (getWalletByEmail env fe w) as [o1 w1] eqn:L1.
  pose proof (getWalletByEmail_world env _ _ _ _ L1) as W1.
  assert (C1 : continues w w1 [EmailLookup fe]) by (rewrite W1; apply continues_log).
  assert (S1 : spawned w1 = spawned w) by (rewrite W1; reflexivity).
  destruct o1 as [fw|msg].
  2:{ eexists; eexists. split; [reflexivity|]. left. split; [right; left; reflexivity|].
      apply (dropped_at _ _ _ C1 S1). repeat constructor. }
  destruct (getWalletByEmail env te w1) as [o2 w2] eqn:L2.
  pose proof (getWalletByEmail_world env _ _ _ _ L2) as W2.
  assert (C2 : continues w w2 [EmailLookup fe; EmailLookup te]).
  { apply (continues_trans _ _ _ [_] [_] C1). rewrite W2. apply continues_log. }
  assert (S2 : spawned w2 = spawned w) by (rewrite W2; exact S1).
  assert (D2 : dropped w w2) by (apply (dropped_at _ _ _ C2 S2); repeat constructor).
  destruct o2 as [tw|msg].
  2:{ eexists; eexists. split; [reflexivity|]. left. split; [right; left; reflexivity|exact D2]. }
  destruct (isAddress env fw) eqn:Af;
    [|eexists; eexists; split; [reflexivity|]; left; split; [left; reflexivity|exact D2]].
  destruct (isAddress env tw) eqn:At;
    [|eexists; eexists; split; [reflexivity|]; left; split; [left; reflexivity|exact D2]].
  cbn [negb orb].
  destruct fw as [| | | |fs| |];
    try (eexists; eexists; split; [reflexivity|]; left; split; [right; right; reflexivity|exact D2]).
  destruct tw as [| | | |ts| |];
    try (eexists; eexists; split; [reflexivity|]; left; split; [right; right; reflexivity|exact D2]).
  cbn [to_lower].
  destruct (String.eqb (toLowerCase fs) (toLowerCase ts)) eqn:Hdiff;
    [eexists; eexists; split; [reflexivity|]; left; split; [left; reflexivity|exact D2]|].
  set (a := {| p_prefix := "email"; p_from := VStr fs; p_to := VStr ts;
               p_amount := am;
               p_memo := or_else memo (VStr ("Payment from " ++ ToString env fe
                                             ++ " to " ++ ToString env te));
               p_type := "email"; p_message := "Payment submitted successfully";
               p_echo := [("from_email", fe); ("to_email", te)] |}).
  destruct (run_pay_outcome a w2) as (resp & w' & Hrun & Hout).
  exists resp, w'. split; [exact Hrun|].
  destruct Hout as [[Hc (Hs & es & Ces & Hes)]|(records & tx & -> & Hup)].
  - left. split; [destruct Hc as [Hc|Hc]; [left|right; right]; exact Hc|].
    apply (dropped_at _ _ _ (continues_trans _ _ _ _ _ C2 Ces)).
    + rewrite Hs. exact S2.
    + apply Forall_app. split; [repeat constructor|exact Hes].
  - right. split; [reflexivity|]. split; [reflexivity|].
    exists records, tx. split; [reflexivity|]. split; [reflexivity|].
    apply (taken_up_later w w2 w' _ records tx C2 S2); [|exact Hup].
    repeat constructor; eexists; reflexivity.
Qed.

(** X2: Both payment routes answer every request; an answer other than 200
    means that no watcher was started and no record was moved on from
    [pending], and an answer of 200 means that the node accepted exactly one
    broadcast, after which every record created was marked [submitted] under
    the transaction's hash and one watcher was started for these records. *)
Theorem payment_request_outcome :
  settles (email_to_email env) /\ settles (wallet_to_wallet env).
Proof. split; [exact email_to_email_settles|exact wallet_to_wallet_settles]. Qed.

(** *** What a faucet request leaves behind *)

(** The record a faucet request asks the backend to create. *)
Definition faucet_payload (transactionId : string) (toWallet amountEth : JsVal) : Payload :=
  {| transaction_id := transactionId;
     wallet_address := toWallet;
     from_address := VStr (deployer env);
     to_address := toWallet;
     amount := amountEth;
     currency_symbol := "ETH";
     transaction_type := TFaucet;
     direction := Inbound;
     status := Pending;
     memo := VStr "Faucet funding";
     network_mode := NETWORK_MODE env |}.

(** A faucet request that went through: its five calls, and the watcher. *)
Definition funded_by_faucet (w w' : World) (resp : Response) : Prop :=
  exists toWallet amountEth transactionId db_id amountWei tx,
    trace w'
    = (trace w
       ++ [MathRandom;
           CreateTransaction (faucet_payload transactionId toWallet amountEth);
           SendPaymentToWallet toWallet amountWei;
           WriteFunded;
           UpdateTransaction (transactionHash tx) Submitted
             [("transaction_id", VStr transactionId); ("transaction_db_id", db_id)]])%list
    /\ Web3Utils.toWei (ToString env amountEth) = Ok amountWei
    /\ faucet_reply env
         (trace w ++ [MathRandom;
                      CreateTransaction (faucet_payload transactionId toWallet amountEth)])%list
         toWallet amountWei = Ok tx
    /\ spawned w'
       = (spawned w ++ [(now w', WatchFaucet transactionId db_id (transactionHash tx))])%list
    /\ wallet_file w' = wallet_file w
    /\ match write_fails env
               (trace w
                ++ [MathRandom;
                    CreateTransaction (faucet_payload transactionId toWallet amountEth);
                    SendPaymentToWallet toWallet amountWei])%list with
       | None =>
           exists t,
             funded_file w'
             = Stored (<[ToString env toWallet := {| funded := true; timestamp := t |}]>
                         (funded_records w))
       | Some _ => funded_file w' = funded_file w
       end
    /\ assoc "transaction_id" (body resp) = VStr transactionId
    /\ assoc "txHash" (body resp) = VStr (transactionHash tx)
    /\ assoc "status" (body resp) = VStr "submitted".

Ltac drop_at es :=
  eexists; eexists; split; [reflexivity|]; left; split;
  [first [left; reflexivity|right; left; reflexivity|right; right; reflexivity]
  |apply (dropped_at _ _ es); [|reflexivity|repeat constructor]].

(** X3: The faucet answers every request; an answer other than 200 means that
    the address was not marked funded, no watcher was started and no record
    was moved on from [pending]; an answer of 200 means that the record was
    created, the contract was sent exactly the wei value of the amount asked
    for, the address was marked, the record was marked [submitted] and one
    watcher was started, in this order. *)
Theorem faucet_request_outcome (req_body : JsVal) (w : World) :
  exists resp w',
    faucet env req_body w = (Ok resp, w')
    /\ ((code resp = 400 \/ code resp = 429 \/ code resp = 500) /\ dropped w w'
        \/ code resp = 200 /\ funded_by_faucet w w' resp).
Proof.
  unfold faucet. munfold.
  destruct (get_prop req_body "toWallet") as [t|?] eqn:Ht;
    [|drop_at (@nil Event); apply continues_refl].
  destruct (get_prop req_body "amountEth") as [am|?] eqn:Ham;
    [|drop_at (@nil Event); apply continues_refl].
  destruct (truthy t) eqn:Tt; [|drop_at (@nil Event); apply continues_refl].
  destruct (truthy am) eqn:Tam; [|drop_at (@nil Event); apply continues_refl].
  cbn [negb orb].
  destruct (isAddress env t) eqn:At; [|drop_at (@nil Event); apply continues_refl].
  cbn [negb].
  destruct (PrimFloat.leb (parseFloat env am) 0) eqn:Hle;
    [drop_at (@nil Event); apply continues_refl|].
  destruct (PrimFloat.ltb 100 (parseFloat env am)) eqn:Hgt;
    [drop_at (@nil Event); apply continues_refl|].
  rewrite eligible_run.
  destruct (match funded_records w !! ToString env t with
            | Some e => negb (funded e) | None => true end) eqn:El;
    [|drop_at (@nil Event); apply continues_refl].
  cbn [negb].
  set (id := ("faucet" ++ "_" ++ dec_of_Z (now w) ++ "_" ++ random_suffix env (trace w))).
  fold (faucet_payload id t am).
  set (w1 := log env MathRandom w).
  set (w2 := log env (CreateTransaction (faucet_payload id t am)) w1).
  assert (C2 : continues w w2 [MathRandom; CreateTransaction (faucet_payload id t am)]).
  { exact (continues_trans _ _ _ [_] [_] (continues_log w _) (continues_log w1 _)). }
  match goal with |- context [create_result ?r] => set (cr := create_result r) end.
  destruct (get_prop cr "success") as [sc|] eqn:Hs; [|drop_at [MathRandom; CreateTransaction (faucet_payload id t am)]; exact C2].
  destruct (truthy sc) eqn:Ts; cbn [negb].
  2:{ destruct (get_prop cr "error");
        drop_at [MathRandom; CreateTransaction (faucet_payload id t am)]; exact C2. }
  destruct (get_prop cr "transaction_db_id") as [db|] eqn:Hdb;
    [|drop_at [MathRandom; CreateTransaction (faucet_payload id t am)]; exact C2].
  destruct (Web3Utils.toWei (ToString env am)) as [wei|] eqn:Hwei;
    [|drop_at [MathRandom; CreateTransaction (faucet_payload id t am)]; exact C2].
  set (w3 := log env (SendPaymentToWallet t wei) w2).
  assert (C3 : continues w w3 [MathRandom; CreateTransaction (faucet_payload id t am);
                               SendPaymentToWallet t wei]).
  { exact (continues_trans _ _ _ [_; _] [_] C2 (continues_log w2 _)). }
  destruct (faucet_reply env (trace w2) t wei) as [tx|] eqn:Htx;
    [|drop_at [MathRandom; CreateTransaction (faucet_payload id t am);
               SendPaymentToWallet t wei]; exact C3].
  rewrite markWalletFunded_any.
  eexists; eexists. split; [reflexivity|]. right. split; [reflexivity|].
  exists t, am, id, db, wei, tx.
  split; [|split; [exact Hwei|split; [|split; [|split; [|split; [|repeat split]]]]]].
  - unfold add_spawned. cbn [trace]. rewrite trace_log, after_mark_trace.
    unfold w3, w2, w1. rewrite !trace_log, <- !app_assoc. reflexivity.
  - rewrite <- Htx. unfold w2, w1. rewrite !trace_log, <- !app_assoc. reflexivity.
  - unfold add_spawned. cbn [spawned now].
    match goal with
    | |- context [spawned (log env ?e (after_mark env t w3))] =>
        change (spawned (log env e (after_mark env t w3))) with (spawned (after_mark env t w3))
    end.
    rewrite after_mark_spawned. reflexivity.
  - unfold add_spawned. cbn [wallet_file].
    match goal with
    | |- context [wallet_file (log env ?e (after_mark env t w3))] =>
        change (wallet_file (log env e (after_mark env t w3)))
          with (wallet_file (after_mark env t w3))
    end.
    rewrite after_mark_wallets. reflexivity.
  - assert (Htr3 : trace w3 = (trace w ++ [MathRandom; CreateTransaction (faucet_payload id t am);
                                           SendPaymentToWallet t wei])%list) by apply C3.
    rewrite <- Htr3.
    unfold add_spawned. cbn [funded_file].
    match goal with
    | |- context [funded_file (log env ?e (after_mark env t w3))] =>
        change (funded_file (log env e (after_mark env t w3)))
          with (funded_file (after_mark env t w3))
    end.
    unfold after_mark. destruct (write_fails env (trace w3)); [reflexivity|].
    eexists. reflexivity.
Qed.

(** *** Identity resolution on the e-mail route *)


Definition not_found (msg : string) : Response :=
  {| code := 404; body := [("error", VStr msg)] |}.





(** *** A sender whose key is not in the store *)


(** *** What a submission signs and sends *)

(** X7: A submission that returns a receipt made four calls: it asked the node
    for the sender's transaction count and for the gas price, had the
    transaction signed with the key stored for the sender, and broadcast
    it; the transaction pays [toWallet] the value asked for, with the gas
    limit asked for, the count as nonce and the price the node named. A
    submission that fails broadcast nothing, unless the failure is the
    node's refusal of the broadcast itself; and when no key is stored for
    the sender it fails before the node is asked anything. *)
Theorem submission_signs_what_was_asked fromWallet toWallet amountWei gasLimit w out w' :
  sendTransactionWithPrivateKey env fromWallet toWallet amountWei gasLimit w = (out, w') ->
  (forall receipt,
     out = Ok receipt ->
     exists privateKey nonce gasPrice,
       scan_wallets env (WalletSpec.stored_wallets w) fromWallet = Ok privateKey
       /\ count_reply env (trace w) fromWallet = Ok nonce
       /\ gas_price_reply env (trace w ++ [GetTransactionCount fromWallet])%list = Ok gasPrice
       /\ trace w'
          = (trace w
             ++ [GetTransactionCount fromWallet; GetGasPrice;
                 SignTransaction (asked_tx toWallet amountWei gasLimit nonce gasPrice);
                 SendSignedTransaction
                   {| raw_tx := asked_tx toWallet amountWei gasLimit nonce gasPrice;
                      raw_signer := privateKey |}])%list)
  /\ (forall msg,
        out = Throw msg ->
        exists es,
          trace w' = (trace w ++ es)%list
          /\ (List.existsb is_broadcast es = false
              \/ exists before raw,
                   es = (before ++ [SendSignedTransaction raw])%list
                   /\ List.existsb is_broadcast before = false
                   /\ send_reply env (trace w ++ before)%list raw = Throw msg))
  /\ (forall msg,
        scan_wallets env (WalletSpec.stored_wallets w) fromWallet = Throw msg ->
        out = Throw msg /\ w' = w).
Proof.
  intros Hrun.
  pose proof (submission_run fromWallet toWallet amountWei gasLimit w) as H.
  rewrite Hrun in H. cbv zeta in H.
  destruct (scan_wallets env (WalletSpec.stored_wallets w) fromWallet) as [pk|m0].
  2:{ injection H as -> ->. split; [intros r [=]|]. split.
      - intros msg [= <-]. exists []. rewrite app_nil_r. split; [reflexivity|left; reflexivity].
      - intros msg [= <-]. split; reflexivity. }
  split; [|split; [|intros msg [=]]].
  - intros r ->.
    destruct (count_reply env (trace w) fromWallet) as [n|]; [|discriminate H].
    rewrite trace_log in H.
    destruct (gas_price_reply env _) as [gp|]; [|discriminate H].
    destruct (sign_reply env _ _ pk); [discriminate H|].
    injection H as Hs ->. exists pk, n, gp. repeat split.
    rewrite !trace_log, <- !app_assoc. reflexivity.
  - intros msg ->.
    destruct (count_reply env (trace w) fromWallet) as [n|].
    2:{ injection H as _ ->. exists [GetTransactionCount fromWallet].
        split; [reflexivity|left; reflexivity]. }
    destruct (gas_price_reply env _) as [gp|].
    2:{ injection H as _ ->. exists [GetTransactionCount fromWallet; GetGasPrice].
        split; [rewrite !trace_log, <- !app_assoc; reflexivity|left; reflexivity]. }
    destruct (sign_reply env _ _ pk).
    { injection H as _ ->.
      exists [GetTransactionCount fromWallet; GetGasPrice;
              SignTransaction (asked_tx toWallet amountWei gasLimit n gp)].
      split; [rewrite !trace_log, <- !app_assoc; reflexivity|left; reflexivity]. }
    injection H as Hs ->.
    exists [GetTransactionCount fromWallet; GetGasPrice;
            SignTransaction (asked_tx toWallet amountWei gasLimit n gp);
            SendSignedTransaction {| raw_tx := asked_tx toWallet amountWei gasLimit n gp;
                                     raw_signer := pk |}].
    split; [rewrite !trace_log, <- !app_assoc; reflexivity|]. right.
    exists [GetTransactionCount fromWallet; GetGasPrice;
            SignTransaction (asked_tx toWallet amountWei gasLimit n gp)],
           {| raw_tx := asked_tx toWallet amountWei gasLimit n gp; raw_signer := pk |}.
    split; [reflexivity|]. split; [reflexivity|].
    rewrite ?trace_log, <- ?app_assoc in Hs. symmetry. exact Hs.
Qed.

(** *** The balance route *)

(** X8: [GET /wallet/balance/:walletAddress] refuses a text that is no address
    with 400 without asking the node; otherwise it asks the node once and
    answers with the balance in ether as a decimal text that loses nothing:
    read back as wei, it is the balance the node reported. A failure of the
    node is answered 500 with its message. *)
Theorem balance_is_reported_exactly (walletAddress : string) (w : World) :
  (isAddress env (VStr walletAddress) = false ->
   wallet_balance env walletAddress w
   = (Ok {| code := 400; body := [("error", VStr "Invalid wallet address")] |}, w))
  /\ (isAddress env (VStr walletAddress) = true ->
      match balance_reply env (trace w) (VStr walletAddress) with
      | Ok balanceWei =>
          exists balanceEth,
            wallet_balance env walletAddress w
            = (Ok {| code := 200;
                     body := [("success", VBool true); ("balance", VStr balanceEth)] |},
               log env (GetBalance (VStr walletAddress)) w)
            /\ Web3Utils.toWei balanceEth = Ok (Z.of_N balanceWei)
      | Throw msg =>
          wallet_balance env walletAddress w
          = (Ok {| code := 500; body := [("error", VStr msg)] |},
             log env (GetBalance (VStr walletAddress)) w)
      end).
Proof.
  unfold wallet_balance. munfold. split; intros ->; [reflexivity|]. cbn [negb].
  destruct (balance_reply env (trace w) (VStr walletAddress)) as [b|msg]; [|reflexivity].
  eexists. split; [reflexivity|]. apply UnitsSpec.toWei_fromWei. lia.
Qed.

End Requests.

(** *** The properties on concrete requests *)

(** X1, witness: Alice asks to pay Bob -1 ETH. *)
Lemma negative_amount_is_refused :
  exists resp,
    wallet_to_wallet Demo.friendly (Demo.payment (VStr "-1")) Demo.world0
    = (Ok resp, Demo.world0)
    /\ refused resp.
Proof.
  destruct (amount_out_of_range_refused Demo.friendly (Demo.payment (VStr "-1")) (VStr "-1")
              Demo.world0 eq_refl) as [H _].
  destruct H as [_ H]; [left; vm_compute; reflexivity|exact H].
Defined.







(** X7, witness: Alice's payment of one ether to Bob, submitted. *)
Lemma alice_submission_is_as_asked :
  exists privateKey nonce gasPrice,
    scan_wallets Demo.friendly (WalletSpec.stored_wallets Demo.world0) (VStr Demo.alice)
    = Ok privateKey
    /\ count_reply Demo.friendly (trace Demo.world0) (VStr Demo.alice) = Ok nonce
    /\ gas_price_reply Demo.friendly
         (trace Demo.world0 ++ [GetTransactionCount (VStr Demo.alice)])%list = Ok gasPrice
    /\ trace (snd (sendTransactionWithPrivateKey Demo.friendly (VStr Demo.alice)
                     (VStr Demo.bob) (10 ^ 18) default_gasLimit Demo.world0))
       = (trace Demo.world0
          ++ [GetTransactionCount (VStr Demo.alice); GetGasPrice;
              SignTransaction
                (asked_tx (VStr Demo.bob) (10 ^ 18) default_gasLimit nonce gasPrice);
              SendSignedTransaction
                {| raw_tx := asked_tx (VStr Demo.bob) (10 ^ 18) default_gasLimit nonce gasPrice;
                   raw_signer := privateKey |}])%list.
Proof.
  destruct (submission_signs_what_was_asked Demo.friendly (VStr Demo.alice) (VStr Demo.bob)
              (10 ^ 18) default_gasLimit Demo.world0
              (fst (sendTransactionWithPrivateKey Demo.friendly (VStr Demo.alice)
                      (VStr Demo.bob) (10 ^ 18) default_gasLimit Demo.world0))
              (snd (sendTransactionWithPrivateKey Demo.friendly (VStr Demo.alice)
                      (VStr Demo.bob) (10 ^ 18) default_gasLimit Demo.world0)))
    as [H _].
  - apply surjective_pairing.
  - apply (H (Demo.mined "0xabc" true)). vm_compute. reflexivity.
Defined.

(** X8, witness: Alice's balance of two ether. *)
Lemma balance_of_alice_reads_back :
  exists balanceEth,
    wallet_balance Demo.friendly Demo.alice Demo.world0
    = (Ok {| code := 200;
             body := [("success", VBool true); ("balance", VStr balanceEth)] |},
       log Demo.friendly (GetBalance (VStr Demo.alice)) Demo.world0)
    /\ Web3Utils.toWei balanceEth = Ok (2 * 10 ^ 18).
Proof.
  pose proof (proj2 (balance_is_reported_exactly Demo.friendly Demo.alice Demo.world0)) as H.
  assert (Haddr : isAddress Demo.friendly (VStr Demo.alice) = true) by (vm_compute; reflexivity).
  specialize (H Haddr).
  destruct (balance_reply Demo.friendly (trace Demo.world0) (VStr Demo.alice)) eqn:E;
    vm_compute in E; [|discriminate E].
  injection E as <-. exact H.
Defined.

End RequestSpec.

(* ===================================================================== *)
(** ** The watchers *)
(* ===================================================================== *)

Module WatchSpec.
Import Chars Bytes App AppSpec.

#[local] Arguments log : simpl never.
#[local] Arguments advance : simpl never.
#[local] Arguments get_prop : simpl never.
#[local] Arguments truthy : simpl never.
#[local] Arguments update_result : simpl never.

Section Watchers.

Variable env : Oracle.

Definition is_poll (e : Event) : bool :=
  match e with
  | GetTransactionReceipt _ => true
  | _ => false
  end.

Definition poll_count (es : list Event) : nat := List.length (List.filter is_poll es).

(** The polls of the loop are spaced by the timer: from a world in which
    [left] milliseconds remain, the loop polls at most once per started
    interval. *)
Lemma wait_loop_polls (fuel : nat) (start : Z) (txHash : string)
    (timeoutMs pollInterval : Z) (w : World) :
  exists es,
    trace (snd (wait_loop env fuel start txHash timeoutMs pollInterval w))
    = (trace w ++ es)%list
    /\ Forall (fun e => e = GetTransactionReceipt txHash \/ e = SetTimeout pollInterval) es
    /\ Z.of_nat (poll_count es) * timer_delay pollInterval
       <= Z.max 0 (timeoutMs - (now w - start) + timer_delay pollInterval - 1).
Proof.
  assert (Hd : 1 <= timer_delay pollInterval).
  { unfold timer_delay.
    destruct ((pollInterval <? 1) || (2147483647 <? pollInterval)) eqn:Hp; [lia|].
    apply orb_false_iff in Hp. destruct Hp as [Hp _]. apply Z.ltb_ge in Hp. exact Hp. }
  revert w. induction fuel as [|fuel IH]; intros w.
  - cbn [wait_loop]. munfold.
    destruct (now w - start <? timeoutMs); exists []; rewrite app_nil_r;
      (split; [reflexivity|split; [constructor|cbn; lia]]).
  - cbn [wait_loop]. munfold.
    destruct (now w - start <? timeoutMs) eqn:Hlt.
    2:{ exists []. rewrite app_nil_r. split; [reflexivity|split; [constructor|cbn; lia]]. }
    apply Z.ltb_lt in Hlt.
    destruct (receipt_reply env (trace w) txHash) as [[r|]|msg].
    + exists [GetTransactionReceipt txHash]. split; [reflexivity|].
      split; [repeat constructor|]. cbn. lia.
    + set (w1 := advance (timer_delay pollInterval)
                         (log env (SetTimeout pollInterval)
                              (log env (GetTransactionReceipt txHash) w))).
      destruct (IH w1) as (es & Htr & Hev & Hn).
      exists (GetTransactionReceipt txHash :: SetTimeout pollInterval :: es).
      split; [|split].
      * rewrite Htr. unfold w1, advance. cbn [trace]. rewrite !trace_log, <- !app_assoc.
        reflexivity.
      * constructor; [left; reflexivity|]. constructor; [right; reflexivity|exact Hev].
      * assert (Hnow : now w + timer_delay pollInterval <= now w1).
        { unfold w1, advance, log. cbn [now]. lia. }
        unfold poll_count in *. cbn [List.filter is_poll List.length].
        rewrite Nat2Z.inj_succ. lia.
    + exists [GetTransactionReceipt txHash]. split; [reflexivity|].
      split; [repeat constructor|]. cbn. lia.
Qed.

(** X9: A watcher asks the node for the receipt at most sixty times: the
    default deadline of 120000 ms over the default interval of 2000 ms. In
    general [waitForReceipt] polls at most once per started interval of the
    time left, and does nothing else than poll and sleep. *)
Theorem polls_are_bounded (start : Z) (txHash : string) (timeoutMs pollInterval : Z)
    (w : World) :
  start <= now w ->
  exists es,
    trace (snd (waitForReceipt_from env start txHash timeoutMs pollInterval w))
    = (trace w ++ es)%list
    /\ Forall (fun e => e = GetTransactionReceipt txHash \/ e = SetTimeout pollInterval) es
    /\ Z.of_nat (poll_count es) * timer_delay pollInterval
       <= Z.max 0 (timeoutMs + timer_delay pollInterval - 1)
    /\ (timeoutMs = default_timeoutMs -> pollInterval = default_pollInterval ->
        (poll_count es <= 60)%nat).
Proof.
  intros Hstart. unfold waitForReceipt_from.
  destruct (wait_loop_polls (Z.to_nat timeoutMs) start txHash timeoutMs pollInterval w)
    as (es & Htr & Hev & Hn).
  exists es. split; [exact Htr|]. split; [exact Hev|]. split; [lia|].
  intros -> ->. unfold default_timeoutMs, default_pollInterval, timer_delay in Hn.
  cbn in Hn. lia.
Qed.

(** *** A watcher always reports, once *)

Definition no_update (e : Event) : Prop :=
  match e with
  | UpdateTransaction _ _ _ => False
  | _ => True
  end.

(** The node answered a poll of the watcher with a receipt whose status is
    true. *)
Definition seen_success (w : World) (es : list Event) (txHash : string) : Prop :=
  exists receipt polls rest,
    es = (polls ++ GetTransactionReceipt txHash :: rest)%list
    /\ receipt_reply env (trace w ++ polls)%list txHash = Ok (Some receipt)
    /\ receipt_status receipt = true.

Lemma polls_are_no_updates (txHash : string) (pollInterval : Z) (es : list Event) :
  Forall (fun e => e = GetTransactionReceipt txHash \/ e = SetTimeout pollInterval) es ->
  Forall no_update es.
Proof.
  intros H. eapply Forall_impl; [exact H|]. intros e [-> | ->]; exact I.
Qed.

(** The two parts of a watcher, [try] and [catch], around a final report
    [finish] that does not fail and whose calls are [F]. *)
Lemma watch_reports (start : Z) (txHash : string)
    (finish : Status -> list (string * JsVal) -> M unit)
    (rescue : string -> M (option unit))
    (F : Status -> list (string * JsVal) -> list Event) (w : World) :
  start <= now w ->
  (forall st extra w0,
     exists w1, finish st extra w0 = (Ok tt, w1)
                /\ trace w1 = (trace w0 ++ F st extra)%list) ->
  (forall msg w0,
     exists w1, rescue msg w0 = (Ok (Some tt), w1)
                /\ trace w1 = (trace w0 ++ F Failed [("error_message", VStr msg)])%list) ->
  exists w' es st extra,
    try_catch (watch env start txHash finish) rescue w = (Ok (Some tt), w')
    /\ trace w' = (trace w ++ es ++ F st extra)%list
    /\ Forall no_update es
    /\ (st = Completed \/ st = Failed)
    /\ (st = Completed -> seen_success w es txHash).
Proof.
  intros Hstart Hfinish Hrescue.
  pose proof (wait_loop_has_fuel env (Z.to_nat default_timeoutMs) start txHash
                default_timeoutMs default_pollInterval w) as Hfuel.
  destruct (wait_loop_polls (Z.to_nat default_timeoutMs) start txHash
                            default_timeoutMs default_pollInterval w) as (es0 & Htr0 & Hev0 & _).
  destruct (wait_loop_outcome env (Z.to_nat default_timeoutMs) start txHash
                              default_timeoutMs default_pollInterval w) as (es1 & Htr1 & Hout).
  assert (es1 = es0) as -> by (rewrite Htr0 in Htr1; apply app_inv_head in Htr1; congruence).
  apply polls_are_no_updates in Hev0.
  unfold try_catch, watch, waitForReceipt_from. munfold.
  destruct (wait_loop env (Z.to_nat default_timeoutMs) start txHash default_timeoutMs
                      default_pollInterval w) as [out w1].
  cbn [fst snd] in *.
  destruct out as [[receipt|]|msg].
  - destruct Hout as (polls & -> & _ & Hreply).
    destruct (block_reply env (trace w1) (blockNumber receipt)) as [block|msg] eqn:Hblock.
    + assert (Hts : exists ts,
                (if truthy block then lift (get_prop block "timestamp") else mret VNull)
                  (log env (GetBlock (blockNumber receipt)) w1)
                = (Ok ts, log env (GetBlock (blockNumber receipt)) w1)).
      { destruct (truthy block) eqn:Tb; [|eexists; reflexivity].
        destruct (truthy_get_prop block "timestamp" Tb) as [ts Hts].
        exists ts. unfold lift. rewrite Hts. reflexivity. }
      destruct Hts as [ts Hts]. unfold lift, mret, M_ret in Hts. rewrite Hts.
      destruct (Hfinish (status_of_receipt receipt) (settlement_fields receipt block ts)
                        (log env (GetBlock (blockNumber receipt)) w1)) as (w2 & Hrun & Htr2).
      rewrite Hrun.
      exists w2, ((polls ++ [GetTransactionReceipt txHash])
                  ++ [GetBlock (blockNumber receipt)])%list,
             (status_of_receipt receipt), (settlement_fields receipt block ts).
      split; [reflexivity|]. split; [|split; [|split]].
      * rewrite Htr2, trace_log, Htr0, <- !app_assoc. reflexivity.
      * apply Forall_app. split; [exact Hev0|repeat constructor].
      * unfold status_of_receipt. destruct (receipt_status receipt); [left|right]; reflexivity.
      * intros Hst. exists receipt, polls, [GetBlock (blockNumber receipt)].
        split; [rewrite <- app_assoc; reflexivity|]. split; [exact Hreply|].
        unfold status_of_receipt in Hst. destruct (receipt_status receipt);
          [reflexivity|discriminate Hst].
    + destruct (Hrescue msg (log env (GetBlock (blockNumber receipt)) w1))
        as (w2 & Hrun & Htr2).
      rewrite Hrun.
      exists w2, ((polls ++ [GetTransactionReceipt txHash])
                  ++ [GetBlock (blockNumber receipt)])%list,
             Failed, [("error_message", VStr msg)].
      split; [reflexivity|]. split; [|split; [|split]].
      * rewrite Htr2, trace_log, Htr0, <- !app_assoc. reflexivity.
      * apply Forall_app. split; [exact Hev0|repeat constructor].
      * right. reflexivity.
      * discriminate.
  - exfalso. apply Hfuel; [|reflexivity]. unfold default_timeoutMs. cbn. lia.
  - destruct (Hrescue msg w1) as (w2 & Hrun & Htr2). rewrite Hrun.
    exists w2, es0, Failed, [("error_message", VStr msg)].
    split; [reflexivity|]. split; [|split; [exact Hev0|split; [right; reflexivity|discriminate]]].
    rewrite Htr2, Htr0, <- app_assoc. reflexivity.
Qed.

(** The status updates a watcher ends with: one per record of a payment,
    one for a faucet funding. *)
Definition final_updates (m : Monitor) (st : Status) (extra : list (string * JsVal))
  : list Event :=
  match m with
  | WatchPayment dualRecords txHash => updates_for dualRecords txHash st extra
  | WatchFaucet transactionId db_id txHash =>
      [UpdateTransaction txHash st
         (("transaction_id", VStr transactionId) :: ("transaction_db_id", db_id) :: extra)]
  end.

Definition watched_hash (m : Monitor) : string :=
  match m with
  | WatchPayment _ txHash => txHash
  | WatchFaucet _ _ txHash => txHash
  end.

(** The watchers the handlers start hold records the backend acknowledged. *)
Definition well_started (m : Monitor) : Prop :=
  match m with
  | WatchPayment dualRecords _ => Forall created_ok dualRecords
  | WatchFaucet _ _ _ => True
  end.

(** X10: Whatever the node and the backend do, a watcher comes to an end, and it
    ends by reporting a final status, [completed] or [failed], once for each
    of its records and never before: nothing it does earlier is a status
    update. It reports [completed] only when the node answered one of its
    polls with a receipt whose status is true. *)
Theorem watcher_reports_once (start : Z) (m : Monitor) (w : World) :
  start <= now w ->
  well_started m ->
  exists w' es st extra,
    run_monitor env start m w = (Ok (Some tt), w')
    /\ trace w' = (trace w ++ es ++ final_updates m st extra)%list
    /\ Forall no_update es
    /\ (st = Completed \/ st = Failed)
    /\ (st = Completed -> seen_success w es (watched_hash m)).
Proof.
  intros Hstart Hm. destruct m as [records txHash|transactionId db_id txHash].
  - cbn [run_monitor final_updates watched_hash].
    apply (watch_reports start txHash _ _ (updates_for records txHash) w Hstart).
    + intros st extra w0.
      destruct (updateDual_events env records txHash st extra w0 Hm) as (us & w1 & Hrun & Htr).
      exists w1. munfold. rewrite Hrun. split; [reflexivity|exact Htr].
    + intros msg w0.
      destruct (updateDual_events env records txHash Failed [("error_message", VStr msg)]
                                  w0 Hm) as (us & w1 & Hrun & Htr).
      exists w1. munfold. rewrite Hrun. split; [reflexivity|exact Htr].
  - cbn [run_monitor final_updates watched_hash].
    apply (watch_reports start txHash _ _
             (fun st extra =>
                [UpdateTransaction txHash st
                   (("transaction_id", VStr transactionId)
                    :: ("transaction_db_id", db_id) :: extra)]) w Hstart).
    + intros st extra w0. eexists. munfold. split; reflexivity.
    + intros msg w0. eexists. munfold. split; reflexivity.
Qed.

End Watchers.

(** X9, witness: the node never has the receipt: sixty polls from the default deadline
    and interval. *)
Lemma unseen_transaction_is_polled_sixty_times :
  exists es,
    trace (snd (waitForReceipt_from Demo.friendly (now Demo.world0) "0xabc"
                  default_timeoutMs default_pollInterval Demo.world0))
    = (trace Demo.world0 ++ es)%list
    /\ (poll_count es <= 60)%nat.
Proof.
  destruct (polls_are_bounded Demo.friendly (now Demo.world0) "0xabc" default_timeoutMs
              default_pollInterval Demo.world0 (Z.le_refl _)) as (es & Htr & _ & _ & H).
  exists es. split; [exact Htr|]. apply H; reflexivity.
Defined.

(** X10, witness: the watcher of a faucet funding whose transaction the node reports as
    mined and failed. *)
Lemma reverted_faucet_is_reported_once :
  exists w' es st extra,
    run_monitor Demo.reverting (now Demo.world0)
                (WatchFaucet "faucet_1700000000000_k3j9x0q1z" (js_int 7) "0xfa") Demo.world0
    = (Ok (Some tt), w')
    /\ trace w'
       = (trace Demo.world0 ++ es
          ++ [UpdateTransaction "0xfa" st
                (("transaction_id", VStr "faucet_1700000000000_k3j9x0q1z")
                 :: ("transaction_db_id", js_int 7) :: extra)])%list
    /\ Forall no_update es
    /\ (st = Completed \/ st = Failed).
Proof.
  destruct (watcher_reports_once Demo.reverting (now Demo.world0)
              (WatchFaucet "faucet_1700000000000_k3j9x0q1z" (js_int 7) "0xfa") Demo.world0
              (Z.le_refl _) I) as (w' & es & st & extra & Hrun & Htr & Hes & Hst & _).
  exists w', es, st, extra. repeat split; assumption.
Defined.

End WatchSpec.

(* ===================================================================== *)
(** ** Start-up: waiting for the deployer to be funded *)
(* ===================================================================== *)

Module StartupSpec.
Import Chars Bytes App AppSpec.

#[local] Arguments log : simpl never.
#[local] Arguments advance : simpl never.

Section Startup.

Variable env : Oracle.

Definition is_balance_query (e : Event) : bool :=
  match e with
  | GetBalance _ => true
  | _ => false
  end.

Definition queries (es : list Event) : nat := List.length (List.filter is_balance_query es).

(** What the loop may do from a balance already read: while the balance is
    zero and retries remain, sleep one second and ask again. *)
Lemma funding_loop_run (left : nat) (balance : N) (w : World) :
  exists es,
    trace (snd (funding_loop env left balance w)) = (trace w ++ es)%list
    /\ Forall (fun e => e = SetTimeout 1000 \/ e = GetBalance (VStr (deployer env))) es
    /\ (queries es <= left)%nat
    /\ match fst (funding_loop env left balance w) with
       | Ok final =>
           (final <> 0%N \/ (queries es = left /\ balance = 0%N))
           /\ (balance <> 0%N -> es = [] /\ final = balance)
       | Throw _ => (1 <= queries es)%nat
       end.
Proof.
  revert balance w. induction left as [|left IH]; intros balance w.
  - exists []. rewrite app_nil_r. cbn [funding_loop]. munfold. cbn [fst snd].
    split; [reflexivity|]. split; [constructor|]. split; [cbn; lia|]. split.
    + destruct (N.eq_dec balance 0%N) as [-> |H]; [right; split; reflexivity|left; exact H].
    + intros _. split; reflexivity.
  - cbn [funding_loop]. destruct (N.eqb balance 0) eqn:Hz.
    + apply N.eqb_eq in Hz. subst balance. munfold.
      set (w1 := advance (timer_delay 1000) (log env (SetTimeout 1000) w)).
      destruct (balance_reply env (trace w1) (VStr (deployer env))) as [b|msg].
      * destruct (IH b (log env (GetBalance (VStr (deployer env))) w1))
          as (es & Htr & Hev & Hq & Hout).
        exists (SetTimeout 1000 :: GetBalance (VStr (deployer env)) :: es).
        split; [|split; [|split]].
        -- rewrite Htr. unfold w1, advance. rewrite trace_log. cbn [trace].
           rewrite trace_log, <- !app_assoc. reflexivity.
        -- constructor; [left; reflexivity|]. constructor; [right; reflexivity|exact Hev].
        -- unfold queries in *. cbn. lia.
        -- destruct (fst (funding_loop env left b _)) as [final|msg].
           ++ destruct Hout as [[Hf|[Hq' ->]] _]; split; try (intros H; congruence).
              ** left. exact Hf.
              ** right. unfold queries in *. cbn. split; [lia|reflexivity].
           ++ unfold queries in *. cbn. lia.
      * exists [SetTimeout 1000; GetBalance (VStr (deployer env))]. cbn [fst snd].
        split; [|split; [|split]].
        -- unfold w1, advance. rewrite trace_log. cbn [trace].
           rewrite trace_log, <- !app_assoc. reflexivity.
        -- constructor; [left; reflexivity|]. constructor; [right; reflexivity|constructor].
        -- cbn. lia.
        -- cbn. lia.
    + apply N.eqb_neq in Hz. exists []. rewrite app_nil_r. munfold. cbn [fst snd].
      split; [reflexivity|]. split; [constructor|]. split; [cbn; lia|]. split.
      * left. exact Hz.
      * intros _. split; reflexivity.
Qed.

(** X16: At start-up the deployer's balance is asked for at most eleven times,
    a second apart: once, and again after each of at most ten sleeps while
    it is zero. [main] goes on only with a balance that is not zero; it
    gives up (exit code 1) only after all eleven answers were zero. *)
Theorem funding_wait_is_bounded (w : World) :
  exists es,
    trace (snd (await_funding env w)) = (trace w ++ es)%list
    /\ Forall (fun e => e = SetTimeout 1000 \/ e = GetBalance (VStr (deployer env))) es
    /\ (1 <= queries es <= 11)%nat
    /\ match fst (await_funding env w) with
       | Ok (Some balance) => balance <> 0%N
       | Ok None => queries es = 11%nat
       | Throw _ => True
       end.
Proof.
  unfold await_funding. munfold.
  set (w0 := log env (GetBalance (VStr (deployer env))) w).
  destruct (balance_reply env (trace w) (VStr (deployer env))) as [b0|msg].
  2:{ exists [GetBalance (VStr (deployer env))]. split; [reflexivity|].
      split; [constructor; [right; reflexivity|constructor]|]. cbn. split; [lia|exact I]. }
  destruct (funding_loop_run 10 b0 w0) as (es & Htr & Hev & Hq & Hout).
  destruct (funding_loop env 10 b0 w0) as [out w1]. cbn [fst snd] in *.
  exists (GetBalance (VStr (deployer env)) :: es).
  assert (Htr' : trace w1 = (trace w ++ GetBalance (VStr (deployer env)) :: es)%list).
  { rewrite Htr. unfold w0. rewrite trace_log, <- app_assoc. reflexivity. }
  assert (Hev' : Forall (fun e => e = SetTimeout 1000 \/ e = GetBalance (VStr (deployer env)))
                        (GetBalance (VStr (deployer env)) :: es)).
  { constructor; [right; reflexivity|exact Hev]. }
  assert (Hq' : queries (GetBalance (VStr (deployer env)) :: es) = S (queries es))
    by reflexivity.
  destruct out as [final|msg].
  - destruct (N.eqb final 0) eqn:Hz; cbn [fst snd].
    + apply N.eqb_eq in Hz. subst final.
      split; [exact Htr'|]. split; [exact Hev'|]. rewrite Hq'.
      destruct Hout as [[H|[H _]] _]; [congruence|]. lia.
    + apply N.eqb_neq in Hz.
      split; [exact Htr'|]. split; [exact Hev'|]. rewrite Hq'. split; [lia|exact Hz].
  - cbn [fst snd]. split; [exact Htr'|]. split; [exact Hev'|]. rewrite Hq'.
    split; [lia|exact I].
Qed.

End Startup.

End StartupSpec.

(* ===================================================================== *)
(** ** [EmailRegistry]: the two indexes and the registration times *)
(* ===================================================================== *)

Module RegistrySpec.
Import Solidity EmailRegistry.

Lemma at_key_insert (m : gmap Z Z) (k k' v : Z) :
  at_key (<[k := v]> m) k' = if decide (k = k') then v else at_key m k'.
Proof.
  unfold at_key. destruct (decide (k = k')) as [->|Hne].
  - rewrite lookup_insert_eq. reflexivity.
  - rewrite lookup_insert_ne by exact Hne. reflexivity.
Qed.

Lemma at_key_delete (m : gmap Z Z) (k k' : Z) :
  at_key (delete k m) k' = if decide (k = k') then 0 else at_key m k'.
Proof.
  unfold at_key. destruct (decide (k = k')) as [->|Hne].
  - rewrite lookup_delete_eq. reflexivity.
  - rewrite lookup_delete_ne by exact Hne. reflexivity.
Qed.

Lemma at_key_empty (k : Z) : at_key ∅ k = 0.
Proof. unfold at_key. rewrite lookup_empty. reflexivity. Qed.

(** The two ways a call of [registerEmail] completes. *)
Inductive Registered (sender time emailHash wallet : Z) (s s' : Storage) : Prop :=
| FirstRegistration :
    wallet <> 0 -> emailHash <> 0 ->
    getWalletByEmail emailHash s = 0 ->
    emailToWallet s' = <[emailHash := wallet]> (emailToWallet s) ->
    walletToEmail s' = <[wallet := emailHash]> (walletToEmail s) ->
    registrationTimestamps s' = <[emailHash := time]> (registrationTimestamps s) ->
    Registered sender time emailHash wallet s s'
| Update :
    wallet <> 0 -> emailHash <> 0 ->
    getWalletByEmail emailHash s = sender -> sender <> 0 ->
    emailToWallet s' = <[emailHash := wallet]> (emailToWallet s) ->
    walletToEmail s' = <[wallet := emailHash]> (delete sender (walletToEmail s)) ->
    registrationTimestamps s' = registrationTimestamps s ->
    Registered sender time emailHash wallet s s'.

Lemma registerEmail_done sender time emailHash wallet s s' logs :
  registerEmail sender time emailHash wallet s = Done (s', logs) ->
  Registered sender time emailHash wallet s s'.
Proof.
  unfold registerEmail, require.
  destruct (wallet =? 0) eqn:Hw; [discriminate|]. apply Z.eqb_neq in Hw.
  destruct (emailHash =? 0) eqn:Hh; [discriminate|]. apply Z.eqb_neq in Hh.
  cbn [negb].
  destruct (at_key (emailToWallet s) emailHash =? 0) eqn:Hc; cbn [negb].
  - apply Z.eqb_eq in Hc. intros [= <- <-]. apply FirstRegistration; auto.
  - apply Z.eqb_neq in Hc.
    destruct (at_key (emailToWallet s) emailHash =? sender) eqn:Hs; [|discriminate].
    apply Z.eqb_eq in Hs. intros [= <- <-].
    apply Update; auto; try congruence. cbn. rewrite Hs. reflexivity.
Qed.

(** A transaction changes the storage only when its call completes. *)
Lemma transact_cases (s : Storage) (c : Call) :
  transact s c = s
  \/ Registered (msg_sender c) (block_timestamp c) (call_emailHash c) (call_wallet c)
                s (transact s c).
Proof.
  unfold transact.
  destruct (registerEmail (msg_sender c) (block_timestamp c) (call_emailHash c)
                          (call_wallet c) s) as [[s' logs]| |] eqn:E;
    [right; exact (registerEmail_done _ _ _ _ _ _ _ E)|left; reflexivity|left; reflexivity].
Qed.

(** Induction over the histories of the contract. *)
Lemma after_snoc (history : list Call) (c : Call) :
  after (history ++ [c]) = transact (after history) c.
Proof. unfold after. rewrite fold_left_app. reflexivity. Qed.

(** *** The reverse index *)

(** The reverse index never lies: the e-mail it gives for a wallet is
    registered to this wallet, and the zero address has no e-mail. *)
Definition reverse_consistent (s : Storage) : Prop :=
  getEmailByWallet 0 s = 0
  /\ forall wallet, getEmailByWallet wallet s <> 0 ->
                    getWalletByEmail (getEmailByWallet wallet s) s = wallet.

Lemma reverse_consistent_step sender time emailHash wallet s s' :
  Registered sender time emailHash wallet s s' ->
  reverse_consistent s -> reverse_consistent s'.
Proof.
  unfold reverse_consistent, getEmailByWallet, getWalletByEmail.
  intros [Hw Hh Hcur He Hr _|Hw Hh Hcur Hs He Hr _] [H0 Hinv]; rewrite He, Hr; split.
  - rewrite at_key_insert. destruct (decide (wallet = 0)); [congruence|exact H0].
  - intros w2. rewrite !at_key_insert.
    destruct (decide (wallet = w2)) as [<-|Hne].
    + intros _. destruct (decide (emailHash = emailHash)); [reflexivity|congruence].
    + intros Hnz. destruct (decide (emailHash = at_key (walletToEmail s) w2)) as [E|_].
      * exfalso. specialize (Hinv w2 Hnz). rewrite <- E in Hinv.
        unfold getWalletByEmail in Hcur. rewrite Hcur in Hinv. subst w2.
        apply Hnz. exact H0.
      * apply Hinv, Hnz.
  - rewrite at_key_insert, at_key_delete.
    destruct (decide (wallet = 0)); [congruence|].
    destruct (decide (sender = 0)); [reflexivity|exact H0].
  - intros w2. rewrite !at_key_insert, !at_key_delete.
    destruct (decide (wallet = w2)) as [<-|Hne].
    + intros _. destruct (decide (emailHash = emailHash)); [reflexivity|congruence].
    + destruct (decide (sender = w2)) as [<-|Hne2]; [congruence|].
      intros Hnz. destruct (decide (emailHash = at_key (walletToEmail s) w2)) as [E|_].
      * exfalso. specialize (Hinv w2 Hnz). rewrite <- E in Hinv.
        unfold getWalletByEmail in Hcur. congruence.
      * apply Hinv, Hnz.
Qed.

Lemma after_is_reverse_consistent (history : list Call) :
  reverse_consistent (after history).
Proof.
  induction history as [|c history IH] using rev_ind.
  - split; [apply at_key_empty|]. intros w H. exfalso. apply H. apply at_key_empty.
  - rewrite after_snoc. destruct (transact_cases (after history) c) as [->|H]; [exact IH|].
    exact (reverse_consistent_step _ _ _ _ _ _ H IH).
Qed.

(** X17: Whatever transactions the contract has seen, a wallet that
    [getEmailByWallet] gives an e-mail for is the wallet
    [getWalletByEmail] gives for this e-mail. *)
Theorem reverse_index_is_consistent (history : list Call) (wallet : Z) :
  getEmailByWallet wallet (after history) <> 0 ->
  getWalletByEmail (getEmailByWallet wallet (after history)) (after history) = wallet.
Proof. exact (proj2 (after_is_reverse_consistent history) wallet). Qed.

(** *** Registrations last *)

Lemma registered_step sender time emailHash wallet s s' (h : Z) :
  Registered sender time emailHash wallet s s' ->
  getWalletByEmail h s <> 0 ->
  getWalletByEmail h s' <> 0 /\ getRegistrationTime h s' = getRegistrationTime h s.
Proof.
  unfold getWalletByEmail, getRegistrationTime.
  intros [Hw Hh Hcur He _ Ht|Hw Hh Hcur Hs He _ Ht] Hreg; rewrite He, Ht.
  - rewrite !at_key_insert. unfold getWalletByEmail in Hcur.
    destruct (decide (emailHash = h)) as [<-|_]; [congruence|]. split; [exact Hreg|reflexivity].
  - rewrite at_key_insert.
    destruct (decide (emailHash = h)); [split; [exact Hw|reflexivity]|].
    split; [exact Hreg|reflexivity].
Qed.

Lemma registered_later (s : Storage) (later : list Call) (h : Z) :
  getWalletByEmail h s <> 0 ->
  getWalletByEmail h (List.fold_left transact later s) <> 0
  /\ getRegistrationTime h (List.fold_left transact later s) = getRegistrationTime h s.
Proof.
  revert s. induction later as [|c later IH]; intros s Hreg; [split; [exact Hreg|reflexivity]|].
  cbn [List.fold_left].
  destruct (transact_cases s c) as [->|H]; [apply IH, Hreg|].
  destruct (registered_step _ _ _ _ _ _ h H Hreg) as [Hreg' Ht].
  destruct (IH _ Hreg') as [Hr Ht']. split; [exact Hr|]. rewrite Ht', Ht. reflexivity.
Qed.

(** X18: An e-mail once registered stays registered, whatever transactions
    follow (the contract has no way to unregister), and the time of
    its registration is the time of the first one: an update of the wallet
    does not touch it. *)
Theorem registration_is_permanent (history later : list Call) (emailHash : Z) :
  isEmailRegistered emailHash (after history) = true ->
  isEmailRegistered emailHash (after (history ++ later)) = true
  /\ getRegistrationTime emailHash (after (history ++ later))
     = getRegistrationTime emailHash (after history).
Proof.
  unfold isEmailRegistered. intros H. apply negb_true_iff, Z.eqb_neq in H.
  unfold after. rewrite fold_left_app.
  destruct (registered_later (List.fold_left transact history deployed) later emailHash H)
    as [Hr Ht].
  split; [|exact Ht]. apply negb_true_iff, Z.eqb_neq, Hr.
Qed.

(** *** One call *)

(** X19: [registerEmail] on its own: it refuses the zero address and the zero
    hash; an e-mail at a wallet can be moved only by a call from this
    wallet, any other caller being refused with the storage unchanged; and
    when the call completes, the e-mail resolves to the new wallet, the new
    wallet to the e-mail, every other e-mail to the wallet it had, and the
    call logged one event. *)
Theorem registerEmail_contract (sender time emailHash wallet : Z) (s : Storage) :
  (wallet = 0 ->
   registerEmail sender time emailHash wallet s = Revert "Cannot register zero address")
  /\ (wallet <> 0 -> emailHash = 0 ->
      registerEmail sender time emailHash wallet s = Revert "Invalid email hash")
  /\ (wallet <> 0 -> emailHash <> 0 ->
      getWalletByEmail emailHash s <> 0 -> getWalletByEmail emailHash s <> sender ->
      registerEmail sender time emailHash wallet s
      = Revert "Email already registered to another wallet")
  /\ (forall s' logs,
        registerEmail sender time emailHash wallet s = Done (s', logs) ->
        getWalletByEmail emailHash s' = wallet
        /\ getEmailByWallet wallet s' = emailHash
        /\ (forall other, other <> emailHash ->
                          getWalletByEmail other s' = getWalletByEmail other s)
        /\ logs = (if getWalletByEmail emailHash s =? 0
                   then [EmailRegistered emailHash wallet]
                   else [EmailUpdated emailHash (getWalletByEmail emailHash s) wallet])).
Proof.
  unfold registerEmail, require, getWalletByEmail, getEmailByWallet.
  split; [intros ->; reflexivity|].
  split; [intros Hw ->; apply Z.eqb_neq in Hw; rewrite Hw; reflexivity|].
  split.
  - intros Hw Hh Hc Hs. apply Z.eqb_neq in Hw, Hh, Hc, Hs. rewrite Hw, Hh, Hc, Hs. reflexivity.
  - intros s' logs.
    destruct (wallet =? 0); [discriminate|].
    destruct (emailHash =? 0); [discriminate|]. cbn [negb].
    destruct (at_key (emailToWallet s) emailHash =? 0); cbn [negb].
    + intros [= <- <-]. cbn [emailToWallet walletToEmail]. rewrite !at_key_insert.
      destruct (decide (emailHash = emailHash)); [|congruence].
      destruct (decide (wallet = wallet)); [|congruence].
      repeat split. intros other Hne. rewrite at_key_insert.
      destruct (decide (emailHash = other)); [congruence|reflexivity].
    + destruct (at_key (emailToWallet s) emailHash =? sender); [|discriminate].
      intros [= <- <-]. cbn [emailToWallet walletToEmail]. rewrite !at_key_insert.
      destruct (decide (emailHash = emailHash)); [|congruence].
      destruct (decide (wallet = wallet)); [|congruence].
      repeat split. intros other Hne. rewrite at_key_insert.
      destruct (decide (emailHash = other)); [congruence|reflexivity].
Qed.

(** Two e-mails registered to one wallet, then one of them moved: the
    reverse index gives the wallet the e-mail registered last, and loses it
    when the other e-mail is moved away. *)
Example shared_wallet_loses_its_reverse_entry :
  let s1 := after [{| msg_sender := 9; block_timestamp := 100;
                      call_emailHash := 5; call_wallet := 7 |};
                   {| msg_sender := 9; block_timestamp := 101;
                      call_emailHash := 6; call_wallet := 7 |}] in
  let s2 := transact s1 {| msg_sender := 7; block_timestamp := 102;
                           call_emailHash := 5; call_wallet := 8 |} in
  getWalletByEmail 5 s1 = 7 /\ getWalletByEmail 6 s1 = 7 /\ getEmailByWallet 7 s1 = 6
  /\ getWalletByEmail 6 s2 = 7 /\ isWalletRegistered 7 s2 = false
  /\ getRegistrationTime 5 s2 = 100.
Proof. vm_compute. repeat split. Qed.

(** X17, witness: two e-mails registered to the wallet 7; the reverse index
    gives it the second, which resolves to it. *)
Lemma reverse_entry_of_a_shared_wallet :
  getWalletByEmail
    (getEmailByWallet 7
       (after [{| msg_sender := 9; block_timestamp := 100;
                  call_emailHash := 5; call_wallet := 7 |};
               {| msg_sender := 9; block_timestamp := 101;
                  call_emailHash := 6; call_wallet := 7 |}]))
    (after [{| msg_sender := 9; block_timestamp := 100;
               call_emailHash := 5; call_wallet := 7 |};
            {| msg_sender := 9; block_timestamp := 101;
               call_emailHash := 6; call_wallet := 7 |}]) = 7.
Proof.
  apply (reverse_index_is_consistent
           [{| msg_sender := 9; block_timestamp := 100; call_emailHash := 5; call_wallet := 7 |};
            {| msg_sender := 9; block_timestamp := 101; call_emailHash := 6; call_wallet := 7 |}]
           7).
  vm_compute. discriminate.
Defined.

(** X19, witness: the wallet 7, which holds the e-mail 5, moves it to the
    wallet 8. *)
Lemma wallet_moves_its_email :
  exists s' logs,
    registerEmail 7 200 5 8
      (after [{| msg_sender := 9; block_timestamp := 100;
                 call_emailHash := 5; call_wallet := 7 |}]) = Done (s', logs)
    /\ getWalletByEmail 5 s' = 8
    /\ getEmailByWallet 8 s' = 5
    /\ logs = [EmailUpdated 5 7 8].
Proof.
  eexists; eexists. split; [vm_compute; reflexivity|].
  destruct (registerEmail_contract 7 200 5 8
              (after [{| msg_sender := 9; block_timestamp := 100;
                         call_emailHash := 5; call_wallet := 7 |}]))
    as (_ & _ & _ & H).
  destruct (H _ _ ltac:(vm_compute; reflexivity)) as (Hw & He & _ & Hl).
  split; [exact Hw|]. split; [exact He|]. exact Hl.
Defined.

(** X18, witness: an e-mail registered at time 100 and moved at time 200. *)
Lemma moved_email_keeps_its_time :
  isEmailRegistered 5
    (after ([{| msg_sender := 9; block_timestamp := 100;
                call_emailHash := 5; call_wallet := 7 |}]
            ++ [{| msg_sender := 7; block_timestamp := 200;
                   call_emailHash := 5; call_wallet := 8 |}])) = true
  /\ getRegistrationTime 5
       (after ([{| msg_sender := 9; block_timestamp := 100;
                   call_emailHash := 5; call_wallet := 7 |}]
               ++ [{| msg_sender := 7; block_timestamp := 200;
                      call_emailHash := 5; call_wallet := 8 |}]))
     = getRegistrationTime 5
         (after [{| msg_sender := 9; block_timestamp := 100;
                    call_emailHash := 5; call_wallet := 7 |}]).
Proof.
  apply (registration_is_permanent
           [{| msg_sender := 9; block_timestamp := 100; call_emailHash := 5; call_wallet := 7 |}]
           [{| msg_sender := 7; block_timestamp := 200; call_emailHash := 5; call_wallet := 8 |}]
           5).
  vm_compute. reflexivity.
Defined.

End RegistrySpec.

(* ===================================================================== *)
(** ** [PaymentManager]: the guard, the owner and the ether *)
(* ===================================================================== *)

Module PaymentSpec.
Import Solidity PaymentManager.

(** The ether a call sent, in order. *)
Fixpoint outgoing (es : list Effect) : list (Z * Z) :=
  match es with
  | [] => []
  | Sent to amount _ :: rest => (to, amount) :: outgoing rest
  | Emitted _ :: rest => outgoing rest
  end.

(** The events a call emitted, in order. *)
Fixpoint events (es : list Effect) : list Log :=
  match es with
  | [] => []
  | Sent _ _ _ :: rest => events rest
  | Emitted log :: rest => log :: events rest
  end.

Definition total (payments : list (Z * Z)) : Z :=
  List.fold_right (fun p acc => snd p + acc) 0 payments.

(** The callee of the call finds the guard set. *)
Definition guard_set (e : Effect) : Prop :=
  match e with
  | Sent _ _ found => _status found = _ENTERED
  | Emitted _ => True
  end.

(** The owner after a series of effects that starts with the owner [o]:
    each [OwnershipTransferred] names the owner before it and a new owner
    that is not the zero address. *)
Fixpoint owner_after (o : Z) (es : list Effect) : option Z :=
  match es with
  | [] => Some o
  | Emitted (OwnershipTransferred previous new) :: rest =>
      if (previous =? o) && negb (new =? 0) then owner_after new rest else None
  | _ :: rest => owner_after o rest
  end.

(** The functions with the modifier [nonReentrant]. *)
Definition guarded (fn : Function) : bool :=
  match fn with
  | TransferOwnership _ | Receive => false
  | _ => true
  end.

(** The entries of a batch that are paid: those of a non-zero amount. *)
Definition nonzero (recipients : list (Z * Z)) : list (Z * Z) :=
  List.filter (fun p => negb (snd p =? 0)) recipients.

Definition paid (toWallets amounts : list Z) : list (Z * Z) :=
  nonzero (List.combine toWallets amounts).

Lemma outgoing_app a b : outgoing (a ++ b) = (outgoing a ++ outgoing b)%list.
Proof. induction a as [|[]]; cbn; congruence. Qed.

Lemma events_app a b : events (a ++ b) = (events a ++ events b)%list.
Proof. induction a as [|[]]; cbn; congruence. Qed.

Lemma total_app a b : total (a ++ b) = total a + total b.
Proof.
  induction a as [|[x y] a IH]; [reflexivity|].
  change (y + total (a ++ b) = y + total a + total b). lia.
Qed.

Lemma owner_after_app o a b :
  owner_after o (a ++ b) = match owner_after o a with
                           | Some o' => owner_after o' b
                           | None => None
                           end.
Proof.
  revert o; induction a as [|[to amt found|[]] a IH]; intros o; cbn; auto.
  destruct (_ && _); auto.
Qed.

Definition is_transfer (log : Log) : bool :=
  match log with
  | OwnershipTransferred _ _ => true
  | _ => false
  end.

(** The events of a call other than the changes of owner. *)
Definition payment_events (es : list Effect) : list Log :=
  List.filter (fun log => negb (is_transfer log)) (events es).

Lemma payment_events_app a b :
  payment_events (a ++ b) = (payment_events a ++ payment_events b)%list.
Proof. unfold payment_events. now rewrite events_app, List.filter_app. Qed.

(** A call back is quiet when it sends no ether and announces nothing but
    changes of owner. *)
Definition quiet (es : list Effect) : Prop := outgoing es = [] /\ payment_events es = [].

Lemma quiet_nil : quiet [].
Proof. split; reflexivity. Qed.

Lemma quiet_app a b : quiet a -> quiet b -> quiet (a ++ b).
Proof.
  intros [Ha Ha'] [Hb Hb']. split.
  - now rewrite outgoing_app, Ha, Hb.
  - now rewrite payment_events_app, Ha', Hb'.
Qed.

Lemma quiet_guard_set es : quiet es -> Forall guard_set es.
Proof.
  intros [H _]. induction es as [|[to amt found|log] es IH]; cbn in *.
  - constructor.
  - discriminate H.
  - constructor; [exact I | auto].
Qed.

(** What the callees of a guarded function do to the contract while the
    guard is set: they leave it set, send no ether from the contract, and
    change the owner only with announced transfers. *)
Definition kept_out (c : Callees) : Prop :=
  forall n to v s, _status s = _ENTERED ->
    _status (snd (fst (c n to v s))) = _ENTERED /\
    quiet (snd (c n to v s)) /\
    owner_after (owner s) (snd (c n to v s)) = Some (owner (snd (fst (c n to v s)))).

Ltac run :=
  cbv beta iota zeta delta
    [dispatch withdrawAll withdrawAmount transferOwnership sendPaymentToWallet
     sendPaymentFromWallet batchPaymentToWallets onlyOwner nonReentrant
     mbind Exec_bind mret Exec_ret requires read_owner read_status
     write_owner write_status emit checked nonpayable call_value start];
  cbn [storage effects calls_made owner _status].

(** A call that finds the guard set. *)
Lemma entered_call c fn msg balance s :
  _status s = _ENTERED ->
  match dispatch c fn msg balance (start s) with
  | Done (_, f) =>
      guarded fn = false /\ _status (storage f) = _ENTERED /\ quiet (effects f) /\
      owner_after (owner s) (effects f) = Some (owner (storage f))
  | Revert _ => True
  | Panic _ => False
  end.
Proof.
  intros Hs.
  destruct fn; run;
    repeat match goal with
           | H : negb (_status s =? _ENTERED) = true |- _ =>
               rewrite Hs in H; discriminate H
           | |- context [if ?b then _ else _] =>
               destruct b eqn:?; cbn [storage effects calls_made owner _status]; auto
           end.
  - (* transferOwnership *)
    split; [reflexivity|]. split; [assumption|]. split.
    + split; reflexivity.
    + cbn. rewrite Z.eqb_refl, Heqb1. reflexivity.
  - (* receive *)
    split; [reflexivity|]. split; [assumption|]. split; [apply quiet_nil | reflexivity].
Qed.

(** The calls back of one callee, one after the other. *)
Lemma reentries_kept_out depth reentries :
  (forall behaviours, kept_out (realize depth behaviours)) ->
  forall acc o,
    _status (fst acc) = _ENTERED -> quiet (snd acc) ->
    owner_after o (snd acc) = Some (owner (fst acc)) ->
    let after :=
      fold_left
        (fun (acc : Storage * list Effect) (r : Reentry) =>
           match r with
           | Reenter fn msg balance callees =>
               match dispatch (realize depth callees) fn msg balance (start (fst acc)) with
               | Done (_, f) => (storage f, (snd acc ++ effects f)%list)
               | Revert _ | Panic _ => acc
               end
           end)
        reentries acc in
    _status (fst after) = _ENTERED /\ quiet (snd after) /\
    owner_after o (snd after) = Some (owner (fst after)).
Proof.
  intros IH. induction reentries as [|[fn msg balance callees] rest IHr];
    intros acc o Hs Hq Ho; cbn [fold_left].
  - auto.
  - pose proof (entered_call (realize depth callees) fn msg balance (fst acc) Hs) as Hcall.
    destruct (dispatch (realize depth callees) fn msg balance (start (fst acc)))
      as [[[] f]| |]; [|now apply IHr | now apply IHr].
    destruct Hcall as (_ & Hs' & Hq' & Ho').
    apply IHr; cbn [fst snd]; auto using quiet_app.
    rewrite owner_after_app, Ho. exact Ho'.
Qed.

(** Callees that call back are kept out by the guard. *)
Lemma realize_kept_out depth : forall behaviours, kept_out (realize depth behaviours).
Proof.
  induction depth as [|depth IH]; intros behaviours n to v s Hs; cbn [realize].
  - cbn. split; [assumption|]. split; [apply quiet_nil | reflexivity].
  - destruct (nth_error behaviours n) as [[reentries success]|].
    2:{ cbn. split; [assumption|]. split; [apply quiet_nil | reflexivity]. }
    pose proof (reentries_kept_out depth reentries IH (s, []) (owner s) Hs quiet_nil eq_refl)
      as Hafter.
    cbv zeta in Hafter |- *.
    destruct success; cbn [fst snd].
    + exact Hafter.
    + split; [assumption|]. split; [apply quiet_nil | reflexivity].
Qed.


Section Guarded.

Variable c : Callees.
Hypothesis kept : kept_out c.

(** A call made while the guard is set. *)
Lemma call_value_guarded to v f :
  _status (storage f) = _ENTERED ->
  exists sent f' nested,
    call_value c to v f = Done (sent, f') /\
    _status (storage f') = _ENTERED /\
    effects f' = (effects f ++ Sent to v (storage f) :: nested)%list /\
    quiet nested /\
    owner_after (owner (storage f)) nested = Some (owner (storage f')).
Proof.
  intros Hs. unfold call_value.
  destruct (kept (calls_made f) to v (storage f) Hs) as (Hs' & Hq & Ho).
  destruct (c (calls_made f) to v (storage f)) as [[sent left_behind] nested].
  cbn [fst snd] in *. eexists _, _, _. split; [reflexivity|]. cbn. auto.
Qed.

Ltac steps H :=
  repeat (cbn [storage effects calls_made owner _status] in H;
          match type of H with
          | context [if ?b then _ else _] => destruct b eqn:?; try discriminate H
          | context [c ?n ?to ?v ?s] =>
              let Hs := fresh "Hs" in let Hq := fresh "Hq" in let Ho := fresh "Ho" in
              destruct (kept n to v s eq_refl) as (Hs & Hq & Ho);
              destruct (c n to v s) as [[? ?] ?]; cbn [fst snd] in Hs, Hq, Ho
          end).

Ltac run_in H :=
  cbv beta iota zeta delta
    [mbind Exec_bind mret Exec_ret requires read_owner read_status
     write_owner write_status emit checked nonpayable] in H;
  cbn [storage effects calls_made owner _status] in H.

Lemma nonzero_cons to amt rest :
  nonzero ((to, amt) :: rest) = if amt =? 0 then nonzero rest else (to, amt) :: nonzero rest.
Proof. unfold nonzero. cbn. now destruct (amt =? 0). Qed.

(** The loop of a batch: what it sends and announces, and its totals. *)
Lemma batch_loop_run msg : forall recipients remaining totalSent f f' remaining' totalSent',
  _status (storage f) = _ENTERED ->
  batch_loop c msg recipients remaining totalSent f = Done ((remaining', totalSent'), f') ->
  exists new,
    effects f' = (effects f ++ new)%list /\
    _status (storage f') = _ENTERED /\
    Forall guard_set new /\
    owner_after (owner (storage f)) new = Some (owner (storage f')) /\
    outgoing new = nonzero recipients /\
    payment_events new
    = List.map (fun p => PaymentSent (sender msg) (fst p) (snd p)) (nonzero recipients) /\
    totalSent' = totalSent + total (nonzero recipients) /\
    remaining' = remaining - total (nonzero recipients) /\
    (0 <= remaining -> total (nonzero recipients) <= remaining) /\
    Forall (fun p => fst p <> 0) recipients.
Proof.
  induction recipients as [|[to amt] rest IH];
    intros remaining totalSent f f' remaining' totalSent' Hs H.
  - injection H as <- <- <-. exists []. rewrite app_nil_r.
    unfold nonzero, total. cbn. repeat split; auto; lia.
  - cbn [batch_loop] in H. run_in H.
    destruct (negb (to =? 0)) eqn:Hto; [|discriminate H].
    assert (to <> 0) as Hto' by (intros ->; discriminate Hto).
    rewrite nonzero_cons.
    destruct (amt =? 0) eqn:Hamt.
    + destruct (IH _ _ _ _ _ _ Hs H) as (new & ? & ? & ? & ? & ? & ? & ? & ? & ? & ?).
      exists new. repeat split; auto.
    + destruct (amt <=? remaining) eqn:Hle; [|discriminate H].
      unfold checked_sub, checked_add in H. rewrite Hle in H.
      destruct (totalSent + amt <=? MAX_UINT256); [|discriminate H].
      destruct (call_value_guarded to amt f Hs) as (sent & f1 & nested & Hcall & Hs1 & He1 & Hq & Ho).
      rewrite Hcall in H. destruct sent; [|discriminate H].
      cbn [storage effects calls_made] in H.
      apply Z.leb_le in Hle.
      match type of H with
      | batch_loop _ _ _ _ _ ?f2 = _ =>
          destruct (IH _ _ f2 _ _ _ Hs1 H) as (new & Hn & ? & ? & Hon & Hout & Hev & ? & ? & ? & ?);
          cbn [storage effects] in Hn, Hon
      end.
      exists (Sent to amt (storage f) :: nested ++ Emitted (PaymentSent (sender msg) to amt) :: new)%list.
      split.
      { rewrite Hn, He1. rewrite <- !app_assoc. reflexivity. }
      split; [assumption|].
      split.
      { constructor; [exact Hs|]. apply Forall_app. split; [now apply quiet_guard_set|].
        constructor; [exact I | assumption]. }
      split.
      { cbn [owner_after]. rewrite owner_after_app, Ho. exact Hon. }
      split.
      { cbn [outgoing]. rewrite outgoing_app. destruct Hq as [-> _]. cbn. now rewrite Hout. }
      split.
      { change (Sent to amt (storage f) :: nested ++ Emitted (PaymentSent (sender msg) to amt) :: new)%list
          with ([Sent to amt (storage f)] ++ nested ++ [Emitted (PaymentSent (sender msg) to amt)] ++ new)%list.
        rewrite !payment_events_app. destruct Hq as [_ ->]. cbn. now rewrite Hev. }
      change (total ((to, amt) :: nonzero rest)) with (amt + total (nonzero rest)).
      repeat split; auto; lia.
Qed.

Lemma outgoing_sent to v found nested rest :
  quiet nested -> outgoing (Sent to v found :: nested ++ rest) = (to, v) :: outgoing rest.
Proof. intros [Hq _]. cbn [outgoing]. now rewrite outgoing_app, Hq. Qed.

Lemma payment_events_sent to v found nested rest :
  quiet nested -> payment_events (Sent to v found :: nested ++ rest) = payment_events rest.
Proof.
  intros [_ Hq]. change (payment_events (nested ++ rest) = payment_events rest).
  now rewrite payment_events_app, Hq.
Qed.

Lemma owner_after_sent o o' to v found nested rest :
  owner_after o nested = Some o' ->
  owner_after o (Sent to v found :: nested ++ rest) = owner_after o' rest.
Proof. intros Ho. cbn [owner_after]. now rewrite owner_after_app, Ho. Qed.

Lemma guard_set_sent to v found nested rest :
  _status found = _ENTERED -> quiet nested -> Forall guard_set rest ->
  Forall guard_set (Sent to v found :: nested ++ rest).
Proof.
  intros Hs Hq Hrest. constructor; [exact Hs|].
  apply Forall_app. split; [now apply quiet_guard_set | exact Hrest].
Qed.

(** What a completed call of a function is made of. *)
Record Completed (fn : Function) (s : Storage) (f' : Frame) : Prop := {
  callees_find_guard : Forall guard_set (effects f');
  owner_is_announced : owner_after (owner s) (effects f') = Some (owner (storage f'));
  guard_is_released : _status (storage f') = if guarded fn then _NOT_ENTERED else _status s;
  guard_was_free : guarded fn = true -> _status s <> _ENTERED
}.

Lemma not_entered s : negb (_status s =? _ENTERED) = true -> _status s <> _ENTERED.
Proof. intros H E. rewrite E in H. discriminate H. Qed.

Lemma payment_run fn msg toWallet balance s f' :
  fn = SendPaymentToWallet toWallet \/ fn = SendPaymentFromWallet toWallet ->
  dispatch c fn msg balance (start s) = Done (tt, f') ->
  Completed fn s f' /\
  0 < value msg /\ toWallet <> 0 /\
  outgoing (effects f') = [(toWallet, value msg)] /\
  payment_events (effects f') = [PaymentSent (sender msg) toWallet (value msg)].
Proof.
  intros [-> | ->]; run; intros H; steps H.
  all: injection H as <-; cbn [storage effects calls_made owner _status app] in *.
  all: split; [constructor; cbn [storage effects calls_made owner _status guarded]|].
  all: rewrite ?outgoing_sent, ?payment_events_sent by assumption.
  all: try (erewrite owner_after_sent by eassumption).
  all: auto using not_entered.
  all: try (apply guard_set_sent; [reflexivity | assumption | repeat constructor]).
  all: repeat split; try reflexivity.
  all: try (apply Z.ltb_lt; assumption).
  all: intros ->; discriminate.
Qed.

Lemma withdrawal_run fn msg balance amount s f' :
  fn = WithdrawAll /\ amount = balance \/ fn = WithdrawAmount amount ->
  dispatch c fn msg balance (start s) = Done (tt, f') ->
  Completed fn s f' /\
  value msg = 0 /\ sender msg = owner s /\ amount <= balance /\
  (fn = WithdrawAll -> 0 < amount) /\
  outgoing (effects f') = [(owner s, amount)] /\
  payment_events (effects f') = [Withdrawn (owner (storage f')) amount].
Proof.
  intros [[-> ->] | ->]; run; intros H; steps H.
  all: injection H as <-; cbn [storage effects calls_made owner _status app] in *.
  all: split; [constructor; cbn [storage effects calls_made owner _status guarded]|].
  all: rewrite ?outgoing_sent, ?payment_events_sent by assumption.
  all: try (erewrite owner_after_sent by eassumption).
  all: auto using not_entered.
  all: try (apply guard_set_sent; [reflexivity | assumption | repeat constructor]).
  all: repeat split; try reflexivity; try lia.
  all: try (apply Z.eqb_eq; assumption).
  all: try (apply Z.leb_le; assumption).
  all: try (intros _; apply Z.ltb_lt; assumption).
  all: discriminate.
Qed.

Lemma transfer_run msg newOwner balance s f' :
  dispatch c (TransferOwnership newOwner) msg balance (start s) = Done (tt, f') ->
  Completed (TransferOwnership newOwner) s f' /\
  value msg = 0 /\ sender msg = owner s /\ newOwner <> 0 /\
  effects f' = [Emitted (OwnershipTransferred (owner s) newOwner)] /\
  storage f' = {| owner := newOwner; _status := _status s |}.
Proof.
  run; intros H; steps H.
  injection H as <-; cbn [storage effects calls_made owner _status app] in *.
  assert (newOwner <> 0) by (intros ->; discriminate).
  split; [constructor; cbn [storage effects calls_made owner _status guarded]|].
  - repeat constructor.
  - cbn. rewrite Z.eqb_refl. now destruct (newOwner =? 0).
  - reflexivity.
  - discriminate.
  - repeat split; auto; apply Z.eqb_eq; assumption.
Qed.

Lemma batch_run msg toWallets amounts balance s f' :
  dispatch c (BatchPaymentToWallets toWallets amounts) msg balance (start s) = Done (tt, f') ->
  let due := total (paid toWallets amounts) in
  let refund := value msg - due in
  Completed (BatchPaymentToWallets toWallets amounts) s f' /\
  toWallets <> [] /\ List.length toWallets = List.length amounts /\
  Forall (fun p => fst p <> 0) (List.combine toWallets amounts) /\
  (0 <= value msg -> due <= value msg) /\
  outgoing (effects f')
  = (paid toWallets amounts ++ if 0 <? refund then [(sender msg, refund)] else [])%list /\
  payment_events (effects f')
  = (List.map (fun p => PaymentSent (sender msg) (fst p) (snd p)) (paid toWallets amounts)
     ++ (if 0 <? refund then [Refunded (sender msg) refund] else [])
     ++ [BatchCompleted (sender msg) due refund])%list.
Proof.
  cbv beta iota zeta delta
    [dispatch batchPaymentToWallets nonReentrant mbind Exec_bind mret Exec_ret requires
     read_status write_status emit start];
  cbn [storage effects calls_made owner _status].
  intros H.
  destruct (negb (_status s =? _ENTERED)) eqn:Hfree; [|discriminate H].
  cbn [storage effects calls_made owner _status] in H.
  destruct (Nat.ltb 0 (List.length toWallets)) eqn:Hn; [|discriminate H].
  destruct (Nat.eqb (List.length toWallets) (List.length amounts)) eqn:Hlen; [|discriminate H].
  match type of H with
  | context [batch_loop c msg ?rs ?r ?t ?f] =>
      destruct (batch_loop c msg rs r t f) as [[[remaining totalSent] f1]| |] eqn:Hloop;
      [|discriminate H | discriminate H];
      apply batch_loop_run in Hloop; [|reflexivity];
      destruct Hloop as (new & He & Hs1 & Hg & Ho & Hout & Hev & Ht & Hr & Hdue & Hto)
  end.
  cbn [storage effects calls_made owner _status app] in *.
  fold (paid toWallets amounts) in *.
  assert (remaining = value msg - total (paid toWallets amounts)) as -> by lia.
  assert (totalSent = total (paid toWallets amounts)) as -> by lia.
  cbv zeta.
  assert (toWallets <> []) by (intros ->; discriminate Hn).
  apply Nat.eqb_eq in Hlen.
  destruct (0 <? value msg - total (paid toWallets amounts)) eqn:Hrefund.
  - destruct (call_value_guarded (sender msg) (value msg - total (paid toWallets amounts)) f1 Hs1)
      as (sent & f2 & nested & Hcall & Hs2 & He2 & Hq & Ho2).
    rewrite Hcall in H. destruct sent; [|discriminate H].
    injection H as <-; cbn [storage effects calls_made owner _status app] in *.
    rewrite He2, He. rewrite <- ?app_assoc. cbn [app].
    split; [constructor; cbn [storage effects calls_made owner _status guarded]|].
    + apply Forall_app. split; [exact Hg|].
      apply guard_set_sent; [exact Hs1 | exact Hq | repeat constructor].
    + rewrite owner_after_app, Ho.
      erewrite owner_after_sent by exact Ho2. reflexivity.
    + reflexivity.
    + intros _. now apply not_entered.
    + repeat split; auto.
      * rewrite outgoing_app, Hout, outgoing_sent by exact Hq. reflexivity.
      * rewrite payment_events_app, Hev, payment_events_sent by exact Hq. reflexivity.
  - injection H as <-; cbn [storage effects calls_made owner _status app] in *.
    rewrite He.
    split; [constructor; cbn [storage effects calls_made owner _status guarded]|].
    + apply Forall_app. split; [exact Hg | repeat constructor].
    + rewrite owner_after_app, Ho. reflexivity.
    + reflexivity.
    + intros _. now apply not_entered.
    + repeat split; auto.
      * rewrite outgoing_app, Hout. reflexivity.
      * rewrite payment_events_app, Hev. reflexivity.
Qed.

(** The totals of a batch stay within [uint256]. *)
Lemma batch_loop_no_panic msg : forall recipients remaining totalSent f code,
  _status (storage f) = _ENTERED -> remaining + totalSent <= MAX_UINT256 ->
  batch_loop c msg recipients remaining totalSent f <> Panic code.
Proof.
  induction recipients as [|[to amt] rest IH]; intros remaining totalSent f code Hs Hmax H.
  - discriminate H.
  - cbn [batch_loop] in H. run_in H.
    destruct (negb (to =? 0)); [|discriminate H].
    destruct (amt =? 0); [exact (IH _ _ _ _ Hs Hmax H)|].
    destruct (amt <=? remaining) eqn:Hle; [|discriminate H].
    unfold checked_sub, checked_add in H. rewrite Hle in H.
    apply Z.leb_le in Hle.
    destruct (totalSent + amt <=? MAX_UINT256) eqn:Hadd;
      [|apply Z.leb_gt in Hadd; lia].
    destruct (call_value_guarded to amt f Hs) as (sent & f1 & nested & Hcall & Hs1 & _).
    rewrite Hcall in H. destruct sent; [|discriminate H].
    cbn [storage effects calls_made] in H.
    refine (IH _ _ _ _ _ _ H); [exact Hs1 | lia].
Qed.

Lemma never_panics fn msg balance s code :
  value msg <= MAX_UINT256 ->
  dispatch c fn msg balance (start s) <> Panic code.
Proof.
  intros Hmax. destruct fn.
  1-5,7: run; intros H; steps H; try discriminate H.
  cbv beta iota zeta delta
    [dispatch batchPaymentToWallets nonReentrant mbind Exec_bind mret Exec_ret requires
     read_status write_status emit start];
  cbn [storage effects calls_made owner _status].
  intros H.
  destruct (negb (_status s =? _ENTERED)); [|discriminate H].
  cbn [storage effects calls_made owner _status] in H.
  destruct (Nat.ltb 0 (List.length toWallets)); [|discriminate H].
  destruct (Nat.eqb (List.length toWallets) (List.length amounts)); [|discriminate H].
  match type of H with
  | context [batch_loop c msg ?rs ?r ?t ?f] =>
      destruct (batch_loop c msg rs r t f) as [[[remaining totalSent] f1]| |] eqn:Hloop;
      [|discriminate H | apply batch_loop_no_panic in Hloop; [exact Hloop | reflexivity | cbn; lia]]
  end.
  apply batch_loop_run in Hloop; [|reflexivity].
  destruct Hloop as (_ & _ & Hs1 & _).
  destruct (0 <? remaining).
  - destruct (call_value_guarded (sender msg) remaining f1 Hs1) as (sent & f2 & nested & Hcall & _).
    rewrite Hcall in H. destruct sent; discriminate H.
  - discriminate H.
Qed.

Lemma completed_call fn msg balance s f' :
  dispatch c fn msg balance (start s) = Done (tt, f') -> Completed fn s f'.
Proof.
  intros H. destruct fn.
  - exact (proj1 (withdrawal_run WithdrawAll msg balance balance s f' (or_introl (conj eq_refl eq_refl)) H)).
  - exact (proj1 (withdrawal_run (WithdrawAmount amount) msg balance amount s f' (or_intror eq_refl) H)).
  - exact (proj1 (transfer_run msg newOwner balance s f' H)).
  - exact (proj1 (payment_run _ msg toWallet balance s f' (or_introl eq_refl) H)).
  - exact (proj1 (payment_run _ msg toWallet balance s f' (or_intror eq_refl) H)).
  - exact (proj1 (batch_run msg toWallets amounts balance s f' H)).
  - injection H as <-. constructor; cbn; auto; discriminate.
Qed.

End Guarded.

Lemma owner_after_nonzero es : forall o o',
  owner_after o es = Some o' -> o <> 0 -> o' <> 0.
Proof.
  induction es as [|[to amt found|[]] es IH]; intros o o' H Ho; cbn in H; eauto.
  - now injection H as <-.
  - destruct (previousOwner =? o); cbn in H; [|discriminate H].
    destruct (newOwner =? 0) eqn:Hn; cbn in H; [discriminate H|].
    apply (IH _ _ H). intros ->. discriminate Hn.
Qed.

Lemma total_refund payments to refund :
  total (payments ++ if 0 <? refund then [(to, refund)] else []) =
  total payments + Z.max 0 refund.
Proof.
  rewrite total_app. destruct (0 <? refund) eqn:H.
  - apply Z.ltb_lt in H. cbn. lia.
  - apply Z.ltb_ge in H. cbn. lia.
Qed.

(** *** What the contract keeps to, whatever its callees do *)

(** X20: A single payment sends the ether it comes with to the recipient, once,
    and nothing else leaves the contract before it returns. *)
Theorem payment_forwards_the_value depth behaviours fn msg toWallet balance s f' :
  fn = SendPaymentToWallet toWallet \/ fn = SendPaymentFromWallet toWallet ->
  dispatch (realize depth behaviours) fn msg balance (start s) = Done (tt, f') ->
  0 < value msg /\ toWallet <> 0 /\
  outgoing (effects f') = [(toWallet, value msg)] /\
  payment_events (effects f') = [PaymentSent (sender msg) toWallet (value msg)].
Proof.
  intros Hfn H.
  exact (proj2 (payment_run _ (realize_kept_out depth behaviours) fn msg toWallet balance s f' Hfn H)).
Qed.

(** X21: A withdrawal is the owner's: it sends the amount, which the contract
    holds, to the owner it was called by, once; the event names the owner
    there is when the call returns. *)
Theorem withdrawal_pays_the_owner depth behaviours fn msg balance amount s f' :
  fn = WithdrawAll /\ amount = balance \/ fn = WithdrawAmount amount ->
  dispatch (realize depth behaviours) fn msg balance (start s) = Done (tt, f') ->
  sender msg = owner s /\ amount <= balance /\ (fn = WithdrawAll -> 0 < amount) /\
  outgoing (effects f') = [(owner s, amount)] /\
  payment_events (effects f') = [Withdrawn (owner (storage f')) amount].
Proof.
  intros Hfn H.
  exact (proj2 (proj2 (withdrawal_run _ (realize_kept_out depth behaviours)
                         fn msg balance amount s f' Hfn H))).
Qed.

(** X22: A batch that completes pays the entries of a non-zero amount, in order,
    and returns the rest of the ether it came with to the sender: what it
    sends adds up to what it received. Its totals never overflow. *)
Theorem batch_conserves_value depth behaviours msg toWallets amounts balance s :
  0 <= value msg <= MAX_UINT256 ->
  match dispatch (realize depth behaviours) (BatchPaymentToWallets toWallets amounts)
          msg balance (start s) with
  | Done (_, f') =>
      let due := total (paid toWallets amounts) in
      let refund := value msg - due in
      List.length toWallets = List.length amounts /\
      due <= value msg /\
      outgoing (effects f')
      = (paid toWallets amounts ++ if 0 <? refund then [(sender msg, refund)] else [])%list /\
      total (outgoing (effects f')) = value msg /\
      payment_events (effects f')
      = (List.map (fun p => PaymentSent (sender msg) (fst p) (snd p)) (paid toWallets amounts)
         ++ (if 0 <? refund then [Refunded (sender msg) refund] else [])
         ++ [BatchCompleted (sender msg) due refund])%list
  | Revert _ => True
  | Panic _ => False
  end.
Proof.
  intros [Hmin Hmax].
  pose proof (never_panics _ (realize_kept_out depth behaviours)
                (BatchPaymentToWallets toWallets amounts) msg balance s) as Hpanic.
  pose proof (batch_run _ (realize_kept_out depth behaviours) msg toWallets amounts balance s)
    as Hrun.
  destruct (dispatch (realize depth behaviours) (BatchPaymentToWallets toWallets amounts)
              msg balance (start s)) as [[[] f']|reason|code].
  - destruct (Hrun f' eq_refl) as (_ & _ & Hlen & _ & Hdue & Hout & Hev).
    cbv zeta. specialize (Hdue Hmin).
    repeat split; auto.
    rewrite Hout, total_refund. lia.
  - exact I.
  - exact (Hpanic code Hmax eq_refl).
Qed.

(** X23: While a function with the guard runs, each of its callees finds the
    guard set, so that no function with the guard completes inside it; the
    guard is free again when the call returns. *)
Theorem guard_is_set_while_ether_leaves depth behaviours fn msg balance s f' :
  dispatch (realize depth behaviours) fn msg balance (start s) = Done (tt, f') ->
  Forall guard_set (effects f') /\
  _status (storage f') = (if guarded fn then _NOT_ENTERED else _status s) /\
  (guarded fn = true -> _status s <> _ENTERED).
Proof.
  intros H.
  destruct (completed_call _ (realize_kept_out depth behaviours) fn msg balance s f' H).
  auto.
Qed.

(** X24: The owner changes only with an announced transfer from the owner there
    is to an address that is not zero, also during the calls the contract
    makes. *)
Theorem owner_changes_are_announced depth behaviours fn msg balance s f' :
  dispatch (realize depth behaviours) fn msg balance (start s) = Done (tt, f') ->
  owner_after (owner s) (effects f') = Some (owner (storage f')) /\
  (owner s <> 0 -> owner (storage f') <> 0).
Proof.
  intros H.
  destruct (completed_call _ (realize_kept_out depth behaviours) fn msg balance s f' H)
    as [_ Ho _ _].
  split; [exact Ho|]. exact (owner_after_nonzero _ _ _ Ho).
Qed.

(** *** Runs with callees that call back *)

(** A recipient that, when paid, asks for a second payment and then has the
    owner hand the contract over to it. *)
Definition greedy_recipient : list Behaviour :=
  [Behave [Reenter (SendPaymentToWallet 7) {| sender := 7; value := 1 |} 0 [];
           Reenter (WithdrawAll) {| sender := 1; value := 0 |} 500 [];
           Reenter (TransferOwnership 7) {| sender := 1; value := 0 |} 0 []] true].

(** An owner that, when paid, hands the contract over. *)
Definition leaving_owner : list Behaviour :=
  [Behave [Reenter (TransferOwnership 9) {| sender := 1; value := 0 |} 0 []] true].

(** X20, witness: a payment of 100 wei to the greedy recipient, which is paid once:
    its calls back for a second payment and for a withdrawal are refused. *)
Lemma greedy_recipient_is_paid_once :
  exists f',
    dispatch (realize 2 greedy_recipient) (SendPaymentToWallet 7)
      {| sender := 5; value := 100 |} 500 (start (constructed 1)) = Done (tt, f') /\
    0 < 100 /\ 7 <> 0 /\
    outgoing (effects f') = [(7, 100)] /\
    payment_events (effects f') = [PaymentSent 5 7 100].
Proof.
  eexists. split; [reflexivity|].
  apply (payment_forwards_the_value 2 greedy_recipient (SendPaymentToWallet 7)
           {| sender := 5; value := 100 |} 7 500 (constructed 1));
    [left; reflexivity | reflexivity].
Defined.

(** X21, witness: the owner withdraws 40 wei and hands the contract over while
    it is paid. *)
Lemma leaving_owner_is_paid_the_withdrawal :
  exists f',
    dispatch (realize 2 leaving_owner) (WithdrawAmount 40)
      {| sender := 1; value := 0 |} 500 (start (constructed 1)) = Done (tt, f') /\
    1 = 1 /\ 40 <= 500 /\ (WithdrawAmount 40 = WithdrawAll -> 0 < 40) /\
    outgoing (effects f') = [(1, 40)] /\
    payment_events (effects f') = [Withdrawn (owner (storage f')) 40].
Proof.
  eexists. split; [reflexivity|].
  apply (withdrawal_pays_the_owner 2 leaving_owner (WithdrawAmount 40)
           {| sender := 1; value := 0 |} 500 40 (constructed 1));
    [right; reflexivity | reflexivity].
Defined.

(** The event of that withdrawal names the new owner, not the one paid. *)
Example withdrawal_event_names_the_owner_of_the_end :
  match dispatch (realize 2 leaving_owner) (WithdrawAmount 40)
          {| sender := 1; value := 0 |} 500 (start (constructed 1)) with
  | Done (_, f') =>
      outgoing (effects f') = [(1, 40)] /\
      events (effects f') = [OwnershipTransferred 1 9; Withdrawn 9 40]
  | _ => False
  end.
Proof. cbv. split; reflexivity. Qed.

(** X22, witness: 100 wei for three entries of 30, 0 and 50 wei; 20 wei go back
    to the sender. *)
Lemma batch_of_three_with_a_refund :
  match dispatch (realize 2 greedy_recipient) (BatchPaymentToWallets [7; 8; 9] [30; 0; 50])
          {| sender := 5; value := 100 |} 500 (start (constructed 1)) with
  | Done (_, f') =>
      let due := total (paid [7; 8; 9] [30; 0; 50]) in
      let refund := 100 - due in
      List.length [7; 8; 9] = List.length [30; 0; 50] /\
      due <= 100 /\
      outgoing (effects f')
      = (paid [7; 8; 9] [30; 0; 50] ++ if 0 <? refund then [(5, refund)] else [])%list /\
      total (outgoing (effects f')) = 100 /\
      payment_events (effects f')
      = (List.map (fun p => PaymentSent 5 (fst p) (snd p)) (paid [7; 8; 9] [30; 0; 50])
         ++ (if 0 <? refund then [Refunded 5 refund] else [])
         ++ [BatchCompleted 5 due refund])%list
  | Revert _ => True
  | Panic _ => False
  end.
Proof.
  apply (batch_conserves_value 2 greedy_recipient {| sender := 5; value := 100 |}
           [7; 8; 9] [30; 0; 50] 500 (constructed 1)).
  cbn. unfold MAX_UINT256. lia.
Defined.

Example batch_of_three_sends :
  match dispatch (realize 2 greedy_recipient) (BatchPaymentToWallets [7; 8; 9] [30; 0; 50])
          {| sender := 5; value := 100 |} 500 (start (constructed 1)) with
  | Done (_, f') =>
      outgoing (effects f') = [(7, 30); (9, 50); (5, 20)] /\
      events (effects f') =
      [OwnershipTransferred 1 7; PaymentSent 5 7 30; PaymentSent 5 9 50;
       Refunded 5 20; BatchCompleted 5 80 20] /\
      storage f' = {| owner := 7; _status := _NOT_ENTERED |}
  | _ => False
  end.
Proof. cbv. repeat split; reflexivity. Qed.

(** X23, witness: the payment to the greedy recipient. *)
Lemma greedy_recipient_finds_the_guard_set :
  exists f',
    dispatch (realize 2 greedy_recipient) (SendPaymentToWallet 7)
      {| sender := 5; value := 100 |} 500 (start (constructed 1)) = Done (tt, f') /\
    Forall guard_set (effects f') /\
    _status (storage f') = _NOT_ENTERED /\
    (true = true -> _status (constructed 1) <> _ENTERED).
Proof.
  eexists. split; [reflexivity|].
  apply (guard_is_set_while_ether_leaves 2 greedy_recipient (SendPaymentToWallet 7)
           {| sender := 5; value := 100 |} 500 (constructed 1)).
  reflexivity.
Defined.

(** X24, witness: the withdrawal of the leaving owner. *)
Lemma owner_after_the_leaving_owner :
  exists f',
    dispatch (realize 2 leaving_owner) (WithdrawAmount 40)
      {| sender := 1; value := 0 |} 500 (start (constructed 1)) = Done (tt, f') /\
    owner_after 1 (effects f') = Some (owner (storage f')) /\
    (1 <> 0 -> owner (storage f') <> 0).
Proof.
  eexists. split; [reflexivity|].
  apply (owner_changes_are_announced 2 leaving_owner (WithdrawAmount 40)
           {| sender := 1; value := 0 |} 500 (constructed 1)).
  reflexivity.
Defined.

End PaymentSpec.
